(** * PredictionMarketV2: a shallow embedding of the market engine

    Source: [contracts/src/PredictionMarketV2.sol].

    The contract's storage is a record [Engine]; Solidity mappings are finite
    maps read with the zero value as default; [uint256] is [N] with every
    checked operation of Solidity 0.8 written out (overflow, underflow and
    division by zero abort the call); [int256] is [Z] with its range check.
    A call either returns or reverts: a reverted call leaves storage and
    token balances as they were.  Event emission is not part of the model. *)

From Stdlib Require Import NArith ZArith Lia String List Bool.
From stdpp Require Import base option list gmap strings countable.
Import ListNotations.

Local Open Scope N_scope.

(** ** Machine integers *)

Definition MAX_UINT256 : N := Eval vm_compute in (2 ^ 256 - 1).
Definition INT256_BOUND : N := Eval vm_compute in (2 ^ 255).
Definition E18 : N := 1000000000000000000.

Definition address : Type := N.

(** ** Failure of a call *)

Inductive Error : Type :=
| Revert (msg : string)                 (* require(..., msg) *)
| Panic (code : N)                      (* 0x11 arithmetic, 0x12 division by zero *)
| EnforcedPause                         (* Pausable.whenNotPaused *)
| ExpectedPause                         (* Pausable.whenPaused *)
| AccessControlUnauthorizedAccount (account : address)
| AccessControlBadConfirmation
| OwnableUnauthorizedAccount (account : address)
| OwnableInvalidOwner
| LedgerFailure.                        (* the token refused the transfer *)

Inductive result (A : Type) : Type :=
| Ok (a : A)
| Err (e : Error).
Arguments Ok {A} a.
Arguments Err {A} e.

Definition PANIC_ARITH : N := 17.
Definition PANIC_DIV0 : N := 18.

Module U256.
Definition add (a b : N) : result N :=
  if a + b <=? MAX_UINT256 then Ok (a + b) else Err (Panic PANIC_ARITH).
Definition sub (a b : N) : result N :=
  if b <=? a then Ok (a - b) else Err (Panic PANIC_ARITH).
Definition mul (a b : N) : result N :=
  if a * b <=? MAX_UINT256 then Ok (a * b) else Err (Panic PANIC_ARITH).
Definition div (a b : N) : result N :=
  if b =? 0 then Err (Panic PANIC_DIV0) else Ok (a / b).
End U256.

Module I256.
(** [int256(x)] for [x : uint256]: the two's complement reading of the
    same 256 bits; an explicit conversion does not revert. *)
Definition of_uint (x : N) : Z :=
  if x <? INT256_BOUND then Z.of_N x else (Z.of_N x - Z.of_N MAX_UINT256 - 1)%Z.
Definition in_range (z : Z) : bool :=
  ((- Z.of_N INT256_BOUND <=? z) && (z <? Z.of_N INT256_BOUND))%Z.
Definition add (a b : Z) : result Z :=
  if in_range (a + b) then Ok (a + b)%Z else Err (Panic PANIC_ARITH).
Definition sub (a b : Z) : result Z :=
  if in_range (a - b) then Ok (a - b)%Z else Err (Panic PANIC_ARITH).
End I256.

(** ** Enums *)

Inductive MarketCategory : Type :=
| POLITICS | SPORTS | CRYPTO | ENTERTAINMENT | SCIENCE | OTHER.

Inductive MarketType : Type :=
| STANDARD | FREE.

Inductive Role : Type :=
| DEFAULT_ADMIN_ROLE
| QUESTION_CREATOR_ROLE
| QUESTION_RESOLVE_ROLE
| MARKET_CREATOR_ROLE
| MARKET_VALIDATOR_ROLE.

#[global] Instance MarketCategory_eq_dec : EqDecision MarketCategory.
Proof. solve_decision. Defined.
#[global] Instance MarketType_eq_dec : EqDecision MarketType.
Proof. solve_decision. Defined.
#[global] Instance Role_eq_dec : EqDecision Role.
Proof. solve_decision. Defined.

Definition MarketCategory_code (c : MarketCategory) : N :=
  match c with
  | POLITICS => 0 | SPORTS => 1 | CRYPTO => 2
  | ENTERTAINMENT => 3 | SCIENCE => 4 | OTHER => 5
  end.
Definition MarketCategory_decode (n : N) : MarketCategory :=
  match n with
  | 0 => POLITICS | 1 => SPORTS | 2 => CRYPTO
  | 3 => ENTERTAINMENT | 4 => SCIENCE | _ => OTHER
  end.
Definition MarketType_code (t : MarketType) : N :=
  match t with STANDARD => 0 | FREE => 1 end.
Definition MarketType_decode (n : N) : MarketType :=
  match n with 0 => STANDARD | _ => FREE end.
Definition Role_code (r : Role) : N :=
  match r with
  | DEFAULT_ADMIN_ROLE => 0 | QUESTION_CREATOR_ROLE => 1
  | QUESTION_RESOLVE_ROLE => 2 | MARKET_CREATOR_ROLE => 3
  | MARKET_VALIDATOR_ROLE => 4
  end.
Definition Role_decode (n : N) : Role :=
  match n with
  | 0 => DEFAULT_ADMIN_ROLE | 1 => QUESTION_CREATOR_ROLE
  | 2 => QUESTION_RESOLVE_ROLE | 3 => MARKET_CREATOR_ROLE
  | _ => MARKET_VALIDATOR_ROLE
  end.

#[global] Instance MarketCategory_countable : Countable MarketCategory.
Proof.
  apply (inj_countable' MarketCategory_code MarketCategory_decode).
  intros []; reflexivity.
Defined.
#[global] Instance MarketType_countable : Countable MarketType.
Proof.
  apply (inj_countable' MarketType_code MarketType_decode).
  intros []; reflexivity.
Defined.
#[global] Instance Role_countable : Countable Role.
Proof.
  apply (inj_countable' Role_code Role_decode).
  intros []; reflexivity.
Defined.

(** ** Structs *)

Module Market.
Record t : Type := mk {
  question : string;
  description : string;
  endTime : N;
  createdAt : N;
  category : MarketCategory;
  marketType : MarketType;
  creator : address;
  resolved : bool;
  invalidated : bool;
  disputed : bool;
  validated : bool;
  winningOptionId : N;
  optionCount : N;
  totalVolume : N;
  lmsrB : N;
  adminInitialLiquidity : N;
  userLiquidity : N;
  platformFeesCollected : N;
  adminLiquidityClaimed : bool;
  earlyResolutionAllowed : bool;
  bettingToken : address
}.
(** The value a mapping yields at a key never written. *)
Definition zero : t :=
  mk EmptyString EmptyString 0 0 POLITICS STANDARD 0 false false false false 0 0 0 0 0 0 0 false false 0.
Definition set_resolved (v : bool) (x : t) : t :=
  mk (question x) (description x) (endTime x) (createdAt x) (category x) (marketType x) (creator x) v (invalidated x) (disputed x) (validated x) (winningOptionId x) (optionCount x) (totalVolume x) (lmsrB x) (adminInitialLiquidity x) (userLiquidity x) (platformFeesCollected x) (adminLiquidityClaimed x) (earlyResolutionAllowed x) (bettingToken x).
Definition set_invalidated (v : bool) (x : t) : t :=
  mk (question x) (description x) (endTime x) (createdAt x) (category x) (marketType x) (creator x) (resolved x) v (disputed x) (validated x) (winningOptionId x) (optionCount x) (totalVolume x) (lmsrB x) (adminInitialLiquidity x) (userLiquidity x) (platformFeesCollected x) (adminLiquidityClaimed x) (earlyResolutionAllowed x) (bettingToken x).
Definition set_disputed (v : bool) (x : t) : t :=
  mk (question x) (description x) (endTime x) (createdAt x) (category x) (marketType x) (creator x) (resolved x) (invalidated x) v (validated x) (winningOptionId x) (optionCount x) (totalVolume x) (lmsrB x) (adminInitialLiquidity x) (userLiquidity x) (platformFeesCollected x) (adminLiquidityClaimed x) (earlyResolutionAllowed x) (bettingToken x).
Definition set_validated (v : bool) (x : t) : t :=
  mk (question x) (description x) (endTime x) (createdAt x) (category x) (marketType x) (creator x) (resolved x) (invalidated x) (disputed x) v (winningOptionId x) (optionCount x) (totalVolume x) (lmsrB x) (adminInitialLiquidity x) (userLiquidity x) (platformFeesCollected x) (adminLiquidityClaimed x) (earlyResolutionAllowed x) (bettingToken x).
Definition set_winningOptionId (v : N) (x : t) : t :=
  mk (question x) (description x) (endTime x) (createdAt x) (category x) (marketType x) (creator x) (resolved x) (invalidated x) (disputed x) (validated x) v (optionCount x) (totalVolume x) (lmsrB x) (adminInitialLiquidity x) (userLiquidity x) (platformFeesCollected x) (adminLiquidityClaimed x) (earlyResolutionAllowed x) (bettingToken x).
Definition set_totalVolume (v : N) (x : t) : t :=
  mk (question x) (description x) (endTime x) (createdAt x) (category x) (marketType x) (creator x) (resolved x) (invalidated x) (disputed x) (validated x) (winningOptionId x) (optionCount x) v (lmsrB x) (adminInitialLiquidity x) (userLiquidity x) (platformFeesCollected x) (adminLiquidityClaimed x) (earlyResolutionAllowed x) (bettingToken x).
Definition set_userLiquidity (v : N) (x : t) : t :=
  mk (question x) (description x) (endTime x) (createdAt x) (category x) (marketType x) (creator x) (resolved x) (invalidated x) (disputed x) (validated x) (winningOptionId x) (optionCount x) (totalVolume x) (lmsrB x) (adminInitialLiquidity x) v (platformFeesCollected x) (adminLiquidityClaimed x) (earlyResolutionAllowed x) (bettingToken x).
Definition set_platformFeesCollected (v : N) (x : t) : t :=
  mk (question x) (description x) (endTime x) (createdAt x) (category x) (marketType x) (creator x) (resolved x) (invalidated x) (disputed x) (validated x) (winningOptionId x) (optionCount x) (totalVolume x) (lmsrB x) (adminInitialLiquidity x) (userLiquidity x) v (adminLiquidityClaimed x) (earlyResolutionAllowed x) (bettingToken x).
Definition set_adminLiquidityClaimed (v : bool) (x : t) : t :=
  mk (question x) (description x) (endTime x) (createdAt x) (category x) (marketType x) (creator x) (resolved x) (invalidated x) (disputed x) (validated x) (winningOptionId x) (optionCount x) (totalVolume x) (lmsrB x) (adminInitialLiquidity x) (userLiquidity x) (platformFeesCollected x) v (earlyResolutionAllowed x) (bettingToken x).
Definition set_earlyResolutionAllowed (v : bool) (x : t) : t :=
  mk (question x) (description x) (endTime x) (createdAt x) (category x) (marketType x) (creator x) (resolved x) (invalidated x) (disputed x) (validated x) (winningOptionId x) (optionCount x) (totalVolume x) (lmsrB x) (adminInitialLiquidity x) (userLiquidity x) (platformFeesCollected x) (adminLiquidityClaimed x) v (bettingToken x).
End Market.

Module Option.
Record t : Type := mk {
  name : string;
  description : string;
  totalShares : N;
  totalVolume : N;
  currentPrice : N;
  isActive : bool
}.
Definition zero : t := mk EmptyString EmptyString 0 0 0 false.
Definition set_totalShares (v : N) (x : t) : t :=
  mk (name x) (description x) v (totalVolume x) (currentPrice x) (isActive x).
Definition set_totalVolume (v : N) (x : t) : t :=
  mk (name x) (description x) (totalShares x) v (currentPrice x) (isActive x).
Definition set_currentPrice (v : N) (x : t) : t :=
  mk (name x) (description x) (totalShares x) (totalVolume x) v (isActive x).
End Option.

Module FreeMarketParams.
Record t : Type := mk {
  maxFreeParticipants : N;
  tokensPerParticipant : N
}.
End FreeMarketParams.

Module FreeMarketConfig.
Record t : Type := mk {
  maxFreeParticipants : N;
  tokensPerParticipant : N;
  currentFreeParticipants : N;
  totalPrizePool : N;
  remainingPrizePool : N;
  isActive : bool
}.
Definition zero : t := mk 0 0 0 0 0 false.
Definition set_currentFreeParticipants (v : N) (x : t) : t :=
  mk (maxFreeParticipants x) (tokensPerParticipant x) v (totalPrizePool x)
     (remainingPrizePool x) (isActive x).
Definition set_remainingPrizePool (v : N) (x : t) : t :=
  mk (maxFreeParticipants x) (tokensPerParticipant x) (currentFreeParticipants x)
     (totalPrizePool x) v (isActive x).
End FreeMarketConfig.

Module Trade.
Record t : Type := mk {
  marketId : N;
  optionId : N;
  buyer : address;
  seller : address;
  price : N;
  quantity : N;
  timestamp : N
}.
End Trade.

Module UserPortfolio.
Record t : Type := mk {
  totalInvested : N;
  totalWinnings : N;
  unrealizedPnL : Z;
  realizedPnL : Z;
  tradeCount : N
}.
Definition zero : t := mk 0 0 0 0 0.
Definition set_totalInvested (v : N) (x : t) : t :=
  mk v (totalWinnings x) (unrealizedPnL x) (realizedPnL x) (tradeCount x).
Definition set_totalWinnings (v : N) (x : t) : t :=
  mk (totalInvested x) v (unrealizedPnL x) (realizedPnL x) (tradeCount x).
Definition set_realizedPnL (v : Z) (x : t) : t :=
  mk (totalInvested x) (totalWinnings x) (unrealizedPnL x) v (tradeCount x).
Definition set_tradeCount (v : N) (x : t) : t :=
  mk (totalInvested x) (totalWinnings x) (unrealizedPnL x) (realizedPnL x) v.
End UserPortfolio.

Module PricePoint.
Record t : Type := mk {
  price : N;
  timestamp : N;
  volume : N
}.
End PricePoint.

(** ** Storage

    The state variables of the contract in declaration order, followed by
    the storage of the inherited AccessControl ([roles]), Ownable ([owner])
    and Pausable ([paused]).  ReentrancyGuard's status word is not kept: it
    is NOT_ENTERED whenever a call starts, and the ledger below never calls
    back into the engine. *)

Record Engine : Type := mkEngine {
  bettingToken : address;
  previousBettingToken : address;
  feeCollector : address;
  freeClaimHandler : address;
  marketCount : N;
  platformFeeRate : N;
  globalTradeCount : N;
  totalPlatformFeesCollected : N;
  totalLockedPlatformFees : N;
  totalUnlockedPlatformFees : N;
  totalWithdrawnPlatformFees : N;
  allParticipants : list address;
  whitelistedTokens : gset address;
  whitelistedTokenList : list address;
  markets : gmap N Market.t;
  options : gmap (N * N) Option.t;
  freeMarketConfigs : gmap N FreeMarketConfig.t;
  userShares : gmap (address * N * N) N;
  userCostBasis : gmap (address * N * N) N;
  hasClaimedWinnings : gset (N * address);
  hasClaimedFreeTokens : gset (N * address);
  userPortfolios : gmap address UserPortfolio.t;
  userTradeHistory : gmap address (list Trade.t);
  priceHistory : gmap (N * N) (list PricePoint.t);
  categoryMarkets : gmap MarketCategory (list N);
  marketsByType : gmap MarketType (list N);
  roles : gset (Role * address);
  owner : address;
  paused : bool
}.
Definition set_feeCollector (v : address) (x : Engine) : Engine :=
  mkEngine (bettingToken x) (previousBettingToken x) v (freeClaimHandler x) (marketCount x) (platformFeeRate x) (globalTradeCount x) (totalPlatformFeesCollected x) (totalLockedPlatformFees x) (totalUnlockedPlatformFees x) (totalWithdrawnPlatformFees x) (allParticipants x) (whitelistedTokens x) (whitelistedTokenList x) (markets x) (options x) (freeMarketConfigs x) (userShares x) (userCostBasis x) (hasClaimedWinnings x) (hasClaimedFreeTokens x) (userPortfolios x) (userTradeHistory x) (priceHistory x) (categoryMarkets x) (marketsByType x) (roles x) (owner x) (paused x).
Definition set_freeClaimHandler (v : address) (x : Engine) : Engine :=
  mkEngine (bettingToken x) (previousBettingToken x) (feeCollector x) v (marketCount x) (platformFeeRate x) (globalTradeCount x) (totalPlatformFeesCollected x) (totalLockedPlatformFees x) (totalUnlockedPlatformFees x) (totalWithdrawnPlatformFees x) (allParticipants x) (whitelistedTokens x) (whitelistedTokenList x) (markets x) (options x) (freeMarketConfigs x) (userShares x) (userCostBasis x) (hasClaimedWinnings x) (hasClaimedFreeTokens x) (userPortfolios x) (userTradeHistory x) (priceHistory x) (categoryMarkets x) (marketsByType x) (roles x) (owner x) (paused x).
Definition set_marketCount (v : N) (x : Engine) : Engine :=
  mkEngine (bettingToken x) (previousBettingToken x) (feeCollector x) (freeClaimHandler x) v (platformFeeRate x) (globalTradeCount x) (totalPlatformFeesCollected x) (totalLockedPlatformFees x) (totalUnlockedPlatformFees x) (totalWithdrawnPlatformFees x) (allParticipants x) (whitelistedTokens x) (whitelistedTokenList x) (markets x) (options x) (freeMarketConfigs x) (userShares x) (userCostBasis x) (hasClaimedWinnings x) (hasClaimedFreeTokens x) (userPortfolios x) (userTradeHistory x) (priceHistory x) (categoryMarkets x) (marketsByType x) (roles x) (owner x) (paused x).
Definition set_platformFeeRate (v : N) (x : Engine) : Engine :=
  mkEngine (bettingToken x) (previousBettingToken x) (feeCollector x) (freeClaimHandler x) (marketCount x) v (globalTradeCount x) (totalPlatformFeesCollected x) (totalLockedPlatformFees x) (totalUnlockedPlatformFees x) (totalWithdrawnPlatformFees x) (allParticipants x) (whitelistedTokens x) (whitelistedTokenList x) (markets x) (options x) (freeMarketConfigs x) (userShares x) (userCostBasis x) (hasClaimedWinnings x) (hasClaimedFreeTokens x) (userPortfolios x) (userTradeHistory x) (priceHistory x) (categoryMarkets x) (marketsByType x) (roles x) (owner x) (paused x).
Definition set_globalTradeCount (v : N) (x : Engine) : Engine :=
  mkEngine (bettingToken x) (previousBettingToken x) (feeCollector x) (freeClaimHandler x) (marketCount x) (platformFeeRate x) v (totalPlatformFeesCollected x) (totalLockedPlatformFees x) (totalUnlockedPlatformFees x) (totalWithdrawnPlatformFees x) (allParticipants x) (whitelistedTokens x) (whitelistedTokenList x) (markets x) (options x) (freeMarketConfigs x) (userShares x) (userCostBasis x) (hasClaimedWinnings x) (hasClaimedFreeTokens x) (userPortfolios x) (userTradeHistory x) (priceHistory x) (categoryMarkets x) (marketsByType x) (roles x) (owner x) (paused x).
Definition set_totalPlatformFeesCollected (v : N) (x : Engine) : Engine :=
  mkEngine (bettingToken x) (previousBettingToken x) (feeCollector x) (freeClaimHandler x) (marketCount x) (platformFeeRate x) (globalTradeCount x) v (totalLockedPlatformFees x) (totalUnlockedPlatformFees x) (totalWithdrawnPlatformFees x) (allParticipants x) (whitelistedTokens x) (whitelistedTokenList x) (markets x) (options x) (freeMarketConfigs x) (userShares x) (userCostBasis x) (hasClaimedWinnings x) (hasClaimedFreeTokens x) (userPortfolios x) (userTradeHistory x) (priceHistory x) (categoryMarkets x) (marketsByType x) (roles x) (owner x) (paused x).
Definition set_totalLockedPlatformFees (v : N) (x : Engine) : Engine :=
  mkEngine (bettingToken x) (previousBettingToken x) (feeCollector x) (freeClaimHandler x) (marketCount x) (platformFeeRate x) (globalTradeCount x) (totalPlatformFeesCollected x) v (totalUnlockedPlatformFees x) (totalWithdrawnPlatformFees x) (allParticipants x) (whitelistedTokens x) (whitelistedTokenList x) (markets x) (options x) (freeMarketConfigs x) (userShares x) (userCostBasis x) (hasClaimedWinnings x) (hasClaimedFreeTokens x) (userPortfolios x) (userTradeHistory x) (priceHistory x) (categoryMarkets x) (marketsByType x) (roles x) (owner x) (paused x).
Definition set_totalUnlockedPlatformFees (v : N) (x : Engine) : Engine :=
  mkEngine (bettingToken x) (previousBettingToken x) (feeCollector x) (freeClaimHandler x) (marketCount x) (platformFeeRate x) (globalTradeCount x) (totalPlatformFeesCollected x) (totalLockedPlatformFees x) v (totalWithdrawnPlatformFees x) (allParticipants x) (whitelistedTokens x) (whitelistedTokenList x) (markets x) (options x) (freeMarketConfigs x) (userShares x) (userCostBasis x) (hasClaimedWinnings x) (hasClaimedFreeTokens x) (userPortfolios x) (userTradeHistory x) (priceHistory x) (categoryMarkets x) (marketsByType x) (roles x) (owner x) (paused x).
Definition set_totalWithdrawnPlatformFees (v : N) (x : Engine) : Engine :=
  mkEngine (bettingToken x) (previousBettingToken x) (feeCollector x) (freeClaimHandler x) (marketCount x) (platformFeeRate x) (globalTradeCount x) (totalPlatformFeesCollected x) (totalLockedPlatformFees x) (totalUnlockedPlatformFees x) v (allParticipants x) (whitelistedTokens x) (whitelistedTokenList x) (markets x) (options x) (freeMarketConfigs x) (userShares x) (userCostBasis x) (hasClaimedWinnings x) (hasClaimedFreeTokens x) (userPortfolios x) (userTradeHistory x) (priceHistory x) (categoryMarkets x) (marketsByType x) (roles x) (owner x) (paused x).
Definition set_whitelistedTokens (v : gset address) (x : Engine) : Engine :=
  mkEngine (bettingToken x) (previousBettingToken x) (feeCollector x) (freeClaimHandler x) (marketCount x) (platformFeeRate x) (globalTradeCount x) (totalPlatformFeesCollected x) (totalLockedPlatformFees x) (totalUnlockedPlatformFees x) (totalWithdrawnPlatformFees x) (allParticipants x) v (whitelistedTokenList x) (markets x) (options x) (freeMarketConfigs x) (userShares x) (userCostBasis x) (hasClaimedWinnings x) (hasClaimedFreeTokens x) (userPortfolios x) (userTradeHistory x) (priceHistory x) (categoryMarkets x) (marketsByType x) (roles x) (owner x) (paused x).
Definition set_whitelistedTokenList (v : list address) (x : Engine) : Engine :=
  mkEngine (bettingToken x) (previousBettingToken x) (feeCollector x) (freeClaimHandler x) (marketCount x) (platformFeeRate x) (globalTradeCount x) (totalPlatformFeesCollected x) (totalLockedPlatformFees x) (totalUnlockedPlatformFees x) (totalWithdrawnPlatformFees x) (allParticipants x) (whitelistedTokens x) v (markets x) (options x) (freeMarketConfigs x) (userShares x) (userCostBasis x) (hasClaimedWinnings x) (hasClaimedFreeTokens x) (userPortfolios x) (userTradeHistory x) (priceHistory x) (categoryMarkets x) (marketsByType x) (roles x) (owner x) (paused x).
Definition set_markets (v : gmap N Market.t) (x : Engine) : Engine :=
  mkEngine (bettingToken x) (previousBettingToken x) (feeCollector x) (freeClaimHandler x) (marketCount x) (platformFeeRate x) (globalTradeCount x) (totalPlatformFeesCollected x) (totalLockedPlatformFees x) (totalUnlockedPlatformFees x) (totalWithdrawnPlatformFees x) (allParticipants x) (whitelistedTokens x) (whitelistedTokenList x) v (options x) (freeMarketConfigs x) (userShares x) (userCostBasis x) (hasClaimedWinnings x) (hasClaimedFreeTokens x) (userPortfolios x) (userTradeHistory x) (priceHistory x) (categoryMarkets x) (marketsByType x) (roles x) (owner x) (paused x).
Definition set_options (v : gmap (N * N) Option.t) (x : Engine) : Engine :=
  mkEngine (bettingToken x) (previousBettingToken x) (feeCollector x) (freeClaimHandler x) (marketCount x) (platformFeeRate x) (globalTradeCount x) (totalPlatformFeesCollected x) (totalLockedPlatformFees x) (totalUnlockedPlatformFees x) (totalWithdrawnPlatformFees x) (allParticipants x) (whitelistedTokens x) (whitelistedTokenList x) (markets x) v (freeMarketConfigs x) (userShares x) (userCostBasis x) (hasClaimedWinnings x) (hasClaimedFreeTokens x) (userPortfolios x) (userTradeHistory x) (priceHistory x) (categoryMarkets x) (marketsByType x) (roles x) (owner x) (paused x).
Definition set_freeMarketConfigs (v : gmap N FreeMarketConfig.t) (x : Engine) : Engine :=
  mkEngine (bettingToken x) (previousBettingToken x) (feeCollector x) (freeClaimHandler x) (marketCount x) (platformFeeRate x) (globalTradeCount x) (totalPlatformFeesCollected x) (totalLockedPlatformFees x) (totalUnlockedPlatformFees x) (totalWithdrawnPlatformFees x) (allParticipants x) (whitelistedTokens x) (whitelistedTokenList x) (markets x) (options x) v (userShares x) (userCostBasis x) (hasClaimedWinnings x) (hasClaimedFreeTokens x) (userPortfolios x) (userTradeHistory x) (priceHistory x) (categoryMarkets x) (marketsByType x) (roles x) (owner x) (paused x).
Definition set_userShares (v : gmap (address * N * N) N) (x : Engine) : Engine :=
  mkEngine (bettingToken x) (previousBettingToken x) (feeCollector x) (freeClaimHandler x) (marketCount x) (platformFeeRate x) (globalTradeCount x) (totalPlatformFeesCollected x) (totalLockedPlatformFees x) (totalUnlockedPlatformFees x) (totalWithdrawnPlatformFees x) (allParticipants x) (whitelistedTokens x) (whitelistedTokenList x) (markets x) (options x) (freeMarketConfigs x) v (userCostBasis x) (hasClaimedWinnings x) (hasClaimedFreeTokens x) (userPortfolios x) (userTradeHistory x) (priceHistory x) (categoryMarkets x) (marketsByType x) (roles x) (owner x) (paused x).
Definition set_userCostBasis (v : gmap (address * N * N) N) (x : Engine) : Engine :=
  mkEngine (bettingToken x) (previousBettingToken x) (feeCollector x) (freeClaimHandler x) (marketCount x) (platformFeeRate x) (globalTradeCount x) (totalPlatformFeesCollected x) (totalLockedPlatformFees x) (totalUnlockedPlatformFees x) (totalWithdrawnPlatformFees x) (allParticipants x) (whitelistedTokens x) (whitelistedTokenList x) (markets x) (options x) (freeMarketConfigs x) (userShares x) v (hasClaimedWinnings x) (hasClaimedFreeTokens x) (userPortfolios x) (userTradeHistory x) (priceHistory x) (categoryMarkets x) (marketsByType x) (roles x) (owner x) (paused x).
Definition set_hasClaimedWinnings (v : gset (N * address)) (x : Engine) : Engine :=
  mkEngine (bettingToken x) (previousBettingToken x) (feeCollector x) (freeClaimHandler x) (marketCount x) (platformFeeRate x) (globalTradeCount x) (totalPlatformFeesCollected x) (totalLockedPlatformFees x) (totalUnlockedPlatformFees x) (totalWithdrawnPlatformFees x) (allParticipants x) (whitelistedTokens x) (whitelistedTokenList x) (markets x) (options x) (freeMarketConfigs x) (userShares x) (userCostBasis x) v (hasClaimedFreeTokens x) (userPortfolios x) (userTradeHistory x) (priceHistory x) (categoryMarkets x) (marketsByType x) (roles x) (owner x) (paused x).
Definition set_hasClaimedFreeTokens (v : gset (N * address)) (x : Engine) : Engine :=
  mkEngine (bettingToken x) (previousBettingToken x) (feeCollector x) (freeClaimHandler x) (marketCount x) (platformFeeRate x) (globalTradeCount x) (totalPlatformFeesCollected x) (totalLockedPlatformFees x) (totalUnlockedPlatformFees x) (totalWithdrawnPlatformFees x) (allParticipants x) (whitelistedTokens x) (whitelistedTokenList x) (markets x) (options x) (freeMarketConfigs x) (userShares x) (userCostBasis x) (hasClaimedWinnings x) v (userPortfolios x) (userTradeHistory x) (priceHistory x) (categoryMarkets x) (marketsByType x) (roles x) (owner x) (paused x).
Definition set_userPortfolios (v : gmap address UserPortfolio.t) (x : Engine) : Engine :=
  mkEngine (bettingToken x) (previousBettingToken x) (feeCollector x) (freeClaimHandler x) (marketCount x) (platformFeeRate x) (globalTradeCount x) (totalPlatformFeesCollected x) (totalLockedPlatformFees x) (totalUnlockedPlatformFees x) (totalWithdrawnPlatformFees x) (allParticipants x) (whitelistedTokens x) (whitelistedTokenList x) (markets x) (options x) (freeMarketConfigs x) (userShares x) (userCostBasis x) (hasClaimedWinnings x) (hasClaimedFreeTokens x) v (userTradeHistory x) (priceHistory x) (categoryMarkets x) (marketsByType x) (roles x) (owner x) (paused x).
Definition set_userTradeHistory (v : gmap address (list Trade.t)) (x : Engine) : Engine :=
  mkEngine (bettingToken x) (previousBettingToken x) (feeCollector x) (freeClaimHandler x) (marketCount x) (platformFeeRate x) (globalTradeCount x) (totalPlatformFeesCollected x) (totalLockedPlatformFees x) (totalUnlockedPlatformFees x) (totalWithdrawnPlatformFees x) (allParticipants x) (whitelistedTokens x) (whitelistedTokenList x) (markets x) (options x) (freeMarketConfigs x) (userShares x) (userCostBasis x) (hasClaimedWinnings x) (hasClaimedFreeTokens x) (userPortfolios x) v (priceHistory x) (categoryMarkets x) (marketsByType x) (roles x) (owner x) (paused x).
Definition set_priceHistory (v : gmap (N * N) (list PricePoint.t)) (x : Engine) : Engine :=
  mkEngine (bettingToken x) (previousBettingToken x) (feeCollector x) (freeClaimHandler x) (marketCount x) (platformFeeRate x) (globalTradeCount x) (totalPlatformFeesCollected x) (totalLockedPlatformFees x) (totalUnlockedPlatformFees x) (totalWithdrawnPlatformFees x) (allParticipants x) (whitelistedTokens x) (whitelistedTokenList x) (markets x) (options x) (freeMarketConfigs x) (userShares x) (userCostBasis x) (hasClaimedWinnings x) (hasClaimedFreeTokens x) (userPortfolios x) (userTradeHistory x) v (categoryMarkets x) (marketsByType x) (roles x) (owner x) (paused x).
Definition set_categoryMarkets (v : gmap MarketCategory (list N)) (x : Engine) : Engine :=
  mkEngine (bettingToken x) (previousBettingToken x) (feeCollector x) (freeClaimHandler x) (marketCount x) (platformFeeRate x) (globalTradeCount x) (totalPlatformFeesCollected x) (totalLockedPlatformFees x) (totalUnlockedPlatformFees x) (totalWithdrawnPlatformFees x) (allParticipants x) (whitelistedTokens x) (whitelistedTokenList x) (markets x) (options x) (freeMarketConfigs x) (userShares x) (userCostBasis x) (hasClaimedWinnings x) (hasClaimedFreeTokens x) (userPortfolios x) (userTradeHistory x) (priceHistory x) v (marketsByType x) (roles x) (owner x) (paused x).
Definition set_marketsByType (v : gmap MarketType (list N)) (x : Engine) : Engine :=
  mkEngine (bettingToken x) (previousBettingToken x) (feeCollector x) (freeClaimHandler x) (marketCount x) (platformFeeRate x) (globalTradeCount x) (totalPlatformFeesCollected x) (totalLockedPlatformFees x) (totalUnlockedPlatformFees x) (totalWithdrawnPlatformFees x) (allParticipants x) (whitelistedTokens x) (whitelistedTokenList x) (markets x) (options x) (freeMarketConfigs x) (userShares x) (userCostBasis x) (hasClaimedWinnings x) (hasClaimedFreeTokens x) (userPortfolios x) (userTradeHistory x) (priceHistory x) (categoryMarkets x) v (roles x) (owner x) (paused x).
Definition set_roles (v : gset (Role * address)) (x : Engine) : Engine :=
  mkEngine (bettingToken x) (previousBettingToken x) (feeCollector x) (freeClaimHandler x) (marketCount x) (platformFeeRate x) (globalTradeCount x) (totalPlatformFeesCollected x) (totalLockedPlatformFees x) (totalUnlockedPlatformFees x) (totalWithdrawnPlatformFees x) (allParticipants x) (whitelistedTokens x) (whitelistedTokenList x) (markets x) (options x) (freeMarketConfigs x) (userShares x) (userCostBasis x) (hasClaimedWinnings x) (hasClaimedFreeTokens x) (userPortfolios x) (userTradeHistory x) (priceHistory x) (categoryMarkets x) (marketsByType x) v (owner x) (paused x).
Definition set_owner (v : address) (x : Engine) : Engine :=
  mkEngine (bettingToken x) (previousBettingToken x) (feeCollector x) (freeClaimHandler x) (marketCount x) (platformFeeRate x) (globalTradeCount x) (totalPlatformFeesCollected x) (totalLockedPlatformFees x) (totalUnlockedPlatformFees x) (totalWithdrawnPlatformFees x) (allParticipants x) (whitelistedTokens x) (whitelistedTokenList x) (markets x) (options x) (freeMarketConfigs x) (userShares x) (userCostBasis x) (hasClaimedWinnings x) (hasClaimedFreeTokens x) (userPortfolios x) (userTradeHistory x) (priceHistory x) (categoryMarkets x) (marketsByType x) (roles x) v (paused x).
Definition set_paused (v : bool) (x : Engine) : Engine :=
  mkEngine (bettingToken x) (previousBettingToken x) (feeCollector x) (freeClaimHandler x) (marketCount x) (platformFeeRate x) (globalTradeCount x) (totalPlatformFeesCollected x) (totalLockedPlatformFees x) (totalUnlockedPlatformFees x) (totalWithdrawnPlatformFees x) (allParticipants x) (whitelistedTokens x) (whitelistedTokenList x) (markets x) (options x) (freeMarketConfigs x) (userShares x) (userCostBasis x) (hasClaimedWinnings x) (hasClaimedFreeTokens x) (userPortfolios x) (userTradeHistory x) (priceHistory x) (categoryMarkets x) (marketsByType x) (roles x) (owner x) v.

(** ** The token ledger

    The betting tokens are contracts of their own (OpenZeppelin's IERC20);
    only the two entry points the engine calls are modelled. *)

Record Ledger : Type := mkLedger {
  balances : gmap (address * address) N;              (* token, holder *)
  allowances : gmap (address * address * address) N   (* token, owner, spender *)
}.

Definition balanceOf (l : Ledger) (token holder : address) : N :=
  default 0 (balances l !! (token, holder)).

Definition allowance (l : Ledger) (token holder spender : address) : N :=
  default 0 (allowances l !! (token, holder, spender)).

(** Modelled from the spec: the Ledger Interface [transfer(to, amount)],
    atomic and failing loudly on insufficient balance.  There is one ledger
    per betting token; no token contract lives at the zero address, and a
    call addressed to it reverts. *)
Definition ledger_transfer (token from to : address) (amount : N) (l : Ledger)
  : result Ledger :=
  if token =? 0 then Err LedgerFailure
  else if amount <=? balanceOf l token from then
    let b1 := <[(token, from) := balanceOf l token from - amount]> (balances l) in
    let b2 := <[(token, to) := default 0 (b1 !! (token, to)) + amount]> b1 in
    Ok (mkLedger b2 (allowances l))
  else Err LedgerFailure.

(** Modelled from the spec: the Ledger Interface
    [transferFrom(from, to, amount)] called by [spender], atomic and failing
    loudly on insufficient balance or allowance. *)
Definition ledger_transferFrom (token spender from to : address) (amount : N)
  (l : Ledger) : result Ledger :=
  if amount <=? allowance l token from spender then
    match ledger_transfer token from to amount l with
    | Ok l' =>
        Ok (mkLedger (balances l')
              (<[(token, from, spender) := allowance l token from spender - amount]>
                 (allowances l')))
    | Err e => Err e
    end
  else Err LedgerFailure.

(** One call made to a token contract, with the engine's storage as it
    stands at the moment the call is issued. *)
Record ExtCall : Type := mkExtCall {
  xc_token : address;
  xc_from : address;
  xc_to : address;
  xc_amount : N;
  xc_storage : Engine
}.

(** ** Execution monad *)

Record Ctx : Type := mkCtx {
  msg_sender : address;
  block_timestamp : N;
  this : address
}.

Record St : Type := mkSt {
  eng : Engine;
  led : Ledger;
  calls : list ExtCall
}.

Definition M (A : Type) : Type := St -> result (A * St).

Definition ret {A} (a : A) : M A := fun st => Ok (a, st).

Definition bind {A B} (m : M A) (f : A -> M B) : M B :=
  fun st => match m st with
            | Ok (a, st') => f a st'
            | Err e => Err e
            end.

Notation "x <- m ;; k" := (bind m (fun x => k))
  (at level 100, m at next level, right associativity).
Notation "m ;; k" := (bind m (fun _ => k))
  (at level 100, right associativity).

Definition rbind {A B} (m : result A) (f : A -> result B) : result B :=
  match m with
  | Ok a => f a
  | Err e => Err e
  end.

Notation "'let*' x := m 'in' k" := (rbind m (fun x => k))
  (at level 10, x name, m at level 100, k at level 200).

Definition fail {A} (e : Error) : M A := fun _ => Err e.

Definition lift {A} (r : result A) : M A :=
  fun st => match r with
            | Ok a => Ok (a, st)
            | Err e => Err e
            end.

Definition gets {A} (f : Engine -> A) : M A := fun st => Ok (f (eng st), st).

Definition view {A} (f : Engine -> result A) : M A :=
  fun st => match f (eng st) with
            | Ok a => Ok (a, st)
            | Err e => Err e
            end.

Definition modify (f : Engine -> Engine) : M unit :=
  fun st => Ok (tt, mkSt (f (eng st)) (led st) (calls st)).

Definition require (b : bool) (msg : string) : M unit :=
  if b then ret tt else fail (Revert msg).

Definition guard (b : bool) (e : Error) : M unit :=
  if b then ret tt else fail e.

(** [token.transfer(to, amount)] issued by the engine. *)
Definition token_transfer (c : Ctx) (token to : address) (amount : N) : M unit :=
  fun st =>
    match ledger_transfer token (this c) to amount (led st) with
    | Ok l' =>
        Ok (tt, mkSt (eng st) l'
                  (calls st ++ [mkExtCall token (this c) to amount (eng st)]))
    | Err e => Err e
    end.

(** [token.transferFrom(from, to, amount)] issued by the engine. *)
Definition token_transferFrom (c : Ctx) (token from to : address) (amount : N)
  : M unit :=
  fun st =>
    match ledger_transferFrom token (this c) from to amount (led st) with
    | Ok l' =>
        Ok (tt, mkSt (eng st) l'
                  (calls st ++ [mkExtCall token from to amount (eng st)]))
    | Err e => Err e
    end.

(** ** Mapping reads and writes *)

Definition getMarket (e : Engine) (m : N) : Market.t :=
  default Market.zero (markets e !! m).
Definition getOption (e : Engine) (m o : N) : Option.t :=
  default Option.zero (options e !! (m, o)).
Definition getFreeConfig (e : Engine) (m : N) : FreeMarketConfig.t :=
  default FreeMarketConfig.zero (freeMarketConfigs e !! m).
Definition getShares (e : Engine) (u : address) (m o : N) : N :=
  default 0 (userShares e !! (u, m, o)).
Definition getCostBasis (e : Engine) (u : address) (m o : N) : N :=
  default 0 (userCostBasis e !! (u, m, o)).
Definition getPortfolio (e : Engine) (u : address) : UserPortfolio.t :=
  default UserPortfolio.zero (userPortfolios e !! u).
Definition getClaimedWinnings (e : Engine) (m : N) (u : address) : bool :=
  bool_decide ((m, u) ∈ hasClaimedWinnings e).
Definition getClaimedFreeTokens (e : Engine) (m : N) (u : address) : bool :=
  bool_decide ((m, u) ∈ hasClaimedFreeTokens e).
Definition hasRole (e : Engine) (r : Role) (a : address) : bool :=
  bool_decide ((r, a) ∈ roles e).
Definition isWhitelisted (e : Engine) (token : address) : bool :=
  bool_decide (token ∈ whitelistedTokens e).

Definition set_markets_at (m : N) (v : Market.t) (e : Engine) : Engine :=
  set_markets (<[m := v]> (markets e)) e.
Definition updMarket (m : N) (f : Market.t -> Market.t) (e : Engine) : Engine :=
  set_markets (<[m := f (getMarket e m)]> (markets e)) e.
Definition updOption (m o : N) (f : Option.t -> Option.t) (e : Engine) : Engine :=
  set_options (<[(m, o) := f (getOption e m o)]> (options e)) e.
Definition updFreeConfig (m : N) (f : FreeMarketConfig.t -> FreeMarketConfig.t)
  (e : Engine) : Engine :=
  set_freeMarketConfigs (<[m := f (getFreeConfig e m)]> (freeMarketConfigs e)) e.
Definition updPortfolio (u : address) (f : UserPortfolio.t -> UserPortfolio.t)
  (e : Engine) : Engine :=
  set_userPortfolios (<[u := f (getPortfolio e u)]> (userPortfolios e)) e.
Definition setShares (u : address) (m o v : N) (e : Engine) : Engine :=
  set_userShares (<[(u, m, o) := v]> (userShares e)) e.
Definition setCostBasis (u : address) (m o v : N) (e : Engine) : Engine :=
  set_userCostBasis (<[(u, m, o) := v]> (userCostBasis e)) e.
Definition pushTrade (u : address) (t : Trade.t) (e : Engine) : Engine :=
  set_userTradeHistory
    (<[u := default [] (userTradeHistory e !! u) ++ [t]]> (userTradeHistory e)) e.
Definition pushPricePoint (m o : N) (p : PricePoint.t) (e : Engine) : Engine :=
  set_priceHistory
    (<[(m, o) := default [] (priceHistory e !! (m, o)) ++ [p]]> (priceHistory e)) e.
Definition pushCategoryMarket (c : MarketCategory) (m : N) (e : Engine) : Engine :=
  set_categoryMarkets
    (<[c := default [] (categoryMarkets e !! c) ++ [m]]> (categoryMarkets e)) e.
Definition pushMarketByType (t : MarketType) (m : N) (e : Engine) : Engine :=
  set_marketsByType
    (<[t := default [] (marketsByType e !! t) ++ [m]]> (marketsByType e)) e.

(** [x += v] and [x -= v] on a storage slot, with the checked arithmetic. *)
Definition addTo (get : Engine -> N) (set : N -> Engine -> Engine) (v : N) : M unit :=
  x <- gets get ;;
  x' <- lift (U256.add x v) ;;
  modify (set x').

Definition subFrom (get : Engine -> N) (set : N -> Engine -> Engine) (v : N) : M unit :=
  x <- gets get ;;
  x' <- lift (U256.sub x v) ;;
  modify (set x').

(** ** Constants *)

Definition PAYOUT_PER_SHARE : N := E18.
Definition MIN_MARKET_DURATION : N := 3600.
Definition MAX_MARKET_DURATION : N := 31536000.
Definition MIN_LMSR_B : N := E18.
Definition MAX_LMSR_B : N := 1000000 * E18.

(** ** Modifiers

    [whenNotPaused], [whenPaused], [onlyRole] and [onlyOwner] are inherited
    from OpenZeppelin's Pausable, AccessControl and Ownable, whose sources
    are not part of the repository; they test the [paused] flag, membership
    in [roles] and equality with [owner], and fail with the library's custom
    errors.  [nonReentrant] has no counterpart: the ledger never calls back. *)

Definition whenNotPaused : M unit :=
  p <- gets paused ;; guard (negb p) EnforcedPause.

Definition whenPaused : M unit :=
  p <- gets paused ;; guard p ExpectedPause.

Definition onlyRole (c : Ctx) (r : Role) : M unit :=
  h <- gets (fun e => hasRole e r (msg_sender c)) ;;
  guard h (AccessControlUnauthorizedAccount (msg_sender c)).

Definition onlyOwner (c : Ctx) : M unit :=
  o <- gets owner ;;
  guard (msg_sender c =? o) (OwnableUnauthorizedAccount (msg_sender c)).

Definition marketExists (_marketId : N) : M unit :=
  n <- gets marketCount ;;
  require (_marketId <? n) "Market does not exist".

Definition marketNotResolved (_marketId : N) : M unit :=
  r <- gets (fun e => Market.resolved (getMarket e _marketId)) ;;
  require (negb r) "Market already resolved".

Definition marketNotInvalidated (_marketId : N) : M unit :=
  i <- gets (fun e => Market.invalidated (getMarket e _marketId)) ;;
  require (negb i) "Market invalidated".

Definition marketActive (c : Ctx) (_marketId : N) : M unit :=
  t <- gets (fun e => Market.endTime (getMarket e _marketId)) ;;
  require (block_timestamp c <? t) "Market ended".

Definition marketEnded (c : Ctx) (_marketId : N) : M unit :=
  t <- gets (fun e => Market.endTime (getMarket e _marketId)) ;;
  require (t <=? block_timestamp c) "Market not ended".

(** ** Pricing *)

Definition _calculateLMSRB (_liquidity _optionCount : N) : result N :=
  let* num := U256.mul _liquidity E18 in
  let* den := U256.mul _optionCount E18 in
  let* b := U256.div num den in
  let b := if b <? MIN_LMSR_B then MIN_LMSR_B else b in
  let b := if MAX_LMSR_B <? b then MAX_LMSR_B else b in
  Ok b.

(** The values [0, 1, ..., n-1] taken by a loop counter [i < n]. *)
Definition loopIndices (n : N) : list N := map N.of_nat (seq 0 (N.to_nat n)).

(** The loop of [_calculatePrice]: option [_optionId] counts with the
    hypothetical [_shares], every other option with its stored shares. *)
Fixpoint sumWeightedShares (e : Engine) (_marketId _optionId _shares : N)
  (indices : list N) (totalWeightedShares : N) : result N :=
  match indices with
  | [] => Ok totalWeightedShares
  | i :: rest =>
      let shares := if i =? _optionId then _shares
                    else Option.totalShares (getOption e _marketId i) in
      let* total := U256.add totalWeightedShares shares in
      sumWeightedShares e _marketId _optionId _shares rest total
  end.

Definition _calculatePrice (e : Engine) (_marketId _optionId _shares : N) : result N :=
  let market := getMarket e _marketId in
  let optionWeight := _shares in
  let* totalWeightedShares :=
    sumWeightedShares e _marketId _optionId _shares
      (loopIndices (Market.optionCount market)) 0 in
  if totalWeightedShares =? 0 then U256.div E18 (Market.optionCount market)
  else
    let* scaled := U256.mul optionWeight E18 in
    U256.div scaled totalWeightedShares.

Definition _calculateBuyCost (e : Engine) (_marketId _optionId _quantity : N) : result N :=
  let currentShares := Option.totalShares (getOption e _marketId _optionId) in
  let* newShares := U256.add currentShares _quantity in
  let* half := U256.div _quantity 2 in
  let* mid := U256.add currentShares half in
  let* avgPrice := _calculatePrice e _marketId _optionId mid in
  let* prod := U256.mul _quantity avgPrice in
  U256.div prod E18.

Definition _calculateSellProceeds (e : Engine) (_marketId _optionId _quantity : N)
  : result N :=
  let currentShares := Option.totalShares (getOption e _marketId _optionId) in
  if negb (_quantity <=? currentShares) then Err (Revert "Insufficient market shares")
  else
    let* half := U256.div _quantity 2 in
    let* mid := U256.sub currentShares half in
    let* avgPrice := _calculatePrice e _marketId _optionId mid in
    let* prod := U256.mul _quantity avgPrice in
    U256.div prod E18.

Definition _updatePrice (_marketId _optionId : N) : M unit :=
  p <- view (fun e => _calculatePrice e _marketId _optionId
                        (Option.totalShares (getOption e _marketId _optionId))) ;;
  modify (updOption _marketId _optionId (Option.set_currentPrice p)).

(** ** Constructor *)

Definition emptyEngine : Engine :=
  mkEngine 0 0 0 0 0 0 0 0 0 0 0 [] ∅ [] ∅ ∅ ∅ ∅ ∅ ∅ ∅ ∅ ∅ ∅ ∅ ∅ ∅ 0 false.

Definition constructor (deployer _bettingToken : address) : result Engine :=
  if _bettingToken =? 0 then Err (Revert "Invalid token address")
  else
    Ok (set_feeCollector deployer
       (set_platformFeeRate 25
       (set_whitelistedTokens {[ _bettingToken ]}
       (set_whitelistedTokenList [_bettingToken]
       (set_roles
          {[ (DEFAULT_ADMIN_ROLE, deployer); (QUESTION_CREATOR_ROLE, deployer);
             (QUESTION_RESOLVE_ROLE, deployer); (MARKET_CREATOR_ROLE, deployer);
             (MARKET_VALIDATOR_ROLE, deployer) ]}
       (set_owner deployer emptyEngine)))))).

(** ** Market creation *)

(** The loop writing [options[marketId][i]] for [i < _optionNames.length]. *)
Fixpoint initOptions (marketId i : N) (_optionNames _optionDescriptions : list string)
  (sharesPerOption price : N) (e : Engine) : Engine :=
  match _optionNames, _optionDescriptions with
  | n :: ns, d :: ds =>
      initOptions marketId (i + 1) ns ds sharesPerOption price
        (set_options
           (<[(marketId, i) := Option.mk n d sharesPerOption 0 price true]> (options e)) e)
  | _, _ => e
  end.

Definition _createMarket (c : Ctx) (_question _description : string)
  (_optionNames _optionDescriptions : list string) (_duration : N)
  (_category : MarketCategory) (_marketType : MarketType) (_initialLiquidity : N)
  (_earlyResolutionAllowed : bool) (_freeParams : FreeMarketParams.t)
  (_bettingToken : address) : M N :=
  let count := N.of_nat (length _optionNames) in
  require (0 <? N.of_nat (String.length _question)) "Question required" ;;
  require (2 <=? count) "At least 2 options required" ;;
  require (count =? N.of_nat (length _optionDescriptions)) "Options mismatch" ;;
  require ((MIN_MARKET_DURATION <=? _duration) && (_duration <=? MAX_MARKET_DURATION))
    "Invalid duration" ;;
  require (0 <? _initialLiquidity) "Initial liquidity required" ;;
  w <- gets (fun e => isWhitelisted e _bettingToken) ;;
  require w "Token not whitelisted" ;;
  marketId <- gets marketCount ;;
  addTo marketCount set_marketCount 1 ;;
  endTime <- lift (U256.add (block_timestamp c) _duration) ;;
  token_transferFrom c _bettingToken (msg_sender c) (this c) _initialLiquidity ;;
  lmsrB <- lift (_calculateLMSRB _initialLiquidity count) ;;
  modify (set_markets_at marketId
            (Market.mk _question _description endTime (block_timestamp c) _category
               _marketType (msg_sender c) false false false false 0 count 0 lmsrB
               _initialLiquidity 0 0 false _earlyResolutionAllowed _bettingToken)) ;;
  sharesPerOption <- lift (U256.div _initialLiquidity count) ;;
  price <- lift (U256.div E18 count) ;;
  modify (initOptions marketId 0 _optionNames _optionDescriptions sharesPerOption price) ;;
  (if bool_decide (_marketType = FREE)
      && (0 <? FreeMarketParams.maxFreeParticipants _freeParams)
   then
     totalPrizePool <- lift (U256.mul (FreeMarketParams.maxFreeParticipants _freeParams)
                               (FreeMarketParams.tokensPerParticipant _freeParams)) ;;
     modify (fun e => set_freeMarketConfigs
                        (<[marketId :=
                             FreeMarketConfig.mk
                               (FreeMarketParams.maxFreeParticipants _freeParams)
                               (FreeMarketParams.tokensPerParticipant _freeParams)
                               0 totalPrizePool totalPrizePool true]>
                           (freeMarketConfigs e)) e)
   else ret tt) ;;
  modify (pushCategoryMarket _category marketId) ;;
  modify (pushMarketByType _marketType marketId) ;;
  ret marketId.

Definition createMarketWithToken (c : Ctx) (_question _description : string)
  (_optionNames _optionDescriptions : list string) (_duration : N)
  (_category : MarketCategory) (_marketType : MarketType) (_initialLiquidity : N)
  (_earlyResolutionAllowed : bool) (_freeParams : FreeMarketParams.t)
  (_bettingToken : address) : M N :=
  whenNotPaused ;;
  w <- gets (fun e => isWhitelisted e _bettingToken) ;;
  require w "Token not whitelisted" ;;
  _createMarket c _question _description _optionNames _optionDescriptions _duration
    _category _marketType _initialLiquidity _earlyResolutionAllowed _freeParams
    _bettingToken.

(** ** Trading *)

Definition buyShares (c : Ctx)
  (_marketId _optionId _quantity _maxPricePerShare _maxTotalCost : N) : M unit :=
  let u := msg_sender c in
  whenNotPaused ;;
  marketExists _marketId ;;
  marketActive c _marketId ;;
  marketNotResolved _marketId ;;
  marketNotInvalidated _marketId ;;
  n <- gets (fun e => Market.optionCount (getMarket e _marketId)) ;;
  require (_optionId <? n) "Invalid option" ;;
  require (0 <? _quantity) "Quantity must be > 0" ;;
  a <- gets (fun e => Option.isActive (getOption e _marketId _optionId)) ;;
  require a "Option not active" ;;
  totalCost <- view (fun e => _calculateBuyCost e _marketId _optionId _quantity) ;;
  scaled <- lift (U256.mul totalCost E18) ;;
  pricePerShare <- lift (U256.div scaled _quantity) ;;
  require (pricePerShare <=? _maxPricePerShare) "Price per share too high" ;;
  require (totalCost <=? _maxTotalCost) "Total cost too high" ;;
  rate <- gets platformFeeRate ;;
  feeNum <- lift (U256.mul totalCost rate) ;;
  fee <- lift (U256.div feeNum 1000) ;;
  totalPayment <- lift (U256.add totalCost fee) ;;
  marketToken <- gets (fun e => Market.bettingToken (getMarket e _marketId)) ;;
  token_transferFrom c marketToken u (this c) totalPayment ;;
  addTo (fun e => Option.totalShares (getOption e _marketId _optionId))
        (fun v => updOption _marketId _optionId (Option.set_totalShares v)) _quantity ;;
  addTo (fun e => Option.totalVolume (getOption e _marketId _optionId))
        (fun v => updOption _marketId _optionId (Option.set_totalVolume v)) totalCost ;;
  addTo (fun e => Market.totalVolume (getMarket e _marketId))
        (fun v => updMarket _marketId (Market.set_totalVolume v)) totalCost ;;
  addTo (fun e => Market.platformFeesCollected (getMarket e _marketId))
        (fun v => updMarket _marketId (Market.set_platformFeesCollected v)) fee ;;
  addTo (fun e => Market.userLiquidity (getMarket e _marketId))
        (fun v => updMarket _marketId (Market.set_userLiquidity v)) totalCost ;;
  addTo (fun e => getShares e u _marketId _optionId)
        (setShares u _marketId _optionId) _quantity ;;
  addTo (fun e => getCostBasis e u _marketId _optionId)
        (setCostBasis u _marketId _optionId) totalCost ;;
  addTo (fun e => UserPortfolio.totalInvested (getPortfolio e u))
        (fun v => updPortfolio u (UserPortfolio.set_totalInvested v)) totalCost ;;
  addTo (fun e => UserPortfolio.tradeCount (getPortfolio e u))
        (fun v => updPortfolio u (UserPortfolio.set_tradeCount v)) 1 ;;
  modify (pushTrade u (Trade.mk _marketId _optionId u 0 pricePerShare _quantity
                         (block_timestamp c))) ;;
  addTo globalTradeCount set_globalTradeCount 1 ;;
  _updatePrice _marketId _optionId ;;
  p <- gets (fun e => Option.currentPrice (getOption e _marketId _optionId)) ;;
  modify (pushPricePoint _marketId _optionId
            (PricePoint.mk p (block_timestamp c) totalCost)) ;;
  addTo totalPlatformFeesCollected set_totalPlatformFeesCollected fee ;;
  addTo totalLockedPlatformFees set_totalLockedPlatformFees fee.

Definition sellShares (c : Ctx)
  (_marketId _optionId _quantity _minPricePerShare _minTotalProceeds : N) : M unit :=
  let u := msg_sender c in
  whenNotPaused ;;
  marketExists _marketId ;;
  marketActive c _marketId ;;
  marketNotResolved _marketId ;;
  marketNotInvalidated _marketId ;;
  n <- gets (fun e => Market.optionCount (getMarket e _marketId)) ;;
  require (_optionId <? n) "Invalid option" ;;
  require (0 <? _quantity) "Quantity must be > 0" ;;
  held <- gets (fun e => getShares e u _marketId _optionId) ;;
  require (_quantity <=? held) "Insufficient shares" ;;
  totalProceeds <- view (fun e => _calculateSellProceeds e _marketId _optionId _quantity) ;;
  scaled <- lift (U256.mul totalProceeds E18) ;;
  pricePerShare <- lift (U256.div scaled _quantity) ;;
  require (_minPricePerShare <=? pricePerShare) "Price per share too low" ;;
  require (_minTotalProceeds <=? totalProceeds) "Total proceeds too low" ;;
  rate <- gets platformFeeRate ;;
  feeNum <- lift (U256.mul totalProceeds rate) ;;
  fee <- lift (U256.div feeNum 1000) ;;
  netProceeds <- lift (U256.sub totalProceeds fee) ;;
  subFrom (fun e => Option.totalShares (getOption e _marketId _optionId))
          (fun v => updOption _marketId _optionId (Option.set_totalShares v)) _quantity ;;
  addTo (fun e => Option.totalVolume (getOption e _marketId _optionId))
        (fun v => updOption _marketId _optionId (Option.set_totalVolume v)) totalProceeds ;;
  addTo (fun e => Market.totalVolume (getMarket e _marketId))
        (fun v => updMarket _marketId (Market.set_totalVolume v)) totalProceeds ;;
  addTo (fun e => Market.platformFeesCollected (getMarket e _marketId))
        (fun v => updMarket _marketId (Market.set_platformFeesCollected v)) fee ;;
  subFrom (fun e => getShares e u _marketId _optionId)
          (setShares u _marketId _optionId) _quantity ;;
  basis <- gets (fun e => getCostBasis e u _marketId _optionId) ;;
  remaining <- gets (fun e => getShares e u _marketId _optionId) ;;
  redNum <- lift (U256.mul basis _quantity) ;;
  redDen <- lift (U256.add remaining _quantity) ;;
  costReduction <- lift (U256.div redNum redDen) ;;
  subFrom (fun e => getCostBasis e u _marketId _optionId)
          (setCostBasis u _marketId _optionId) costReduction ;;
  pnl <- lift (I256.sub (I256.of_uint netProceeds) (I256.of_uint costReduction)) ;;
  realized <- gets (fun e => UserPortfolio.realizedPnL (getPortfolio e u)) ;;
  realized' <- lift (I256.add realized pnl) ;;
  modify (updPortfolio u (UserPortfolio.set_realizedPnL realized')) ;;
  addTo (fun e => UserPortfolio.tradeCount (getPortfolio e u))
        (fun v => updPortfolio u (UserPortfolio.set_tradeCount v)) 1 ;;
  marketToken <- gets (fun e => Market.bettingToken (getMarket e _marketId)) ;;
  token_transfer c marketToken u netProceeds ;;
  modify (pushTrade u (Trade.mk _marketId _optionId 0 u pricePerShare _quantity
                         (block_timestamp c))) ;;
  addTo globalTradeCount set_globalTradeCount 1 ;;
  _updatePrice _marketId _optionId ;;
  p <- gets (fun e => Option.currentPrice (getOption e _marketId _optionId)) ;;
  modify (pushPricePoint _marketId _optionId
            (PricePoint.mk p (block_timestamp c) totalProceeds)) ;;
  addTo totalPlatformFeesCollected set_totalPlatformFeesCollected fee ;;
  addTo totalLockedPlatformFees set_totalLockedPlatformFees fee.

(** ** Market resolution *)

Definition resolveMarket (c : Ctx) (_marketId _winningOptionId : N) : M unit :=
  onlyRole c QUESTION_RESOLVE_ROLE ;;
  marketExists _marketId ;;
  marketEnded c _marketId ;;
  marketNotResolved _marketId ;;
  marketNotInvalidated _marketId ;;
  n <- gets (fun e => Market.optionCount (getMarket e _marketId)) ;;
  require (_winningOptionId <? n) "Invalid option" ;;
  d <- gets (fun e => Market.disputed (getMarket e _marketId)) ;;
  require (negb d) "Market disputed" ;;
  modify (updMarket _marketId (Market.set_resolved true)) ;;
  modify (updMarket _marketId (Market.set_winningOptionId _winningOptionId)) ;;
  feesToUnlock <- gets (fun e => Market.platformFeesCollected (getMarket e _marketId)) ;;
  subFrom totalLockedPlatformFees set_totalLockedPlatformFees feesToUnlock ;;
  addTo totalUnlockedPlatformFees set_totalUnlockedPlatformFees feesToUnlock.

Definition invalidateMarket (c : Ctx) (_marketId : N) : M unit :=
  onlyRole c MARKET_VALIDATOR_ROLE ;;
  marketExists _marketId ;;
  marketNotResolved _marketId ;;
  modify (updMarket _marketId (Market.set_invalidated true)) ;;
  feesToRefund <- gets (fun e => Market.platformFeesCollected (getMarket e _marketId)) ;;
  subFrom totalLockedPlatformFees set_totalLockedPlatformFees feesToRefund ;;
  subFrom totalPlatformFeesCollected set_totalPlatformFeesCollected feesToRefund.

Definition validateMarket (c : Ctx) (_marketId : N) : M unit :=
  onlyRole c MARKET_VALIDATOR_ROLE ;;
  marketExists _marketId ;;
  v <- gets (fun e => Market.validated (getMarket e _marketId)) ;;
  require (negb v) "Already validated" ;;
  modify (updMarket _marketId (Market.set_validated true)).

Definition disputeMarket (c : Ctx) (_marketId : N) (_reason : string) : M unit :=
  marketExists _marketId ;;
  marketNotResolved _marketId ;;
  s0 <- gets (fun e => getShares e (msg_sender c) _marketId 0) ;;
  s1 <- gets (fun e => getShares e (msg_sender c) _marketId 1) ;;
  require ((0 <? s0) || (0 <? s1)) "Must be participant" ;;
  modify (updMarket _marketId (Market.set_disputed true)).

(** ** Claiming *)

Definition claimWinnings (c : Ctx) (_marketId : N) : M unit :=
  let u := msg_sender c in
  marketExists _marketId ;;
  r <- gets (fun e => Market.resolved (getMarket e _marketId)) ;;
  require r "Market not resolved" ;;
  i <- gets (fun e => Market.invalidated (getMarket e _marketId)) ;;
  require (negb i) "Market invalidated" ;;
  k <- gets (fun e => getClaimedWinnings e _marketId u) ;;
  require (negb k) "Already claimed" ;;
  winningOptionId <- gets (fun e => Market.winningOptionId (getMarket e _marketId)) ;;
  userWinningShares <- gets (fun e => getShares e u _marketId winningOptionId) ;;
  require (0 <? userWinningShares) "No winning shares" ;;
  scaled <- lift (U256.mul userWinningShares PAYOUT_PER_SHARE) ;;
  payout <- lift (U256.div scaled E18) ;;
  modify (fun e => set_hasClaimedWinnings ({[ (_marketId, u) ]} ∪ hasClaimedWinnings e) e) ;;
  addTo (fun e => UserPortfolio.totalWinnings (getPortfolio e u))
        (fun v => updPortfolio u (UserPortfolio.set_totalWinnings v)) payout ;;
  marketToken <- gets (fun e => Market.bettingToken (getMarket e _marketId)) ;;
  token_transfer c marketToken u payout.

Definition claimFreeTokens (c : Ctx) (_marketId _optionId : N) : M unit :=
  let u := msg_sender c in
  marketExists _marketId ;;
  marketActive c _marketId ;;
  marketNotResolved _marketId ;;
  marketNotInvalidated _marketId ;;
  t <- gets (fun e => Market.marketType (getMarket e _marketId)) ;;
  require (bool_decide (t = FREE)) "Not a free market" ;;
  k <- gets (fun e => getClaimedFreeTokens e _marketId u) ;;
  require (negb k) "Already claimed" ;;
  n <- gets (fun e => Market.optionCount (getMarket e _marketId)) ;;
  require (_optionId <? n) "Invalid option" ;;
  a <- gets (fun e => FreeMarketConfig.isActive (getFreeConfig e _marketId)) ;;
  require a "Free market not active" ;;
  cur <- gets (fun e => FreeMarketConfig.currentFreeParticipants (getFreeConfig e _marketId)) ;;
  cap <- gets (fun e => FreeMarketConfig.maxFreeParticipants (getFreeConfig e _marketId)) ;;
  require (cur <? cap) "Max participants reached" ;;
  pool <- gets (fun e => FreeMarketConfig.remainingPrizePool (getFreeConfig e _marketId)) ;;
  grant <- gets (fun e => FreeMarketConfig.tokensPerParticipant (getFreeConfig e _marketId)) ;;
  require (grant <=? pool) "Insufficient prize pool" ;;
  modify (fun e => set_hasClaimedFreeTokens ({[ (_marketId, u) ]} ∪ hasClaimedFreeTokens e) e) ;;
  addTo (fun e => FreeMarketConfig.currentFreeParticipants (getFreeConfig e _marketId))
        (fun v => updFreeConfig _marketId (FreeMarketConfig.set_currentFreeParticipants v)) 1 ;;
  subFrom (fun e => FreeMarketConfig.remainingPrizePool (getFreeConfig e _marketId))
          (fun v => updFreeConfig _marketId (FreeMarketConfig.set_remainingPrizePool v)) grant ;;
  addTo (fun e => getShares e u _marketId _optionId)
        (setShares u _marketId _optionId) grant ;;
  addTo (fun e => Option.totalShares (getOption e _marketId _optionId))
        (fun v => updOption _marketId _optionId (Option.set_totalShares v)) grant.

(** ** Admin functions *)

Definition withdrawAdminLiquidity (c : Ctx) (_marketId : N) : M unit :=
  marketExists _marketId ;;
  cr <- gets (fun e => Market.creator (getMarket e _marketId)) ;;
  require (msg_sender c =? cr) "Not creator" ;;
  r <- gets (fun e => Market.resolved (getMarket e _marketId)) ;;
  i <- gets (fun e => Market.invalidated (getMarket e _marketId)) ;;
  require (r || i) "Market not finalized" ;;
  k <- gets (fun e => Market.adminLiquidityClaimed (getMarket e _marketId)) ;;
  require (negb k) "Already claimed" ;;
  modify (updMarket _marketId (Market.set_adminLiquidityClaimed true)) ;;
  amount <- gets (fun e => Market.adminInitialLiquidity (getMarket e _marketId)) ;;
  marketToken <- gets (fun e => Market.bettingToken (getMarket e _marketId)) ;;
  token_transfer c marketToken (msg_sender c) amount.

Definition feeRecipient (e : Engine) : address :=
  if negb (feeCollector e =? 0) then feeCollector e else owner e.

Definition withdrawPlatformFees (c : Ctx) : M unit :=
  onlyOwner c ;;
  unlocked <- gets totalUnlockedPlatformFees ;;
  withdrawn <- gets totalWithdrawnPlatformFees ;;
  amount <- lift (U256.sub unlocked withdrawn) ;;
  require (0 <? amount) "No fees to withdraw" ;;
  addTo totalWithdrawnPlatformFees set_totalWithdrawnPlatformFees amount ;;
  collector <- gets feeRecipient ;;
  token <- gets bettingToken ;;
  token_transfer c token collector amount.

Definition withdrawPlatformFeesForToken (c : Ctx) (_token : address) (_amount : N) : M unit :=
  onlyOwner c ;;
  w <- gets (fun e => isWhitelisted e _token) ;;
  require w "Token not whitelisted" ;;
  require (0 <? _amount) "Amount must be > 0" ;;
  collector <- gets feeRecipient ;;
  token_transfer c _token collector _amount.

Definition emergencyWithdraw (c : Ctx) (_amount : N) : M unit :=
  onlyOwner c ;;
  token <- gets bettingToken ;;
  o <- gets owner ;;
  token_transfer c token o _amount.

Definition emergencyWithdrawToken (c : Ctx) (_token : address) (_amount : N) : M unit :=
  onlyOwner c ;;
  o <- gets owner ;;
  token_transfer c _token o _amount.

(** ** Configuration *)

Definition setPlatformFeeRate (c : Ctx) (_feeRate : N) : M unit :=
  onlyOwner c ;;
  require (_feeRate <=? 100) "Fee rate too high" ;;
  modify (set_platformFeeRate _feeRate).

Definition setFeeCollector (c : Ctx) (_feeCollector : address) : M unit :=
  onlyOwner c ;;
  require (negb (_feeCollector =? 0)) "Invalid address" ;;
  modify (set_feeCollector _feeCollector).

Definition setFreeClaimHandler (c : Ctx) (_handler : address) : M unit :=
  onlyOwner c ;;
  modify (set_freeClaimHandler _handler).

Definition addWhitelistedToken (c : Ctx) (_token : address) : M unit :=
  onlyOwner c ;;
  require (negb (_token =? 0)) "Invalid token address" ;;
  w <- gets (fun e => isWhitelisted e _token) ;;
  require (negb w) "Token already whitelisted" ;;
  modify (fun e => set_whitelistedTokens ({[ _token ]} ∪ whitelistedTokens e) e) ;;
  modify (fun e => set_whitelistedTokenList (whitelistedTokenList e ++ [_token]) e).

(** The removal loop: the first entry equal to [_token] is overwritten by
    the last entry, the last entry is popped, and the loop stops. *)
Fixpoint swapAndPop (_token : address) (l : list address) : list address :=
  match l with
  | [] => []
  | x :: rest =>
      if x =? _token then
        match rest with
        | [] => []
        | _ => List.last rest x :: List.removelast rest
        end
      else x :: swapAndPop _token rest
  end.

Definition removeWhitelistedToken (c : Ctx) (_token : address) : M unit :=
  onlyOwner c ;;
  w <- gets (fun e => isWhitelisted e _token) ;;
  require w "Token not whitelisted" ;;
  modify (fun e => set_whitelistedTokens (whitelistedTokens e ∖ {[ _token ]}) e) ;;
  modify (fun e => set_whitelistedTokenList (swapAndPop _token (whitelistedTokenList e)) e).

Definition pause (c : Ctx) : M unit :=
  onlyOwner c ;; whenNotPaused ;; modify (set_paused true).

Definition unpause (c : Ctx) : M unit :=
  onlyOwner c ;; whenPaused ;; modify (set_paused false).

(** ** Role management *)

(** Modelled from the spec: the role/capability collaborator (the inherited
    AccessControl and Ownable, absent from the sources).  Every role is
    administered by [DEFAULT_ADMIN_ROLE]. *)
Definition grantRole (c : Ctx) (r : Role) (_account : address) : M unit :=
  onlyRole c DEFAULT_ADMIN_ROLE ;;
  modify (fun e => set_roles ({[ (r, _account) ]} ∪ roles e) e).

(** Modelled from the spec: the role/capability collaborator, revocation. *)
Definition revokeRole (c : Ctx) (r : Role) (_account : address) : M unit :=
  onlyRole c DEFAULT_ADMIN_ROLE ;;
  modify (fun e => set_roles (roles e ∖ {[ (r, _account) ]}) e).

(** Modelled from the spec: the role/capability collaborator, a holder
    giving up its own role. *)
Definition renounceRole (c : Ctx) (r : Role) (callerConfirmation : address) : M unit :=
  guard (callerConfirmation =? msg_sender c) AccessControlBadConfirmation ;;
  modify (fun e => set_roles (roles e ∖ {[ (r, msg_sender c) ]}) e).

(** Modelled from the spec: the role/capability collaborator, change of the
    operator identity. *)
Definition transferOwnership (c : Ctx) (newOwner : address) : M unit :=
  onlyOwner c ;;
  guard (negb (newOwner =? 0)) OwnableInvalidOwner ;;
  modify (set_owner newOwner).

(** Modelled from the spec: the role/capability collaborator, the operator
    giving up its identity. *)
Definition renounceOwnership (c : Ctx) : M unit :=
  onlyOwner c ;;
  modify (set_owner 0).

Definition grantQuestionCreatorRole (c : Ctx) (_account : address) : M unit :=
  onlyRole c DEFAULT_ADMIN_ROLE ;; grantRole c QUESTION_CREATOR_ROLE _account.

Definition grantQuestionResolveRole (c : Ctx) (_account : address) : M unit :=
  onlyRole c DEFAULT_ADMIN_ROLE ;; grantRole c QUESTION_RESOLVE_ROLE _account.

Definition grantMarketValidatorRole (c : Ctx) (_account : address) : M unit :=
  onlyRole c DEFAULT_ADMIN_ROLE ;; grantRole c MARKET_VALIDATOR_ROLE _account.

(** ** View functions *)

Definition getMarketBasicInfo (e : Engine) (_marketId : N)
  : result (string * string * N * MarketCategory * N * bool * MarketType * bool * N) :=
  if negb (_marketId <? marketCount e) then Err (Revert "Market does not exist")
  else
    let market := getMarket e _marketId in
    Ok (Market.question market, Market.description market, Market.endTime market,
        Market.category market, Market.optionCount market, Market.resolved market,
        Market.marketType market, Market.invalidated market, Market.totalVolume market).

Definition getMarketExtendedMeta (e : Engine) (_marketId : N)
  : result (N * bool * bool * address * bool) :=
  if negb (_marketId <? marketCount e) then Err (Revert "Market does not exist")
  else
    let market := getMarket e _marketId in
    Ok (Market.winningOptionId market, Market.disputed market, Market.validated market,
        Market.creator market, Market.earlyResolutionAllowed market).

Definition getMarketOptionUserShares (e : Engine) (_marketId _optionId : N)
  (_user : address) : N :=
  getShares e _user _marketId _optionId.

Definition getUserClaimStatus (e : Engine) (_marketId : N) (_user : address)
  : bool * bool :=
  (getClaimedWinnings e _marketId _user, getClaimedFreeTokens e _marketId _user).

(** ** Calls *)

Inductive Op : Type :=
| CreateMarketWithToken (_question _description : string)
    (_optionNames _optionDescriptions : list string) (_duration : N)
    (_category : MarketCategory) (_marketType : MarketType) (_initialLiquidity : N)
    (_earlyResolutionAllowed : bool) (_freeParams : FreeMarketParams.t)
    (_bettingToken : address)
| BuyShares (_marketId _optionId _quantity _maxPricePerShare _maxTotalCost : N)
| SellShares (_marketId _optionId _quantity _minPricePerShare _minTotalProceeds : N)
| ResolveMarket (_marketId _winningOptionId : N)
| InvalidateMarket (_marketId : N)
| ValidateMarket (_marketId : N)
| DisputeMarket (_marketId : N) (_reason : string)
| ClaimWinnings (_marketId : N)
| ClaimFreeTokens (_marketId _optionId : N)
| WithdrawAdminLiquidity (_marketId : N)
| WithdrawPlatformFees
| WithdrawPlatformFeesForToken (_token : address) (_amount : N)
| EmergencyWithdraw (_amount : N)
| EmergencyWithdrawToken (_token : address) (_amount : N)
| SetPlatformFeeRate (_feeRate : N)
| SetFeeCollector (_feeCollector : address)
| SetFreeClaimHandler (_handler : address)
| AddWhitelistedToken (_token : address)
| RemoveWhitelistedToken (_token : address)
| Pause
| Unpause
| GrantQuestionCreatorRole (_account : address)
| GrantQuestionResolveRole (_account : address)
| GrantMarketValidatorRole (_account : address)
| GrantRole (r : Role) (_account : address)
| RevokeRole (r : Role) (_account : address)
| RenounceRole (r : Role) (callerConfirmation : address)
| TransferOwnership (newOwner : address)
| RenounceOwnership
| UpdateLMSRPrices (marketId : N)
| UpdateMaxOptionShares (marketId optionId : N)
| UpdateOptionShares (marketId optionId quantity : N)
| UpdateUserShares (user : address) (marketId optionId quantity : N).

Definition exec (c : Ctx) (o : Op) : M unit :=
  match o with
  | CreateMarketWithToken q d ns ds dur cat ty liq early fp tok =>
      _ <- createMarketWithToken c q d ns ds dur cat ty liq early fp tok ;; ret tt
  | BuyShares m o q p t => buyShares c m o q p t
  | SellShares m o q p t => sellShares c m o q p t
  | ResolveMarket m w => resolveMarket c m w
  | InvalidateMarket m => invalidateMarket c m
  | ValidateMarket m => validateMarket c m
  | DisputeMarket m r => disputeMarket c m r
  | ClaimWinnings m => claimWinnings c m
  | ClaimFreeTokens m o => claimFreeTokens c m o
  | WithdrawAdminLiquidity m => withdrawAdminLiquidity c m
  | WithdrawPlatformFees => withdrawPlatformFees c
  | WithdrawPlatformFeesForToken t a => withdrawPlatformFeesForToken c t a
  | EmergencyWithdraw a => emergencyWithdraw c a
  | EmergencyWithdrawToken t a => emergencyWithdrawToken c t a
  | SetPlatformFeeRate r => setPlatformFeeRate c r
  | SetFeeCollector a => setFeeCollector c a
  | SetFreeClaimHandler a => setFreeClaimHandler c a
  | AddWhitelistedToken t => addWhitelistedToken c t
  | RemoveWhitelistedToken t => removeWhitelistedToken c t
  | Pause => pause c
  | Unpause => unpause c
  | GrantQuestionCreatorRole a => grantQuestionCreatorRole c a
  | GrantQuestionResolveRole a => grantQuestionResolveRole c a
  | GrantMarketValidatorRole a => grantMarketValidatorRole c a
  | GrantRole r a => grantRole c r a
  | RevokeRole r a => revokeRole c r a
  | RenounceRole r a => renounceRole c r a
  | TransferOwnership a => transferOwnership c a
  | RenounceOwnership => renounceOwnership c
  | UpdateLMSRPrices _ => ret tt
  | UpdateMaxOptionShares _ _ => ret tt
  | UpdateOptionShares _ _ _ => ret tt
  | UpdateUserShares _ _ _ _ => ret tt
  end.

(** ** Worlds and call sequences

    A world is the engine's storage, its own address and the ledger.  A call
    names its sender, the block timestamp and the operation.  A call that
    reverts changes nothing. *)

Record World : Type := mkWorld {
  w_this : address;
  w_eng : Engine;
  w_led : Ledger
}.

Record Call : Type := mkCall {
  c_sender : address;
  c_now : N;
  c_op : Op
}.

Definition step (cl : Call) (w : World) : result (World * list ExtCall) :=
  match exec (mkCtx (c_sender cl) (c_now cl) (w_this w)) (c_op cl)
          (mkSt (w_eng w) (w_led w) []) with
  | Ok (_, st) => Ok (mkWorld (w_this w) (eng st) (led st), calls st)
  | Err e => Err e
  end.

Definition apply (cl : Call) (w : World) : World :=
  match step cl w with
  | Ok (w', _) => w'
  | Err _ => w
  end.

Definition run (cls : list Call) (w : World) : World :=
  fold_left (fun w cl => apply cl w) cls w.

(** The world right after deployment by [deployer]. *)
Definition deploy (self deployer _bettingToken : address) (l : Ledger) : result World :=
  let* e := constructor deployer _bettingToken in
  Ok (mkWorld self e l).

(** * Observations

    The quantities the properties below are stated with. *)

(** Worlds the deployed engine can be in: the world right after deployment,
    and every world a call leads to from such a world. *)
Inductive reachable : World -> Prop :=
| reachable_deploy self deployer token l w :
    deploy self deployer token l = Ok w -> reachable w
| reachable_step cl w :
    reachable w -> reachable (apply cl w).

Definition feeTotals (w : World) : N * N * N :=
  (totalPlatformFeesCollected (w_eng w), totalLockedPlatformFees (w_eng w),
   totalUnlockedPlatformFees (w_eng w)).

(** The fee ledger's partition. *)
Definition feePartition (e : Engine) : Prop :=
  totalPlatformFeesCollected e = totalLockedPlatformFees e + totalUnlockedPlatformFees e.

(** Every market never created is absent from storage. *)
Definition marketsBelowCount (e : Engine) : Prop :=
  forall m, marketCount e <= m -> markets e !! m = None.

(** How the pair (resolved, invalidated) of one market may move in one call:
    it stays, or an open market is resolved, or an unresolved market is
    invalidated. *)
Definition flagStep (r i r' i' : bool) : Prop :=
  (r' = r /\ i' = i) \/
  (r = false /\ i = false /\ r' = true /\ i' = false) \/
  (r = false /\ r' = false /\ i' = true).

Definition isResolved (w : World) (m : N) : bool := Market.resolved (getMarket (w_eng w) m).
Definition isInvalidated (w : World) (m : N) : bool := Market.invalidated (getMarket (w_eng w) m).

(** The token calls a call makes (none when it reverts). *)
Definition stepCalls (cl : Call) (w : World) : list ExtCall :=
  match step cl w with
  | Ok (_, l) => l
  | Err _ => []
  end.

Definition sumAmounts (l : list ExtCall) : N :=
  fold_right (fun x acc => xc_amount x + acc) 0 l.

(** A quantity summed over a sequence of calls, each evaluated in the world
    in which the call is made. *)
Fixpoint accumulate (f : Call -> World -> Z) (cs : list Call) (w : World) : Z :=
  match cs with
  | [] => 0
  | cl :: rest => f cl w + accumulate f rest (apply cl w)
  end%Z.

Definition isClaimBy (m : N) (u : address) (cl : Call) : bool :=
  match c_op cl with
  | ClaimWinnings m' => (m' =? m) && (c_sender cl =? u)
  | _ => false
  end.

(** Tokens paid to [u] by its claimWinnings calls on market [m]. *)
Definition claimPayment (m : N) (u : address) (cl : Call) (w : World) : Z :=
  if isClaimBy m u cl then Z.of_N (sumAmounts (stepCalls cl w)) else 0%Z.

Definition winningsPaidTo (m : N) (u : address) : list Call -> World -> Z :=
  accumulate (claimPayment m u).

Definition winningShares (w : World) (u : address) (m : N) : N :=
  getShares (w_eng w) u m (Market.winningOptionId (getMarket (w_eng w) m)).

Definition hasClaimed (w : World) (m : N) (u : address) : bool :=
  getClaimedWinnings (w_eng w) m u.

(** A market resolved, not invalidated, and already claimed by [u]. *)
Definition settled (w : World) (m : N) (u : address) : Prop :=
  m < marketCount (w_eng w) /\ isResolved w m = true /\
  isInvalidated w m = false /\ hasClaimed w m u = true.

(** Tokens entering ([xc_to] is the engine) minus tokens leaving ([xc_from]
    is the engine) the engine's custody through a list of token calls. *)
Definition inflow (self : address) (x : ExtCall) : Z :=
  ((if (xc_to x =? self)%N then Z.of_N (xc_amount x) else 0)
   - (if (xc_from x =? self)%N then Z.of_N (xc_amount x) else 0))%Z.

Definition netInflow (self : address) (l : list ExtCall) : Z :=
  fold_right (fun x acc => inflow self x + acc)%Z 0%Z l.

Definition opClaimsWinnings (o : Op) (m : N) : bool :=
  match o with
  | ClaimWinnings m' => m' =? m
  | _ => false
  end.

Definition opWithdrawsAdminLiquidity (o : Op) (m : N) : bool :=
  match o with
  | WithdrawAdminLiquidity m' => m' =? m
  | _ => false
  end.

(** Fee withdrawals are made per token, not per market; a withdrawal counts
    for market [m] when it is made in the market's betting token. *)
Definition opWithdrawsFees (o : Op) (e : Engine) (m : N) : bool :=
  match o with
  | WithdrawPlatformFees => bettingToken e =? Market.bettingToken (getMarket e m)
  | WithdrawPlatformFeesForToken t _ => t =? Market.bettingToken (getMarket e m)
  | _ => false
  end.

Definition winningsFlow (m : N) (cl : Call) (w : World) : Z :=
  if opClaimsWinnings (c_op cl) m then Z.of_N (sumAmounts (stepCalls cl w)) else 0%Z.

Definition adminLiquidityFlow (m : N) (cl : Call) (w : World) : Z :=
  if opWithdrawsAdminLiquidity (c_op cl) m then Z.of_N (sumAmounts (stepCalls cl w))
  else 0%Z.

Definition feeWithdrawalFlow (m : N) (cl : Call) (w : World) : Z :=
  if opWithdrawsFees (c_op cl) (w_eng w) m then (- netInflow (w_this w) (stepCalls cl w))%Z
  else 0%Z.

(** Winnings paid and admin liquidity withdrawn for market [m], and fees
    withdrawn in its betting token, over the calls [cs] made from [w]. *)
Definition winningsPaid (m : N) : list Call -> World -> Z :=
  accumulate (winningsFlow m).
Definition adminLiquidityWithdrawn (m : N) : list Call -> World -> Z :=
  accumulate (adminLiquidityFlow m).
Definition feesWithdrawn (m : N) : list Call -> World -> Z :=
  accumulate (feeWithdrawalFlow m).

(** The balance the conservation property of the specification predicts. *)
Definition specifiedBalance (m : N) (cs : list Call) (w : World) : Z :=
  let mk := getMarket (w_eng (run cs w)) m in
  (Z.of_N (Market.adminInitialLiquidity mk) + Z.of_N (Market.userLiquidity mk)
   - feesWithdrawn m cs w - winningsPaid m cs w - adminLiquidityWithdrawn m cs w)%Z.

(** The market's own books: initial liquidity, plus buy costs
    ([userLiquidity]), plus fees accrued, minus gross sell proceeds
    ([totalVolume - userLiquidity]). *)
Definition marketBook (e : Engine) (m : N) : Z :=
  let mk := getMarket e m in
  (Z.of_N (Market.adminInitialLiquidity mk) + Z.of_N (Market.userLiquidity mk)
   + Z.of_N (Market.platformFeesCollected mk)
   - (Z.of_N (Market.totalVolume mk) - Z.of_N (Market.userLiquidity mk)))%Z.

(** The calls made to one token. *)
Definition tokenCalls (token : address) (l : list ExtCall) : list ExtCall :=
  filter (fun x => xc_token x = token) l.

(** The engine's balance of token [t] on the ledger: the ledger keeps one
    balance per token and holder, none per market. *)
Definition custody (w : World) (t : address) : Z :=
  Z.of_N (balanceOf (w_led w) t (w_this w)).

(** The book of market [m] if its betting token is [t], and the books of
    all the markets created so far whose betting token is [t], summed. *)
Definition bookIn (e : Engine) (t : address) (m : N) : Z :=
  if decide (Market.bettingToken (getMarket e m) = t) then marketBook e m else 0%Z.

Definition tokenBook (e : Engine) (t : address) : Z :=
  fold_right (fun m acc => (bookIn e t m + acc)%Z) 0%Z (loopIndices (marketCount e)).

(** Tokens of [t] that left the engine's custody through the token calls
    [l] (a transfer of the engine to itself leaves nothing). *)
Definition tokensOut (self t : address) (l : list ExtCall) : Z :=
  (- netInflow self (tokenCalls t l))%Z.

(** The four kinds of call that pay out of custody. *)
Definition isClaimWinnings (o : Op) : bool :=
  match o with ClaimWinnings _ => true | _ => false end.
Definition isWithdrawAdminLiquidity (o : Op) : bool :=
  match o with WithdrawAdminLiquidity _ => true | _ => false end.
Definition isFeeWithdrawal (o : Op) : bool :=
  match o with
  | WithdrawPlatformFees | WithdrawPlatformFeesForToken _ _ => true
  | _ => false
  end.
Definition isEmergencyWithdrawal (o : Op) : bool :=
  match o with
  | EmergencyWithdraw _ | EmergencyWithdrawToken _ _ => true
  | _ => false
  end.

Definition outflowOf (kind : Op -> bool) (t : address) (cl : Call) (w : World) : Z :=
  if kind (c_op cl) then tokensOut (w_this w) t (stepCalls cl w) else 0%Z.

(** Tokens of [t] paid as winnings, withdrawn as admin liquidity, withdrawn
    as platform fees and taken by emergency withdrawals over the calls [cs]
    made from [w]. *)
Definition winningsPaidIn (t : address) : list Call -> World -> Z :=
  accumulate (outflowOf isClaimWinnings t).
Definition adminLiquidityWithdrawnIn (t : address) : list Call -> World -> Z :=
  accumulate (outflowOf isWithdrawAdminLiquidity t).
Definition feesWithdrawnIn (t : address) : list Call -> World -> Z :=
  accumulate (outflowOf isFeeWithdrawal t).
Definition emergencyWithdrawnIn (t : address) : list Call -> World -> Z :=
  accumulate (outflowOf isEmergencyWithdrawal t).

(** The engine's balance of [t] as its books have it: the balance at
    deployment, plus the books of the markets in [t], minus what was paid
    out of custody in [t]. *)
Definition bookedCustody (t : address) (cs : list Call) (w : World) : Z :=
  (custody w t + tokenBook (w_eng (run cs w)) t
   - winningsPaidIn t cs w - adminLiquidityWithdrawnIn t cs w
   - feesWithdrawnIn t cs w - emergencyWithdrawnIn t cs w)%Z.

(** The market whose books a call moves: the market bought or sold in, or
    the market a creation makes. *)
Definition bookTarget (o : Op) (e : Engine) : option N :=
  match o with
  | CreateMarketWithToken _ _ _ _ _ _ _ _ _ _ _ => Some (marketCount e)
  | BuyShares m _ _ _ _ | SellShares m _ _ _ _ => Some m
  | _ => None
  end.

Definition paysOut (o : Op) : bool :=
  isClaimWinnings o || isWithdrawAdminLiquidity o || isFeeWithdrawal o
  || isEmergencyWithdrawal o.

(** Storage with the earlyResolutionAllowed flag of every market cleared:
    two engines with the same image differ in those flags at most. *)
Definition eraseEarly (e : Engine) : Engine :=
  set_markets (Market.set_earlyResolutionAllowed false <$> markets e) e.

Definition eraseCall (x : ExtCall) : ExtCall :=
  mkExtCall (xc_token x) (xc_from x) (xc_to x) (xc_amount x) (eraseEarly (xc_storage x)).

Definition eraseSt (st : St) : St :=
  mkSt (eraseEarly (eng st)) (led st) (map eraseCall (calls st)).

Definition eraseWorld (w : World) : World :=
  mkWorld (w_this w) (eraseEarly (w_eng w)) (w_led w).

(** [p] never reads the flag: run from two states that differ in the flags
    only, it fails with the same error, or returns the same value in states
    that again differ in the flags only. *)
Definition respects {A} (p : M A) : Prop :=
  forall st1 st2, eraseSt st1 = eraseSt st2 ->
    match p st1, p st2 with
    | Ok (a1, s1), Ok (a2, s2) => a1 = a2 /\ eraseSt s1 = eraseSt s2
    | Err e1, Err e2 => e1 = e2
    | _, _ => False
    end.

(** * Scenarios

    One deployment and a few calls: an operator, two traders with funded
    and approved accounts, a two-option market (scenario A of the
    specification) and a three-option market. *)

Module Scenario.
Definition self : address := 999.
Definition operator : address := 100.
Definition alice : address := 200.
Definition bob : address := 300.
Definition token : address := 7.

Definition ledger0 : Ledger :=
  mkLedger
    (<[(token, operator) := 10000]>
       (<[(token, alice) := 10000]> (<[(token, bob) := 10000]> ∅)))
    (<[(token, operator, self) := 10000]>
       (<[(token, alice, self) := 10000]> (<[(token, bob, self) := 10000]> ∅))).

Definition world0 : World :=
  match deploy self operator token ledger0 with
  | Ok w => w
  | Err _ => mkWorld self emptyEngine ledger0
  end.

Definition createBinary (early : bool) : Call :=
  mkCall operator 1000
    (CreateMarketWithToken "Will it rain?" "Scenario A" ["Yes"; "No"] ["rain"; "dry"]
       86400 OTHER STANDARD 1000 early (FreeMarketParams.mk 0 0) token).

Definition createTernary : Call :=
  mkCall operator 1000
    (CreateMarketWithToken "Who wins?" "Three outcomes" ["A"; "B"; "C"] ["a"; "b"; "c"]
       86400 SPORTS STANDARD 900 false (FreeMarketParams.mk 0 0) token).

Definition buyYes : Call := mkCall alice 2000 (BuyShares 0 0 100 E18 1000).
Definition sellYes : Call := mkCall alice 3000 (SellShares 0 0 50 0 0).
Definition sellTooMany : Call := mkCall alice 3000 (SellShares 0 0 200 0 0).
Definition resolveYes : Call := mkCall operator 90000 (ResolveMarket 0 0).
Definition resolveEarly : Call := mkCall operator 5000 (ResolveMarket 0 0).
Definition invalidate : Call := mkCall operator 4000 (InvalidateMarket 0).
Definition claimYes : Call := mkCall alice 90001 (ClaimWinnings 0).
Definition buyC : Call := mkCall bob 2000 (BuyShares 0 2 100 E18 1000).
Definition disputeC : Call := mkCall bob 2500 (DisputeMarket 0 "wrong outcome").

Definition created : World := run [createBinary true] world0.
Definition bought : World := run [createBinary true; buyYes] world0.
Definition resolved : World := run [createBinary true; buyYes; resolveYes] world0.
Definition ternaryBought : World := run [createTernary; buyC] world0.
Definition createdNoEarly : World := run [createBinary false] world0.

(** A second market, traded by bob, next to the first. *)
Definition createSecond : Call :=
  mkCall operator 1001
    (CreateMarketWithToken "Will it snow?" "Second market" ["Yes"; "No"]
       ["snow"; "none"] 86400 OTHER STANDARD 1000 false (FreeMarketParams.mk 0 0) token).
Definition buySecond : Call := mkCall bob 2000 (BuyShares 1 0 100 E18 1000).
Definition resolveSecond : Call := mkCall operator 90000 (ResolveMarket 1 0).
Definition twoMarkets : World :=
  run [createBinary true; createSecond; buyYes; buySecond] world0.

(** Both markets through their life: trades, the resolution of the first,
    a claim, and the three kinds of withdrawal by the operator. *)
Definition withdrawLiquidity : Call := mkCall operator 90002 (WithdrawAdminLiquidity 0).
Definition withdrawFeesToken : Call :=
  mkCall operator 90003 (WithdrawPlatformFeesForToken token 1).
Definition emergencyToken : Call :=
  mkCall operator 90004 (EmergencyWithdrawToken token 5).
Definition lifecycle : list Call :=
  [createBinary true; createSecond; buyYes; buySecond; sellYes; resolveYes; claimYes;
   withdrawLiquidity; withdrawFeesToken; emergencyToken].

(** The sell of 50 shares by alice, as a run of [sellShares]. *)
Definition sellCtx : Ctx := mkCtx alice 3000 self.
Definition beforeSell : St := mkSt (w_eng bought) (w_led bought) [].
Definition afterSell : St :=
  match sellShares sellCtx 0 0 50 0 0 beforeSell with
  | Ok (_, st) => st
  | Err _ => beforeSell
  end.
End Scenario.

(** * Further observations *)

(** Facts about the engine-wide settings that every call keeps: the fee
    rate is at most 10%, the deprecated [bettingToken] slot is never
    written, nothing is ever recorded as withdrawn by withdrawPlatformFees,
    the zero address is not whitelisted and no market uses it as its
    token. *)
Definition configSound (e : Engine) : Prop :=
  platformFeeRate e <= 100 /\
  bettingToken e = 0 /\
  totalWithdrawnPlatformFees e = 0 /\
  isWhitelisted e 0 = false /\
  (forall m, m < marketCount e -> Market.bettingToken (getMarket e m) <> 0).

(** The settings only the owner may change. *)
Definition settings (e : Engine)
  : N * address * address * gset address * list address * bool * address :=
  (platformFeeRate e, feeCollector e, freeClaimHandler e, whitelistedTokens e,
   whitelistedTokenList e, paused e, owner e).

(** A token call that takes tokens out of the engine's custody. *)
Definition outgoing (self : address) (x : ExtCall) : Prop := xc_from x = self.

(** The value [_calculateLMSRB] clamps into [MIN_LMSR_B, MAX_LMSR_B]. *)
Definition clampB (x : N) : N := N.min MAX_LMSR_B (N.max MIN_LMSR_B x).

(** The terms of a market and of an option fixed at creation. *)
Definition marketTerms (mk : Market.t)
  : string * string * N * N * MarketCategory * MarketType * address * N * N * N * bool
    * address :=
  (Market.question mk, Market.description mk, Market.endTime mk, Market.createdAt mk,
   Market.category mk, Market.marketType mk, Market.creator mk, Market.optionCount mk,
   Market.lmsrB mk, Market.adminInitialLiquidity mk, Market.earlyResolutionAllowed mk,
   Market.bettingToken mk).

Definition optionTerms (op : Option.t) : string * string * bool :=
  (Option.name op, Option.description op, Option.isActive op).

(** A market as creation leaves its fixed terms. *)
Definition marketWellFormed (e : Engine) (m : N) : Prop :=
  let mk := getMarket e m in
  2 <= Market.optionCount mk /\
  0 < Market.adminInitialLiquidity mk /\
  Market.createdAt mk + MIN_MARKET_DURATION <= Market.endTime mk /\
  Market.endTime mk <= Market.createdAt mk + MAX_MARKET_DURATION /\
  Market.lmsrB mk
    = clampB (Market.adminInitialLiquidity mk / Market.optionCount mk) /\
  (forall i, i < Market.optionCount mk -> Option.isActive (getOption e m i) = true).

Definition marketsWellFormed (e : Engine) : Prop :=
  forall m, m < marketCount e -> marketWellFormed e m.

(** The one-way flags of a market and of a free-token claimant. *)
Definition isDisputed (w : World) (m : N) : bool :=
  Market.disputed (getMarket (w_eng w) m).
Definition isValidated (w : World) (m : N) : bool :=
  Market.validated (getMarket (w_eng w) m).
Definition liquidityClaimed (w : World) (m : N) : bool :=
  Market.adminLiquidityClaimed (getMarket (w_eng w) m).
Definition freeClaimed (w : World) (m : N) (u : address) : bool :=
  getClaimedFreeTokens (w_eng w) m u.

(** A market blocked by a dispute: disputed and not resolved. *)
Definition blocked (e : Engine) (m : N) : Prop :=
  m < marketCount e /\ Market.disputed (getMarket e m) = true /\
  Market.resolved (getMarket e m) = false.

(** The books of a free market's prize pool: what is left plus what was
    granted is the pool, the pool is one grant per admitted participant, and
    no more participants were admitted than allowed. *)
Definition freePoolSound (e : Engine) : Prop :=
  forall m,
    let f := getFreeConfig e m in
    FreeMarketConfig.remainingPrizePool f
      + FreeMarketConfig.currentFreeParticipants f * FreeMarketConfig.tokensPerParticipant f
      = FreeMarketConfig.totalPrizePool f /\
    FreeMarketConfig.totalPrizePool f
      = FreeMarketConfig.maxFreeParticipants f * FreeMarketConfig.tokensPerParticipant f /\
    FreeMarketConfig.currentFreeParticipants f <= FreeMarketConfig.maxFreeParticipants f.

(** The two whitelist views. *)
Definition getWhitelistedTokens (e : Engine) : list address := whitelistedTokenList e.
Definition isTokenWhitelisted (e : Engine) (_token : address) : bool :=
  isWhitelisted e _token.

(** The whitelist array lists each whitelisted token once and nothing
    else. *)
Definition whitelistSound (e : Engine) : Prop :=
  NoDup (whitelistedTokenList e) /\
  forall t, t ∈ whitelistedTokenList e <-> t ∈ whitelistedTokens e.

(** Further scenarios: calls and worlds used by the witnesses below. *)
Module Demo.
Definition pauseCall : Call := mkCall Scenario.operator 2500 Pause.
Definition pausedWorld : World :=
run [Scenario.createBinary true; Scenario.buyYes; pauseCall] Scenario.world0.

Definition disputeA : Call := mkCall Scenario.alice 2500 (DisputeMarket 0 "wrong source").
Definition disputedWorld : World :=
run [Scenario.createBinary true; Scenario.buyYes; disputeA] Scenario.world0.
Definition withdrawLiquidity : Call :=
mkCall Scenario.operator 90002 (WithdrawAdminLiquidity 0).

Definition createFree : Call :=
mkCall Scenario.operator 1000
  (CreateMarketWithToken "Free entry?" "A free market" ["Yes"; "No"] ["yes"; "no"]
     86400 OTHER FREE 1000 false (FreeMarketParams.mk 2 10) Scenario.token).
Definition claimFreeA : Call := mkCall Scenario.alice 2000 (ClaimFreeTokens 0 1).
Definition freeWorld : World := run [createFree] Scenario.world0.

Definition takeAsFees : Call :=
mkCall Scenario.operator 2500 (WithdrawPlatformFeesForToken Scenario.token 500).
Definition invalidatedWorld : World :=
run [Scenario.createBinary true; Scenario.buyYes; Scenario.invalidate] Scenario.world0.

Definition whitelistCalls : list Call :=
[mkCall Scenario.operator 10 (AddWhitelistedToken 8);
 mkCall Scenario.operator 11 (AddWhitelistedToken 9);
 mkCall Scenario.operator 12 (RemoveWhitelistedToken Scenario.token)].
Definition rewhitelisted : World := run whitelistCalls Scenario.world0.

Definition buyOne : Call := mkCall Scenario.alice 2000 (BuyShares 0 0 1 E18 1000).
Definition buyEven : Call := mkCall Scenario.bob 2100 (BuyShares 0 1 40 E18 1000).
End Demo.

(** * Proofs *)

(** ** Inversion of successful runs *)

Section Inversion.
Context {A B : Type}.

Lemma bind_ok (m : M A) (f : A -> M B) st r :
  bind m f st = Ok r -> exists a st', m st = Ok (a, st') /\ f a st' = Ok r.
Proof.
  unfold bind. destruct (m st) as [[a st']|e]; [eauto | discriminate].
Qed.

Lemma ret_ok (a : A) st r : ret a st = Ok r -> r = (a, st).
Proof. unfold ret. congruence. Qed.

Lemma gets_ok (f : Engine -> A) st r : gets f st = Ok r -> r = (f (eng st), st).
Proof. unfold gets. congruence. Qed.

Lemma lift_ok (x : result A) st r : lift x st = Ok r -> exists a, x = Ok a /\ r = (a, st).
Proof. unfold lift. destruct x; [|discriminate]. intros [= <-]. eauto. Qed.

Lemma view_ok (f : Engine -> result A) st r :
  view f st = Ok r -> exists a, f (eng st) = Ok a /\ r = (a, st).
Proof. unfold view. destruct (f (eng st)); [|discriminate]. intros [= <-]. eauto. Qed.
End Inversion.

Lemma modify_ok f st r :
  modify f st = Ok r -> r = (tt, mkSt (f (eng st)) (led st) (calls st)).
Proof. unfold modify. congruence. Qed.

Lemma require_ok b msg st r : require b msg st = Ok r -> b = true /\ r = (tt, st).
Proof. unfold require. destruct b; [|discriminate]. unfold ret. intros [= <-]. auto. Qed.

Lemma guard_ok b e st r : guard b e st = Ok r -> b = true /\ r = (tt, st).
Proof. unfold guard. destruct b; [|discriminate]. unfold ret. intros [= <-]. auto. Qed.

Lemma token_transfer_ok c token to amount st r :
  token_transfer c token to amount st = Ok r ->
  exists l', ledger_transfer token (this c) to amount (led st) = Ok l' /\
    r = (tt, mkSt (eng st) l' (calls st ++ [mkExtCall token (this c) to amount (eng st)])).
Proof.
  unfold token_transfer. destruct ledger_transfer; [|discriminate].
  intros [= <-]. eauto.
Qed.

Lemma token_transferFrom_ok c token from to amount st r :
  token_transferFrom c token from to amount st = Ok r ->
  exists l', ledger_transferFrom token (this c) from to amount (led st) = Ok l' /\
    r = (tt, mkSt (eng st) l' (calls st ++ [mkExtCall token from to amount (eng st)])).
Proof.
  unfold token_transferFrom. destruct ledger_transferFrom; [|discriminate].
  intros [= <-]. eauto.
Qed.

Lemma addTo_ok get set v st r :
  addTo get set v st = Ok r ->
  get (eng st) + v <= MAX_UINT256 /\
  r = (tt, mkSt (set (get (eng st) + v) (eng st)) (led st) (calls st)).
Proof.
  unfold addTo, bind, gets, lift, modify, U256.add.
  destruct (N.leb_spec (get (eng st) + v) MAX_UINT256); [|discriminate].
  intros [= <-]. auto.
Qed.

Lemma subFrom_ok get set v st r :
  subFrom get set v st = Ok r ->
  v <= get (eng st) /\
  r = (tt, mkSt (set (get (eng st) - v) (eng st)) (led st) (calls st)).
Proof.
  unfold subFrom, bind, gets, lift, modify, U256.sub.
  destruct (N.leb_spec v (get (eng st))); [|discriminate].
  intros [= <-]. auto.
Qed.

Lemma u256_add_ok a b r : U256.add a b = Ok r -> r = a + b /\ a + b <= MAX_UINT256.
Proof.
  unfold U256.add. destruct (N.leb_spec (a + b) MAX_UINT256); [|discriminate].
  intros [= <-]. auto.
Qed.

Lemma u256_sub_ok a b r : U256.sub a b = Ok r -> r = a - b /\ b <= a.
Proof.
  unfold U256.sub. destruct (N.leb_spec b a); [|discriminate].
  intros [= <-]. auto.
Qed.

Lemma u256_mul_ok a b r : U256.mul a b = Ok r -> r = a * b /\ a * b <= MAX_UINT256.
Proof.
  unfold U256.mul. destruct (N.leb_spec (a * b) MAX_UINT256); [|discriminate].
  intros [= <-]. auto.
Qed.

Lemma u256_div_ok a b r : U256.div a b = Ok r -> r = a / b /\ b <> 0.
Proof.
  unfold U256.div. destruct (N.eqb_spec b 0); [discriminate|].
  intros [= <-]. auto.
Qed.

Lemma i256_add_ok a b r : I256.add a b = Ok r -> r = (a + b)%Z.
Proof. unfold I256.add. destruct I256.in_range; congruence. Qed.

Lemma i256_sub_ok a b r : I256.sub a b = Ok r -> r = (a - b)%Z.
Proof. unfold I256.sub. destruct I256.in_range; congruence. Qed.

Lemma rbind_ok {A B} (m : result A) (f : A -> result B) r :
  rbind m f = Ok r -> exists a, m = Ok a /\ f a = Ok r.
Proof. destruct m; simpl; [eauto | discriminate]. Qed.

(** The same for the checked arithmetic of the pure functions. *)
Ltac rinv H :=
  match type of H with
  | rbind _ _ = Ok _ =>
      let a := fresh "x" in let H1 := fresh "H" in
      apply rbind_ok in H; destruct H as (a & H1 & H); rinv H1; rinv H
  | U256.add _ _ = Ok _ => apply u256_add_ok in H; destruct H as [? H]; subst
  | U256.sub _ _ = Ok _ => apply u256_sub_ok in H; destruct H as [? H]; subst
  | U256.mul _ _ = Ok _ => apply u256_mul_ok in H; destruct H as [? H]; subst
  | U256.div _ _ = Ok _ => apply u256_div_ok in H; destruct H as [? H]; subst
  | Ok _ = Ok _ => inversion H; clear H; subst
  | _ => idtac
  end.

Ltac rinv_all :=
  repeat match goal with
  | H : U256.add _ _ = Ok _ |- _ => rinv H
  | H : U256.sub _ _ = Ok _ |- _ => rinv H
  | H : U256.mul _ _ = Ok _ |- _ => rinv H
  | H : U256.div _ _ = Ok _ |- _ => rinv H
  end.

(** Storage terms: [esimp_in] exposes the mapping reads and writes of a
    hypothesis and reduces every projection of a written record, so that a
    read after a write of the same key becomes the value written. *)
Ltac unfold_storage_in H :=
  unfold set_markets_at, updMarket, updOption, updFreeConfig, updPortfolio, setShares,
    setCostBasis, pushTrade, pushPricePoint, pushCategoryMarket, pushMarketByType,
    getMarket, getOption, getFreeConfig, getShares, getCostBasis, getPortfolio,
    getClaimedWinnings, getClaimedFreeTokens, hasRole, isWhitelisted, feeRecipient in H.

Ltac cbn_storage_in H :=
  cbn [eng led calls
       bettingToken previousBettingToken feeCollector freeClaimHandler marketCount
       platformFeeRate globalTradeCount totalPlatformFeesCollected
       totalLockedPlatformFees totalUnlockedPlatformFees totalWithdrawnPlatformFees
       allParticipants whitelistedTokens whitelistedTokenList markets options
       freeMarketConfigs userShares userCostBasis hasClaimedWinnings
       hasClaimedFreeTokens userPortfolios userTradeHistory priceHistory
       categoryMarkets marketsByType roles owner paused
       set_feeCollector set_freeClaimHandler set_marketCount set_platformFeeRate
       set_globalTradeCount set_totalPlatformFeesCollected set_totalLockedPlatformFees
       set_totalUnlockedPlatformFees set_totalWithdrawnPlatformFees
       set_whitelistedTokens set_whitelistedTokenList set_markets set_options
       set_freeMarketConfigs set_userShares set_userCostBasis set_hasClaimedWinnings
       set_hasClaimedFreeTokens set_userPortfolios set_userTradeHistory
       set_priceHistory set_categoryMarkets set_marketsByType set_roles set_owner
       set_paused
       Market.question Market.description Market.endTime Market.createdAt
       Market.category Market.marketType Market.creator Market.resolved
       Market.invalidated Market.disputed Market.validated Market.winningOptionId
       Market.optionCount Market.totalVolume Market.lmsrB Market.adminInitialLiquidity
       Market.userLiquidity Market.platformFeesCollected Market.adminLiquidityClaimed
       Market.earlyResolutionAllowed Market.bettingToken
       Market.set_resolved Market.set_invalidated Market.set_disputed
       Market.set_validated Market.set_winningOptionId Market.set_totalVolume
       Market.set_userLiquidity Market.set_platformFeesCollected
       Market.set_adminLiquidityClaimed Market.set_earlyResolutionAllowed
       Option.name Option.description Option.totalShares Option.totalVolume
       Option.currentPrice Option.isActive
       Option.set_totalShares Option.set_totalVolume Option.set_currentPrice
       FreeMarketConfig.maxFreeParticipants FreeMarketConfig.tokensPerParticipant
       FreeMarketConfig.currentFreeParticipants FreeMarketConfig.totalPrizePool
       FreeMarketConfig.remainingPrizePool FreeMarketConfig.isActive
       FreeMarketConfig.set_currentFreeParticipants FreeMarketConfig.set_remainingPrizePool
       UserPortfolio.totalInvested UserPortfolio.totalWinnings
       UserPortfolio.unrealizedPnL UserPortfolio.realizedPnL UserPortfolio.tradeCount
       UserPortfolio.set_totalInvested UserPortfolio.set_totalWinnings
       UserPortfolio.set_realizedPnL UserPortfolio.set_tradeCount
       msg_sender block_timestamp this fst snd default from_option id] in H.

Ltac esimp_in H :=
  unfold_storage_in H; cbn_storage_in H;
  rewrite ?lookup_insert_eq, ?insert_insert_eq in H; cbn_storage_in H.

(** [minv1] reads one step of a successful run backwards; on a sequence it
    goes through the steps in order, simplifying the storage after each. *)
Ltac minv1 H :=
  match type of H with
  | bind _ _ _ = Ok _ =>
      let a := fresh "a" in let st := fresh "st" in let H1 := fresh "H" in
      apply bind_ok in H; destruct H as (a & st & H1 & H); minv1 H1; esimp_in H; minv1 H
  | ret _ _ = Ok _ => apply ret_ok in H; try (inversion H; clear H; subst)
  | gets _ _ = Ok _ => apply gets_ok in H; inversion H; clear H; subst
  | modify _ _ = Ok _ => apply modify_ok in H; inversion H; clear H; subst
  | require _ _ _ = Ok _ =>
      let Hb := fresh "Hreq" in
      apply require_ok in H; destruct H as [Hb H]; inversion H; clear H; subst
  | guard _ _ _ = Ok _ =>
      let Hb := fresh "Hreq" in
      apply guard_ok in H; destruct H as [Hb H]; inversion H; clear H; subst
  | lift _ _ = Ok _ =>
      let a := fresh "a" in let Hl := fresh "Hl" in
      apply lift_ok in H; destruct H as (a & Hl & H); inversion H; clear H; subst
  | view _ _ = Ok _ =>
      let a := fresh "a" in let Hl := fresh "Hv" in
      apply view_ok in H; destruct H as (a & Hl & H); cbn [eng] in Hl; inversion H; clear H; subst
  | addTo _ _ _ _ = Ok _ =>
      let Hb := fresh "Hadd" in
      apply addTo_ok in H; destruct H as [Hb H]; esimp_in Hb; esimp_in H; inversion H; clear H; subst
  | subFrom _ _ _ _ = Ok _ =>
      let Hb := fresh "Hsub" in
      apply subFrom_ok in H; destruct H as [Hb H]; esimp_in Hb; esimp_in H; inversion H; clear H; subst
  | token_transfer _ _ _ _ _ = Ok _ =>
      let l := fresh "l" in let Hl := fresh "Htr" in
      apply token_transfer_ok in H; destruct H as (l & Hl & H); cbn [eng led calls] in Hl; inversion H; clear H; subst
  | token_transferFrom _ _ _ _ _ _ = Ok _ =>
      let l := fresh "l" in let Hl := fresh "Htr" in
      apply token_transferFrom_ok in H; destruct H as (l & Hl & H); cbn [eng led calls] in Hl; inversion H; clear H; subst
  | _ => idtac
  end.

Ltac unfold_ops_in H :=
  unfold createMarketWithToken, _createMarket, buyShares, sellShares, resolveMarket,
    invalidateMarket, validateMarket, disputeMarket, claimWinnings, claimFreeTokens,
    withdrawAdminLiquidity, withdrawPlatformFees, withdrawPlatformFeesForToken,
    emergencyWithdraw, emergencyWithdrawToken, setPlatformFeeRate, setFeeCollector,
    setFreeClaimHandler, addWhitelistedToken, removeWhitelistedToken, pause, unpause,
    grantQuestionCreatorRole, grantQuestionResolveRole, grantMarketValidatorRole,
    grantRole, revokeRole, renounceRole, transferOwnership, renounceOwnership,
    whenNotPaused, whenPaused, onlyRole, onlyOwner, marketExists, marketNotResolved,
    marketNotInvalidated, marketActive, marketEnded, _updatePrice in H.

(** [exec_inv] opens a successful call: the operation's body is unfolded and
    inverted, leaving one hypothesis per guard and per checked operation and
    the final state as an explicit term over the initial one. *)
Ltac minv H :=
  match type of H with
  | (if ?b then _ else _) _ = Ok _ =>
      let Hb := fresh "Hif" in destruct b eqn:Hb; minv H
  | bind _ _ _ = Ok _ =>
      let a := fresh "a" in let st := fresh "st" in let H1 := fresh "H" in
      apply bind_ok in H; destruct H as (a & st & H1 & H); minv H1; esimp_in H; minv H
  | _ => minv1 H
  end.

Ltac exec_inv H := cbn [exec] in H; unfold_ops_in H; minv H.

(** The goal-side versions of the storage simplification. *)
Ltac cbn_storage :=
  cbn [eng led calls
       bettingToken previousBettingToken feeCollector freeClaimHandler marketCount
       platformFeeRate globalTradeCount totalPlatformFeesCollected
       totalLockedPlatformFees totalUnlockedPlatformFees totalWithdrawnPlatformFees
       allParticipants whitelistedTokens whitelistedTokenList markets options
       freeMarketConfigs userShares userCostBasis hasClaimedWinnings
       hasClaimedFreeTokens userPortfolios userTradeHistory priceHistory
       categoryMarkets marketsByType roles owner paused
       set_feeCollector set_freeClaimHandler set_marketCount set_platformFeeRate
       set_globalTradeCount set_totalPlatformFeesCollected set_totalLockedPlatformFees
       set_totalUnlockedPlatformFees set_totalWithdrawnPlatformFees
       set_whitelistedTokens set_whitelistedTokenList set_markets set_options
       set_freeMarketConfigs set_userShares set_userCostBasis set_hasClaimedWinnings
       set_hasClaimedFreeTokens set_userPortfolios set_userTradeHistory
       set_priceHistory set_categoryMarkets set_marketsByType set_roles set_owner
       set_paused
       Market.question Market.description Market.endTime Market.createdAt
       Market.category Market.marketType Market.creator Market.resolved
       Market.invalidated Market.disputed Market.validated Market.winningOptionId
       Market.optionCount Market.totalVolume Market.lmsrB Market.adminInitialLiquidity
       Market.userLiquidity Market.platformFeesCollected Market.adminLiquidityClaimed
       Market.earlyResolutionAllowed Market.bettingToken
       Market.set_resolved Market.set_invalidated Market.set_disputed
       Market.set_validated Market.set_winningOptionId Market.set_totalVolume
       Market.set_userLiquidity Market.set_platformFeesCollected
       Market.set_adminLiquidityClaimed Market.set_earlyResolutionAllowed
       Option.name Option.description Option.totalShares Option.totalVolume
       Option.currentPrice Option.isActive
       Option.set_totalShares Option.set_totalVolume Option.set_currentPrice
       FreeMarketConfig.maxFreeParticipants FreeMarketConfig.tokensPerParticipant
       FreeMarketConfig.currentFreeParticipants FreeMarketConfig.totalPrizePool
       FreeMarketConfig.remainingPrizePool FreeMarketConfig.isActive
       FreeMarketConfig.set_currentFreeParticipants FreeMarketConfig.set_remainingPrizePool
       UserPortfolio.totalInvested UserPortfolio.totalWinnings
       UserPortfolio.unrealizedPnL UserPortfolio.realizedPnL UserPortfolio.tradeCount
       UserPortfolio.set_totalInvested UserPortfolio.set_totalWinnings
       UserPortfolio.set_realizedPnL UserPortfolio.set_tradeCount
       msg_sender block_timestamp this fst snd default from_option id].

Ltac storage_goal :=
  unfold set_markets_at, updMarket, updOption, updFreeConfig, updPortfolio, setShares,
    setCostBasis, pushTrade, pushPricePoint, pushCategoryMarket, pushMarketByType,
    getMarket, getOption, getFreeConfig, getShares, getCostBasis, getPortfolio,
    getClaimedWinnings, getClaimedFreeTokens, hasRole, isWhitelisted, feeRecipient;
  cbn_storage.

(** Guards as propositions. *)
Ltac bool_hyps :=
  repeat match goal with
  | H : negb _ = true |- _ => apply negb_true_iff in H
  | H : (_ <? _) = true |- _ => apply N.ltb_lt in H
  | H : (_ <=? _) = true |- _ => apply N.leb_le in H
  | H : (_ =? _) = true |- _ => apply N.eqb_eq in H
  | H : (_ && _)%bool = true |- _ => apply andb_true_iff in H; destruct H
  end.

(** A read of key [k'] after a write of key [k]: the two cases. *)
Ltac split_lookup :=
  match goal with
  | |- context [ <[?k := _]> _ !! ?k' ] =>
      let Heq := fresh "Heq" in let Hne := fresh "Hne" in
      destruct (decide (k = k')) as [Heq|Hne];
      [ try (injection Heq as ? ? ?); subst; rewrite ?lookup_insert_eq
      | rewrite ?lookup_insert_ne by assumption ]
  end.

Lemma step_ok cl w w' l :
  step cl w = Ok (w', l) ->
  exists st', exec (mkCtx (c_sender cl) (c_now cl) (w_this w)) (c_op cl)
                (mkSt (w_eng w) (w_led w) []) = Ok (tt, st') /\
              w' = mkWorld (w_this w) (eng st') (led st') /\ l = calls st'.
Proof.
  unfold step. destruct exec as [[[] st']|]; [|discriminate].
  intros [= <- <-]. eauto.
Qed.

(** The option-initialisation loop writes the options mapping only. *)
Lemma initOptions_frame mid i ns ds s p e :
  let e' := initOptions mid i ns ds s p e in
  e' = set_options (options e') e.
Proof.
  revert i ds e. induction ns as [|n ns IH]; intros i ds e; simpl.
  - destruct e; reflexivity.
  - destruct ds as [|d ds]; [destruct e; reflexivity|].
    simpl in IH. rewrite IH at 1. cbn. f_equal.
Qed.

Lemma constructor_ok deployer token e :
  constructor deployer token = Ok e ->
  e = set_feeCollector deployer
       (set_platformFeeRate 25
       (set_whitelistedTokens {[ token ]}
       (set_whitelistedTokenList [token]
       (set_roles
          {[ (DEFAULT_ADMIN_ROLE, deployer); (QUESTION_CREATOR_ROLE, deployer);
             (QUESTION_RESOLVE_ROLE, deployer); (MARKET_CREATOR_ROLE, deployer);
             (MARKET_VALIDATOR_ROLE, deployer) ]}
       (set_owner deployer emptyEngine))))).
Proof. unfold constructor. destruct (token =? 0); congruence. Qed.

(** ** Calls, worlds and reachability *)

Lemma apply_cases cl w :
  (exists e, step cl w = Err e /\ apply cl w = w) \/
  (exists w' l, step cl w = Ok (w', l) /\ apply cl w = w').
Proof.
  unfold apply. destruct (step cl w) as [[w' l]|e]; [right|left]; eauto.
Qed.

Lemma apply_this cl w : w_this (apply cl w) = w_this w.
Proof.
  destruct (apply_cases cl w) as [(e & _ & ->)|(w' & l & H & ->)]; [reflexivity|].
  apply step_ok in H. destruct H as (st' & _ & -> & _). reflexivity.
Qed.

Lemma run_cons cl cs w : run (cl :: cs) w = run cs (apply cl w).
Proof. reflexivity. Qed.

Lemma run_this cs w : w_this (run cs w) = w_this w.
Proof.
  revert w. induction cs as [|cl cs IH]; intros w; [reflexivity|].
  rewrite run_cons, IH. apply apply_this.
Qed.

Section EngineInvariant.
Variable P : Engine -> Prop.
Hypothesis P_exec : forall c o st st',
  exec c o st = Ok (tt, st') -> P (eng st) -> P (eng st').

Lemma apply_invariant cl w : P (w_eng w) -> P (w_eng (apply cl w)).
Proof.
  intros Hw. destruct (apply_cases cl w) as [(e & _ & ->)|(w' & l & H & ->)]; [assumption|].
  apply step_ok in H. destruct H as (st' & H & -> & _).
  apply (P_exec _ _ _ _ H Hw).
Qed.

Lemma run_invariant cs w : P (w_eng w) -> P (w_eng (run cs w)).
Proof.
  revert w. induction cs as [|cl cs IH]; intros w Hw; [assumption|].
  rewrite run_cons. apply IH, apply_invariant, Hw.
Qed.

Hypothesis P_constructor : forall deployer token e,
  constructor deployer token = Ok e -> P e.

Lemma reachable_invariant w : reachable w -> P (w_eng w).
Proof.
  induction 1 as [self deployer token l w Hd | cl w _ IH].
  - unfold deploy in Hd. rinv Hd. eapply P_constructor; eassumption.
  - apply apply_invariant, IH.
Qed.
End EngineInvariant.

Lemma run_reachable cs w : reachable w -> reachable (run cs w).
Proof.
  revert w. induction cs as [|cl cs IH]; intros w Hw; [exact Hw|].
  rewrite run_cons. apply IH, reachable_step, Hw.
Qed.

Lemma deploy_world0 :
  deploy Scenario.self Scenario.operator Scenario.token Scenario.ledger0 = Ok Scenario.world0.
Proof. reflexivity. Qed.

Lemma reachable_world0 : reachable Scenario.world0.
Proof. eapply reachable_deploy, deploy_world0. Qed.

(** ** Pricing *)

Lemma E18_pos : 0 < E18.
Proof. reflexivity. Qed.

Lemma loopIndices_In n i : i < n -> In i (loopIndices n).
Proof.
  intros Hi. unfold loopIndices. apply in_map_iff. exists (N.to_nat i).
  split; [apply N2Nat.id|]. apply in_seq. lia.
Qed.

Lemma sumWeightedShares_ge e m o s idx acc t :
  sumWeightedShares e m o s idx acc = Ok t ->
  acc <= t /\ (In o idx -> acc + s <= t).
Proof.
  revert acc. induction idx as [|i rest IH]; intros acc H; simpl in H.
  - inversion H; subst. split; [lia | intros []].
  - rinv H. apply IH in H. destruct H as [Hle Hin]. split; [lia|].
    intros [->|Hr].
    + rewrite N.eqb_refl in Hle. lia.
    + specialize (Hin Hr). lia.
Qed.

Lemma calculatePrice_le e m o s p :
  o < Market.optionCount (getMarket e m) ->
  _calculatePrice e m o s = Ok p -> p <= E18.
Proof.
  intros Ho H. unfold _calculatePrice in H. rinv H.
  apply sumWeightedShares_ge in H0. destruct H0 as [_ Hin].
  specialize (Hin (loopIndices_In _ _ Ho)).
  destruct (N.eqb_spec x 0).
  - rinv H. apply N.Div0.div_le_upper_bound.
    pose proof E18_pos. nia.
  - rinv H. apply N.Div0.div_le_upper_bound. nia.
Qed.

Lemma calculateBuyCost_le e m o q cost :
  o < Market.optionCount (getMarket e m) ->
  _calculateBuyCost e m o q = Ok cost -> cost <= q.
Proof.
  intros Ho H. unfold _calculateBuyCost in H. rinv H.
  apply calculatePrice_le in H3; [|assumption].
  apply N.Div0.div_le_upper_bound. nia.
Qed.

Lemma calculateSellProceeds_le e m o q proceeds :
  o < Market.optionCount (getMarket e m) ->
  _calculateSellProceeds e m o q = Ok proceeds -> proceeds <= q.
Proof.
  intros Ho H. unfold _calculateSellProceeds in H.
  destruct (negb _); [discriminate|]. rinv H.
  apply calculatePrice_le in H2; [|assumption].
  apply N.Div0.div_le_upper_bound. nia.
Qed.

Lemma buyShares_zero c m o p t st : exists err, buyShares c m o 0 p t st = Err err.
Proof.
  destruct (buyShares c m o 0 p t st) as [[[] st']|err] eqn:H; [|eauto].
  exfalso. destruct st as [e l cs]. unfold_ops_in H. minv H. discriminate.
Qed.

Lemma sellShares_zero c m o p t st : exists err, sellShares c m o 0 p t st = Err err.
Proof.
  destruct (sellShares c m o 0 p t st) as [[[] st']|err] eqn:H; [|eauto].
  exfalso. destruct st as [e l cs]. unfold_ops_in H. minv H. discriminate.
Qed.

(** C8. A trade of quantity zero is rejected before it is priced, in every
    state (a negative quantity is not a value of the unsigned type).  For
    every state, every valid option and every hypothetical share count, the
    price computed is between 0 and 1e18, and the cost of a buy and the
    proceeds of a sell are non-negative and at most the quantity. *)
Theorem pricing_bounds (c : Ctx) (st : St) (e : Engine) (m o q s bound1 bound2 : N) :
  o < Market.optionCount (getMarket e m) ->
  (exists err, buyShares c m o 0 bound1 bound2 st = Err err) /\
  (exists err, sellShares c m o 0 bound1 bound2 st = Err err) /\
  (forall price, _calculatePrice e m o s = Ok price -> 0 <= price <= E18) /\
  (forall cost, _calculateBuyCost e m o q = Ok cost -> 0 <= cost <= q) /\
  (forall proceeds, _calculateSellProceeds e m o q = Ok proceeds -> 0 <= proceeds <= q).
Proof.
  intros Ho. split; [apply buyShares_zero|]. split; [apply sellShares_zero|].
  repeat split; try apply N.le_0_l.
  - eapply calculatePrice_le; eassumption.
  - eapply calculateBuyCost_le; eassumption.
  - eapply calculateSellProceeds_le; eassumption.
Qed.

Lemma pricing_bounds_witness :
  2 = Market.optionCount (getMarket (w_eng Scenario.bought) 0) /\
  _calculatePrice (w_eng Scenario.bought) 0 0 650 = Ok 565217391304347826 /\
  565217391304347826 <= E18.
Proof.
  split; [vm_compute; reflexivity|]. split; [vm_compute; reflexivity|].
  assert (Ho : 0 < Market.optionCount (getMarket (w_eng Scenario.bought) 0))
    by (vm_compute; reflexivity).
  destruct (pricing_bounds Scenario.sellCtx Scenario.beforeSell (w_eng Scenario.bought)
              0 0 100 650 0 0 Ho) as (_ & _ & Hp & _).
  apply (Hp 565217391304347826). vm_compute. reflexivity.
Defined.

(** ** Fee ledger *)

(** Every operation keeps the partition: trades add the fee to collected and
    locked, resolution moves the market's fees from locked to unlocked,
    invalidation takes them out of locked and collected. *)
Lemma exec_feePartition c o st st' :
  exec c o st = Ok (tt, st') -> feePartition (eng st) -> feePartition (eng st').
Proof.
  intros H Hp. destruct st as [e l cs]. unfold feePartition in *. cbn [eng] in Hp.
  destruct o; exec_inv H; cbn [eng]; storage_goal; try lia.
  all: rewrite initOptions_frame; storage_goal; lia.
Qed.

Lemma reachable_feePartition w : reachable w -> feePartition (w_eng w).
Proof.
  apply reachable_invariant.
  - apply exec_feePartition.
  - intros d t e ->%constructor_ok. reflexivity.
Qed.

Lemma invalidateMarket_fees c m st st' :
  invalidateMarket c m st = Ok (tt, st') ->
  let f := Market.platformFeesCollected (getMarket (eng st) m) in
  totalPlatformFeesCollected (eng st') + f = totalPlatformFeesCollected (eng st) /\
  totalLockedPlatformFees (eng st') + f = totalLockedPlatformFees (eng st) /\
  totalUnlockedPlatformFees (eng st') = totalUnlockedPlatformFees (eng st) /\
  Market.platformFeesCollected (getMarket (eng st') m) = f /\
  Market.invalidated (getMarket (eng st') m) = true.
Proof.
  intros H. destruct st as [e l cs]. unfold_ops_in H. minv H.
  cbn [eng]. storage_goal. rewrite lookup_insert_eq. cbn_storage.
  repeat split; try reflexivity; lia.
Qed.

(** X19. In every reachable world the fee ledger satisfies
    collected = locked + unlocked (whether or not fees have been withdrawn),
    and a successful invalidateMarket subtracts the value stored in the
    market's platformFeesCollected from both the locked and the collected
    totals, leaving the unlocked total alone.  The stored value is not reset
    by the call. *)
Theorem fee_ledger_partition (w : World) :
  reachable w ->
  feePartition (w_eng w) /\
  forall sender now m w' l,
    step (mkCall sender now (InvalidateMarket m)) w = Ok (w', l) ->
    let f := Market.platformFeesCollected (getMarket (w_eng w) m) in
    totalPlatformFeesCollected (w_eng w') + f = totalPlatformFeesCollected (w_eng w) /\
    totalLockedPlatformFees (w_eng w') + f = totalLockedPlatformFees (w_eng w) /\
    totalUnlockedPlatformFees (w_eng w') = totalUnlockedPlatformFees (w_eng w) /\
    feePartition (w_eng w').
Proof.
  intros Hr. split; [apply reachable_feePartition, Hr|].
  intros sender now m w' l H.
  pose proof (reachable_feePartition _ (reachable_step (mkCall sender now (InvalidateMarket m)) _ Hr)) as Hp.
  unfold apply in Hp. rewrite H in Hp.
  apply step_ok in H. destruct H as (st' & H & -> & _).
  cbn [c_op exec] in H. apply invalidateMarket_fees in H.
  cbn [eng w_eng] in *. intuition.
Qed.

Lemma fee_ledger_partition_witness :
  reachable Scenario.bought /\
  feePartition (w_eng Scenario.bought) /\
  step Scenario.invalidate Scenario.bought
  = Ok (apply Scenario.invalidate Scenario.bought,
        stepCalls Scenario.invalidate Scenario.bought) /\
  totalLockedPlatformFees (w_eng (apply Scenario.invalidate Scenario.bought)) + 1
  = totalLockedPlatformFees (w_eng Scenario.bought).
Proof.
  assert (Hr : reachable Scenario.bought) by apply run_reachable, reachable_world0.
  assert (Hs : step Scenario.invalidate Scenario.bought
               = Ok (apply Scenario.invalidate Scenario.bought,
                     stepCalls Scenario.invalidate Scenario.bought))
    by (vm_compute; reflexivity).
  destruct (fee_ledger_partition Scenario.bought Hr) as [Hp Hi].
  split; [exact Hr|]. split; [exact Hp|]. split; [exact Hs|].
  destruct (Hi Scenario.operator 4000 0 _ _ Hs) as (_ & Hl & _). exact Hl.
Defined.

(** C2 (the code departs from it).  invalidateMarket has no guard against a
    market already invalidated, although resolveMarket has one.  Two open
    markets have each accrued a fee of 1, so the totals (collected, locked,
    unlocked) are (2, 2, 0).  Invalidating market 0 takes its fee out:
    (1, 1, 0), all of it the fee of market 1.  A second invalidateMarket on
    market 0 is accepted and subtracts the stored platformFeesCollected of
    market 0 once more: the totals become (0, 0, 0) although market 1 is
    open and still has its fee of 1 booked, so more than the invalidated
    market's contribution has been removed; the resolution of market 1 then
    fails on the locked-fee subtraction. *)
Theorem invalidate_twice_takes_other_fees :
  let w0 := Scenario.twoMarkets in
  let w1 := run [Scenario.invalidate] Scenario.twoMarkets in
  let w2 := run [Scenario.invalidate; Scenario.invalidate] Scenario.twoMarkets in
  let fee w m := Market.platformFeesCollected (getMarket (w_eng w) m) in
  feeTotals w0 = (2, 2, 0) /\ fee w0 0 = 1 /\ fee w0 1 = 1 /\
  step Scenario.invalidate w0 = Ok (w1, []) /\
  feeTotals w1 = (1, 1, 0) /\
  isInvalidated w1 0 = true /\ isInvalidated w1 1 = false /\ isResolved w1 1 = false /\
  step Scenario.invalidate w1 = Ok (w2, []) /\
  feeTotals w2 = (0, 0, 0) /\ fee w2 1 = 1 /\
  isInvalidated w2 1 = false /\ isResolved w2 1 = false /\
  step Scenario.resolveSecond w2 = Err (Panic PANIC_ARITH).
Proof. vm_compute. repeat split. Qed.

(** ** Lifecycle flags *)

(** Only creation writes a fresh market, at the identifier [marketCount];
    every other write is behind the marketExists guard. *)
Lemma exec_marketsBelowCount c o st st' :
  exec c o st = Ok (tt, st') -> marketsBelowCount (eng st) -> marketsBelowCount (eng st').
Proof.
  intros H Hp. destruct st as [e l cs]. unfold marketsBelowCount in *. cbn [eng] in Hp.
  destruct o; exec_inv H; cbn [eng]; try (rewrite initOptions_frame); storage_goal;
    try assumption; bool_hyps; intros m' Hm';
    rewrite ?lookup_insert_ne by lia; apply Hp; lia.
Qed.

Lemma reachable_marketsBelowCount w : reachable w -> marketsBelowCount (w_eng w).
Proof.
  apply reachable_invariant.
  - apply exec_marketsBelowCount.
  - intros d t e ->%constructor_ok m _. apply lookup_empty.
Qed.

(** One call moves the flags of each market by [flagStep]. *)
Lemma exec_flagStep c o st st' m :
  exec c o st = Ok (tt, st') ->
  marketsBelowCount (eng st) ->
  flagStep (Market.resolved (getMarket (eng st) m))
           (Market.invalidated (getMarket (eng st) m))
           (Market.resolved (getMarket (eng st') m))
           (Market.invalidated (getMarket (eng st') m)).
Proof.
  intros H Hinv. destruct st as [e l cs]. cbn [eng] in Hinv |- *.
  destruct o; exec_inv H; cbn [eng]; try (rewrite initOptions_frame); storage_goal;
    bool_hyps; unfold flagStep;
    try (left; split; reflexivity).
  all: match goal with
       | |- context [ <[?k := _]> _ !! ?m' ] =>
           destruct (decide (k = m')) as [Heq|Hne];
           [ rewrite ?Heq, ?lookup_insert_eq | rewrite ?lookup_insert_ne by assumption ]
       end; cbn_storage; auto.
  all: try solve [intuition congruence].
  all: rewrite (Hinv m) by lia; cbn_storage; left; split; reflexivity.
Qed.

Lemma flagStep_resolved r i r' i' :
  flagStep r i r' i' -> r = true -> i = false -> r' = true /\ i' = false.
Proof. unfold flagStep. destruct r, i, r', i'; intuition congruence. Qed.

Lemma flagStep_invalidated r i r' i' :
  flagStep r i r' i' -> i = true -> r = false -> i' = true /\ r' = false.
Proof. unfold flagStep. destruct r, i, r', i'; intuition congruence. Qed.

Lemma flagStep_exclusive r i r' i' :
  flagStep r i r' i' -> ~ (r = true /\ i = true) -> ~ (r' = true /\ i' = true).
Proof. unfold flagStep. destruct r, i, r', i'; intuition congruence. Qed.

Lemma apply_flagStep cl w m :
  marketsBelowCount (w_eng w) ->
  flagStep (isResolved w m) (isInvalidated w m)
           (isResolved (apply cl w) m) (isInvalidated (apply cl w) m).
Proof.
  intros Hinv. unfold isResolved, isInvalidated.
  destruct (apply_cases cl w) as [(e & _ & ->)|(w' & l & H & ->)].
  - left. split; reflexivity.
  - apply step_ok in H. destruct H as (st' & H & -> & _).
    apply (exec_flagStep _ _ _ _ m H Hinv).
Qed.

Lemma reachable_exclusive w m :
  reachable w -> ~ (isResolved w m = true /\ isInvalidated w m = true).
Proof.
  induction 1 as [self deployer token l w Hd | cl w Hr IH].
  - unfold deploy in Hd. rinv Hd. apply constructor_ok in H. subst.
    unfold isResolved. cbn. intros [? _]. discriminate.
  - eapply flagStep_exclusive; [|exact IH].
    apply apply_flagStep, reachable_marketsBelowCount, Hr.
Qed.

Lemma run_resolved cs w m :
  marketsBelowCount (w_eng w) ->
  isResolved w m = true -> isInvalidated w m = false ->
  isResolved (run cs w) m = true /\ isInvalidated (run cs w) m = false.
Proof.
  revert w. induction cs as [|cl cs IH]; intros w Hinv Hr Hi; [auto|].
  rewrite run_cons.
  destruct (flagStep_resolved _ _ _ _ (apply_flagStep cl w m Hinv) Hr Hi).
  apply IH; [|assumption..].
  apply (apply_invariant _ exec_marketsBelowCount), Hinv.
Qed.

Lemma run_invalidated cs w m :
  marketsBelowCount (w_eng w) ->
  isInvalidated w m = true -> isResolved w m = false ->
  isInvalidated (run cs w) m = true /\ isResolved (run cs w) m = false.
Proof.
  revert w. induction cs as [|cl cs IH]; intros w Hinv Hi Hr; [auto|].
  rewrite run_cons.
  destruct (flagStep_invalidated _ _ _ _ (apply_flagStep cl w m Hinv) Hi Hr).
  apply IH; [|assumption..].
  apply (apply_invariant _ exec_marketsBelowCount), Hinv.
Qed.

(** C4. In every reachable world no market is both resolved and invalidated,
    and either flag is permanent: through every further sequence of calls a
    resolved market stays resolved and never becomes invalidated, and an
    invalidated market stays invalidated and never becomes resolved. *)
Theorem lifecycle_exclusive (w : World) (m : N) :
  reachable w ->
  ~ (isResolved w m = true /\ isInvalidated w m = true) /\
  (forall cs, isResolved w m = true ->
     isResolved (run cs w) m = true /\ isInvalidated (run cs w) m = false) /\
  (forall cs, isInvalidated w m = true ->
     isInvalidated (run cs w) m = true /\ isResolved (run cs w) m = false).
Proof.
  intros Hr.
  pose proof (reachable_exclusive w m Hr) as Hex.
  pose proof (reachable_marketsBelowCount w Hr) as Hinv.
  split; [exact Hex|]. split; intros cs Hf.
  - apply run_resolved; [assumption..|].
    destruct (isInvalidated w m); [exfalso; auto | reflexivity].
  - apply run_invalidated; [assumption..|].
    destruct (isResolved w m); [exfalso; auto | reflexivity].
Qed.

Lemma lifecycle_exclusive_witness :
  reachable Scenario.resolved /\
  isResolved Scenario.resolved 0 = true /\
  forall cs,
    isResolved (run cs Scenario.resolved) 0 = true /\
    isInvalidated (run cs Scenario.resolved) 0 = false.
Proof.
  assert (Hr : reachable Scenario.resolved) by apply run_reachable, reachable_world0.
  assert (Hres : isResolved Scenario.resolved 0 = true) by (vm_compute; reflexivity).
  split; [exact Hr|]. split; [exact Hres|]. intros cs.
  destruct (lifecycle_exclusive Scenario.resolved 0 Hr) as (_ & Hperm & _).
  exact (Hperm cs Hres).
Defined.

(** ** Selling *)

(** What a successful sell computes and writes. *)
Lemma sellShares_effects c m o q minP minT st st' :
  sellShares c m o q minP minT st = Ok (tt, st') ->
  let e := eng st in
  let u := msg_sender c in
  let s := getShares e u m o in
  let basis := getCostBasis e u m o in
  exists proceeds snapshot,
    _calculateSellProceeds e m o q = Ok proceeds /\
    let fee := proceeds * platformFeeRate e / 1000 in
    let net := proceeds - fee in
    let reduction := basis * q / s in
    0 < q /\ q <= s /\ fee <= proceeds /\ reduction <= basis /\
    proceeds * E18 <= MAX_UINT256 /\
    getShares (eng st') u m o = s - q /\
    getCostBasis (eng st') u m o = basis - reduction /\
    UserPortfolio.realizedPnL (getPortfolio (eng st') u) =
      (UserPortfolio.realizedPnL (getPortfolio e u)
       + (I256.of_uint net - I256.of_uint reduction))%Z /\
    calls st' = calls st ++
      [mkExtCall (Market.bettingToken (getMarket e m)) (this c) u net snapshot] /\
    ledger_transfer (Market.bettingToken (getMarket e m)) (this c) u net (led st)
      = Ok (led st').
Proof.
  intros H. destruct st as [e l cs]. unfold_ops_in H. minv H.
  clear Hv0. cbn [eng led calls]. storage_goal.
  rewrite !lookup_insert_eq. cbn_storage.
  bool_hyps. rinv Hl. rinv Hl1. rinv Hl2. rinv Hl3. rinv Hl4. rinv Hl5. rinv Hl6.
  apply i256_sub_ok in Hl7. apply i256_add_ok in Hl8. subst.
  replace (default 0 (userShares e !! (msg_sender c, m, o)) - q + q)
    with (default 0 (userShares e !! (msg_sender c, m, o))) in * by lia.
  do 2 eexists. split; [eassumption|].
  cbn zeta. repeat split; try assumption; try reflexivity.
Qed.

Lemma of_uint_small x : x < INT256_BOUND -> I256.of_uint x = Z.of_N x.
Proof.
  intros Hx. unfold I256.of_uint. apply N.ltb_lt in Hx. rewrite Hx. reflexivity.
Qed.

Lemma small_of_scaled x : x * E18 <= MAX_UINT256 -> x < INT256_BOUND.
Proof.
  intros Hx. assert (MAX_UINT256 < INT256_BOUND * E18) by reflexivity.
  assert (0 < E18) by reflexivity. nia.
Qed.

(** C7. A successful sell of [q] shares by a caller holding [s] shares with
    cost basis [basis] (an amount below 2^255, so that it reads the same as a
    signed 256-bit value) has [q <= s], lowers the cost basis by exactly
    [basis * q / s], adds [net - basis * q / s] to the caller's realized
    profit and loss, where [net = proceeds - fee], and issues one transfer of
    [net] from the engine to the seller. *)
Theorem sell_cost_basis (c : Ctx) (m o q minP minT : N) (st st' : St) :
  let e := eng st in
  let u := msg_sender c in
  let s := getShares e u m o in
  let basis := getCostBasis e u m o in
  sellShares c m o q minP minT st = Ok (tt, st') ->
  basis < INT256_BOUND ->
  exists proceeds snapshot,
    _calculateSellProceeds e m o q = Ok proceeds /\
    let fee := proceeds * platformFeeRate e / 1000 in
    let net := proceeds - fee in
    let reduction := basis * q / s in
    0 < q /\ q <= s /\ reduction <= basis /\
    getCostBasis (eng st') u m o + reduction = basis /\
    UserPortfolio.realizedPnL (getPortfolio (eng st') u) =
      (UserPortfolio.realizedPnL (getPortfolio e u)
       + (Z.of_N net - Z.of_N reduction))%Z /\
    calls st' = calls st ++
      [mkExtCall (Market.bettingToken (getMarket e m)) (this c) u net snapshot] /\
    ledger_transfer (Market.bettingToken (getMarket e m)) (this c) u net (led st)
      = Ok (led st').
Proof.
  intros e u s basis H Hb.
  destruct (sellShares_effects _ _ _ _ _ _ _ _ H)
    as (proceeds & snapshot & Hp & Hq & Hs & Hfee & Hred & Hsc & Hsh & Hcb & Hpnl & Hcalls & Hled).
  exists proceeds, snapshot. split; [exact Hp|].
  cbn zeta. fold e u s basis in Hred, Hcb, Hpnl, Hfee |- *.
  rewrite !of_uint_small in Hpnl.
  - repeat split; try assumption. rewrite Hcb. apply N.sub_add. exact Hred.
  - eapply N.le_lt_trans; [exact Hred | exact Hb].
  - apply small_of_scaled in Hsc.
    eapply N.le_lt_trans; [apply N.le_sub_l | exact Hsc].
Qed.

Lemma sell_cost_basis_witness :
  sellShares Scenario.sellCtx 0 0 50 0 0 Scenario.beforeSell = Ok (tt, Scenario.afterSell) /\
  getCostBasis (eng Scenario.beforeSell) Scenario.alice 0 0 = 52 /\
  getShares (eng Scenario.beforeSell) Scenario.alice 0 0 = 100 /\
  getCostBasis (eng Scenario.afterSell) Scenario.alice 0 0 + 52 * 50 / 100 = 52.
Proof.
  assert (Hs : sellShares Scenario.sellCtx 0 0 50 0 0 Scenario.beforeSell
               = Ok (tt, Scenario.afterSell)) by (vm_compute; reflexivity).
  assert (Hb : getCostBasis (eng Scenario.beforeSell) (msg_sender Scenario.sellCtx) 0 0
               < INT256_BOUND) by (vm_compute; reflexivity).
  split; [exact Hs|]. split; [vm_compute; reflexivity|]. split; [vm_compute; reflexivity|].
  destruct (sell_cost_basis Scenario.sellCtx 0 0 50 0 0 Scenario.beforeSell
              Scenario.afterSell Hs Hb)
    as (proceeds & snapshot & _ & _ & _ & _ & Hcb & _).
  exact Hcb.
Defined.

Lemma sellShares_insufficient c m o q minP minT st :
  let e := eng st in
  paused e = false ->
  m < marketCount e ->
  block_timestamp c < Market.endTime (getMarket e m) ->
  Market.resolved (getMarket e m) = false ->
  Market.invalidated (getMarket e m) = false ->
  o < Market.optionCount (getMarket e m) ->
  getShares e (msg_sender c) m o < q ->
  sellShares c m o q minP minT st = Err (Revert "Insufficient shares").
Proof.
  intros e Hp Hm Ht Hr Hi Ho Hq. subst e.
  apply N.ltb_lt in Hm, Ht, Ho.
  assert (Hq0 : (0 <? q) = true) by (apply N.ltb_lt; lia).
  assert (Hq1 : (q <=? getShares (eng st) (msg_sender c) m o) = false)
    by (apply N.leb_gt; exact Hq).
  cbv [sellShares whenNotPaused marketExists marketActive marketNotResolved
       marketNotInvalidated bind gets guard require ret fail].
  rewrite Hp; cbn [negb]. rewrite Hm; cbn [negb]. rewrite Ht; cbn [negb].
  rewrite Hr; cbn [negb]. rewrite Hi; cbn [negb]. rewrite Ho; cbn [negb].
  rewrite Hq0; cbn [negb]. rewrite Hq1. reflexivity.
Qed.

(** C9. A sell of more shares than the caller holds of that option fails and
    changes nothing: the call is rejected, the world after it (storage and
    token balances) is the world before it, and on an active market of an
    engine that is not paused the failure is the insufficient-shares error. *)
Theorem sell_excess_rejected (w : World) (sender now m o q minP minT : N) :
  let cl := mkCall sender now (SellShares m o q minP minT) in
  let e := w_eng w in
  getShares e sender m o < q ->
  (exists err, step cl w = Err err) /\
  apply cl w = w /\
  (paused e = false ->
   m < marketCount e ->
   now < Market.endTime (getMarket e m) ->
   Market.resolved (getMarket e m) = false ->
   Market.invalidated (getMarket e m) = false ->
   o < Market.optionCount (getMarket e m) ->
   step cl w = Err (Revert "Insufficient shares")).
Proof.
  intros cl e Hq.
  assert (Herr : exists err, step cl w = Err err).
  { destruct (step cl w) as [[w' l]|err] eqn:H; [|eauto]. exfalso.
    apply step_ok in H. destruct H as (st' & H & _).
    cbn [cl c_op exec] in H. apply sellShares_effects in H.
    destruct H as (? & ? & _ & _ & Hle & _). cbn in Hle. fold e in Hle. lia. }
  split; [exact Herr|]. split.
  - destruct Herr as [err Herr]. unfold apply. rewrite Herr. reflexivity.
  - intros Hp Hm Ht Hr Hi Ho. unfold step. cbn [cl c_op c_sender c_now exec].
    rewrite sellShares_insufficient; [reflexivity | assumption..].
Qed.

Lemma sell_excess_rejected_witness :
  getShares (w_eng Scenario.bought) Scenario.alice 0 0 = 100 /\
  step Scenario.sellTooMany Scenario.bought = Err (Revert "Insufficient shares") /\
  apply Scenario.sellTooMany Scenario.bought = Scenario.bought.
Proof.
  assert (Hq : getShares (w_eng Scenario.bought) Scenario.alice 0 0 < 200)
    by (vm_compute; reflexivity).
  destruct (sell_excess_rejected Scenario.bought Scenario.alice 3000 0 0 200 0 0 Hq)
    as (_ & Hsame & Herr).
  split; [vm_compute; reflexivity|]. split; [|exact Hsame].
  apply Herr; vm_compute; reflexivity.
Defined.

(** ** Claiming winnings *)

(** What a successful claim checks, writes and pays. *)
Lemma claimWinnings_effects c m st st' :
  claimWinnings c m st = Ok (tt, st') ->
  let e := eng st in
  let u := msg_sender c in
  let shares := getShares e u m (Market.winningOptionId (getMarket e m)) in
  exists payout snapshot,
    payout * E18 = shares * PAYOUT_PER_SHARE /\
    calls st' = calls st ++
      [mkExtCall (Market.bettingToken (getMarket e m)) (this c) u payout snapshot] /\
    getClaimedWinnings snapshot m u = true /\
    eng st' = snapshot /\
    m < marketCount e /\
    Market.resolved (getMarket e m) = true /\
    Market.invalidated (getMarket e m) = false /\
    getClaimedWinnings e m u = false /\
    markets snapshot = markets e /\ marketCount snapshot = marketCount e /\
    userShares snapshot = userShares e.
Proof.
  intros H. destruct st as [e l cs]. unfold_ops_in H. minv H.
  cbn [eng led calls]. bool_hyps. rinv Hl. rinv Hl0.
  do 2 eexists. split; [|split; [reflexivity|]].
  - unfold PAYOUT_PER_SHARE. rewrite N.div_mul by discriminate. reflexivity.
  - storage_goal. repeat split; try assumption; try reflexivity.
    apply bool_decide_eq_true. set_solver.
Qed.

Lemma claimWinnings_already c m st :
  let e := eng st in
  m < marketCount e ->
  Market.resolved (getMarket e m) = true ->
  Market.invalidated (getMarket e m) = false ->
  getClaimedWinnings e m (msg_sender c) = true ->
  claimWinnings c m st = Err (Revert "Already claimed").
Proof.
  intros e Hm Hr Hi Hk. subst e. apply N.ltb_lt in Hm.
  cbv [claimWinnings marketExists bind gets guard require ret fail].
  rewrite Hm; cbn [negb]. rewrite Hr; cbn [negb]. rewrite Hi; cbn [negb].
  rewrite Hk. reflexivity.
Qed.

(** No operation clears a claim latch; once a market is resolved no
    operation changes its winning option, its flags or anybody's shares of
    it. *)
Lemma exec_settled c o st st' m u :
  exec c o st = Ok (tt, st') ->
  let e := eng st in
  let e' := eng st' in
  (getClaimedWinnings e m u = true -> getClaimedWinnings e' m u = true) /\
  (m < marketCount e -> Market.resolved (getMarket e m) = true ->
   m < marketCount e' /\
   Market.resolved (getMarket e' m) = true /\
   Market.winningOptionId (getMarket e' m) = Market.winningOptionId (getMarket e m) /\
   (Market.invalidated (getMarket e m) = false ->
    Market.invalidated (getMarket e' m) = false) /\
   forall v o, getShares e' v m o = getShares e v m o).
Proof.
  intros H. destruct st as [e l cs]. cbn [eng].
  destruct o; exec_inv H; cbn [eng]; try (rewrite initOptions_frame); storage_goal;
    bool_hyps; (split; [try (intros; assumption) | intros Hm Hr]).
  all: try (repeat split; first [ lia | assumption | reflexivity | intros; assumption | intros; reflexivity ]).
  all: try (rewrite !bool_decide_eq_true; set_solver).
  all: repeat match goal with
       | |- _ /\ _ => split
       | |- forall _, _ => intro
       | |- context [ <[_ := _]> _ !! _ ] => split_lookup
       end; cbn_storage;
       try solve [ congruence | lia | reflexivity | assumption ].
Qed.

Lemma apply_settled cl w m u :
  settled w m u ->
  settled (apply cl w) m u /\ winningShares (apply cl w) u m = winningShares w u m.
Proof.
  intros (Hm & Hr & Hi & Hk).
  destruct (apply_cases cl w) as [(e & _ & ->)|(w' & l & H & ->)].
  - unfold settled. auto.
  - apply step_ok in H. destruct H as (st' & H & -> & _).
    destruct (exec_settled _ _ _ _ m u H) as [Hk' Hrest].
    destruct (Hrest Hm Hr) as (Hm' & Hr' & Hw & Hi' & Hs).
    unfold settled, isResolved, isInvalidated, hasClaimed, winningShares in *.
    cbn [w_eng eng] in *. rewrite Hw, Hs. repeat split; auto.
Qed.

Lemma run_settled cs w m u :
  settled w m u ->
  settled (run cs w) m u /\ winningShares (run cs w) u m = winningShares w u m.
Proof.
  revert w. induction cs as [|cl cs IH]; intros w Hs; [auto|].
  rewrite run_cons. destruct (apply_settled cl w m u Hs) as [Hs' Hw].
  destruct (IH _ Hs') as [Hs'' Hw']. split; [assumption | congruence].
Qed.

Lemma settled_claim_fails w m u now :
  settled w m u ->
  step (mkCall u now (ClaimWinnings m)) w = Err (Revert "Already claimed").
Proof.
  intros (Hm & Hr & Hi & Hk). unfold step. cbn [c_op c_sender c_now exec].
  rewrite claimWinnings_already; [reflexivity | assumption..].
Qed.

Lemma isClaimBy_true m u cl :
  isClaimBy m u cl = true -> cl = mkCall u (c_now cl) (ClaimWinnings m).
Proof.
  destruct cl as [s t o]. unfold isClaimBy. cbn.
  destruct o; try discriminate. intros H. bool_hyps. subst. reflexivity.
Qed.

Lemma paid_settled cs w m u :
  settled w m u -> winningsPaidTo m u cs w = 0%Z.
Proof.
  revert w. induction cs as [|cl cs IH]; intros w Hs; [reflexivity|].
  unfold winningsPaidTo in *. cbn [accumulate].
  rewrite (IH _ (proj1 (apply_settled cl w m u Hs))).
  unfold claimPayment.
  destruct (isClaimBy m u cl) eqn:Hc; [|reflexivity].
  apply isClaimBy_true in Hc. rewrite Hc. unfold stepCalls.
  rewrite settled_claim_fails by assumption. reflexivity.
Qed.

Lemma claim_step w u now m w' l :
  step (mkCall u now (ClaimWinnings m)) w = Ok (w', l) ->
  exists payout snapshot,
    payout * E18 = winningShares w u m * PAYOUT_PER_SHARE /\
    l = [mkExtCall (Market.bettingToken (getMarket (w_eng w) m)) (w_this w) u payout
           snapshot] /\
    getClaimedWinnings snapshot m u = true /\
    hasClaimed w m u = false /\
    settled w' m u /\ winningShares w' u m = winningShares w u m.
Proof.
  intros H. apply step_ok in H. destruct H as (st' & H & -> & ->).
  cbn [c_op c_sender c_now exec] in H. apply claimWinnings_effects in H.
  destruct H as (payout & snap & Hp & Hc & Hk & He & Hm & Hr & Hi & Hk0 & Hmk & Hcnt & Hsh).
  cbn [eng calls msg_sender this] in *.
  exists payout, snap. unfold settled, winningShares, isResolved, isInvalidated,
    hasClaimed, getMarket, getShares in *. cbn [w_eng] in *.
  rewrite He, Hmk, Hcnt, Hsh. rewrite Hc. repeat split; assumption.
Qed.

Lemma paid_bound m u cs w :
  (winningsPaidTo m u cs w * Z.of_N E18
   <= Z.of_N (winningShares (run cs w) u m) * Z.of_N PAYOUT_PER_SHARE)%Z.
Proof.
  revert w. induction cs as [|cl cs IH]; intros w.
  - cbn. unfold PAYOUT_PER_SHARE, E18. lia.
  - rewrite run_cons. unfold winningsPaidTo in *. cbn [accumulate].
    unfold claimPayment at 1.
    destruct (isClaimBy m u cl) eqn:Hc; [|apply IH].
    apply isClaimBy_true in Hc. unfold stepCalls.
    destruct (step cl w) as [[w' l]|err] eqn:Hs; [|apply IH].
    assert (Ha : apply cl w = w') by (unfold apply; rewrite Hs; reflexivity).
    rewrite Ha. rewrite Hc in Hs. apply claim_step in Hs.
    destruct Hs as (payout & snap & Hp & -> & _ & _ & Hset & Hw).
    pose proof (paid_settled cs w' m u Hset) as H0. unfold winningsPaidTo in H0.
    rewrite H0. destruct (run_settled cs w' m u Hset) as [_ ->]. rewrite Hw.
    cbn [sumAmounts fold_right xc_amount]. lia.
Qed.

(** C5. A successful claimWinnings by [u] on market [m] pays [u] exactly its
    winning-option shares times the payout-per-share constant (in 1e18
    fixed point) with one transfer, issued when the claim latch is already
    set in storage; every later claimWinnings by [u] on [m], after any calls
    whatsoever, fails with the already-claimed error.  Over every sequence of
    calls from every world the total paid to [u] for [m] is at most its
    winning shares times the payout per share. *)
Theorem claim_winnings_once (w : World) (u : address) (m : N) :
  (forall now w' l,
     step (mkCall u now (ClaimWinnings m)) w = Ok (w', l) ->
     exists payout snapshot,
       payout * E18 = winningShares w u m * PAYOUT_PER_SHARE /\
       l = [mkExtCall (Market.bettingToken (getMarket (w_eng w) m)) (w_this w) u
              payout snapshot] /\
       getClaimedWinnings snapshot m u = true /\
       hasClaimed w m u = false /\
       forall cs now',
         step (mkCall u now' (ClaimWinnings m)) (run cs w') =
           Err (Revert "Already claimed")) /\
  (forall cs,
     (winningsPaidTo m u cs w * Z.of_N E18
      <= Z.of_N (winningShares (run cs w) u m) * Z.of_N PAYOUT_PER_SHARE)%Z).
Proof.
  split; [|intros cs; apply paid_bound].
  intros now w' l H. apply claim_step in H.
  destruct H as (payout & snap & Hp & Hl & Hk & Hk0 & Hset & _).
  exists payout, snap. repeat split; try assumption.
  intros cs now'. apply settled_claim_fails, run_settled, Hset.
Qed.

Lemma claim_winnings_once_witness :
  step Scenario.claimYes Scenario.resolved
  = Ok (apply Scenario.claimYes Scenario.resolved,
        stepCalls Scenario.claimYes Scenario.resolved) /\
  exists payout snapshot,
    payout * E18 = winningShares Scenario.resolved Scenario.alice 0 * PAYOUT_PER_SHARE /\
    stepCalls Scenario.claimYes Scenario.resolved
    = [mkExtCall Scenario.token Scenario.self Scenario.alice payout snapshot] /\
    getClaimedWinnings snapshot 0 Scenario.alice = true.
Proof.
  assert (Hs : step Scenario.claimYes Scenario.resolved
               = Ok (apply Scenario.claimYes Scenario.resolved,
                     stepCalls Scenario.claimYes Scenario.resolved))
    by (vm_compute; reflexivity).
  split; [exact Hs|].
  destruct (proj1 (claim_winnings_once Scenario.resolved Scenario.alice 0) _ _ _ Hs)
    as (payout & snapshot & Hp & Hl & Hk & _).
  exists payout, snapshot. repeat split; assumption.
Defined.

(** ** Token calls and the ledger *)

(** The effect of a transfer on any holder's balance of any token. *)
Lemma ledger_transfer_balance token from to amount l l' tok x :
  ledger_transfer token from to amount l = Ok l' ->
  Z.of_N (balanceOf l' tok x) =
  (Z.of_N (balanceOf l tok x)
   + inflow x (mkExtCall token from to amount emptyEngine)
     * (if decide (tok = token) then 1 else 0))%Z.
Proof.
  unfold ledger_transfer. destruct (token =? 0); [discriminate|].
  destruct (N.leb_spec amount (balanceOf l token from)); [|discriminate].
  intros [= <-]. unfold balanceOf, inflow in *. cbn [balances xc_to xc_from xc_amount].
  destruct (decide (tok = token)) as [->|Ht].
  - destruct (N.eqb_spec to x) as [->|Hto]; destruct (N.eqb_spec from x) as [->|Hfrom];
      rewrite ?lookup_insert_eq; cbn [default from_option id];
      repeat (rewrite lookup_insert_ne by congruence);
      rewrite ?lookup_insert_eq; cbn [default from_option id]; lia.
  - repeat (rewrite lookup_insert_ne by congruence). lia.
Qed.

Lemma ledger_transferFrom_balance token spender from to amount l l' tok x :
  ledger_transferFrom token spender from to amount l = Ok l' ->
  Z.of_N (balanceOf l' tok x) =
  (Z.of_N (balanceOf l tok x)
   + inflow x (mkExtCall token from to amount emptyEngine)
     * (if decide (tok = token) then 1 else 0))%Z.
Proof.
  unfold ledger_transferFrom. destruct (_ <=? _); [|discriminate].
  destruct (ledger_transfer token from to amount l) as [l1|] eqn:H; [|discriminate].
  intros [= <-]. unfold balanceOf. cbn [balances].
  apply (ledger_transfer_balance _ _ _ _ _ _ tok x) in H. exact H.
Qed.

Lemma exec_ledger c o e l st' tok :
  exec c o (mkSt e l []) = Ok (tt, st') ->
  Z.of_N (balanceOf (led st') tok (this c)) =
  (Z.of_N (balanceOf l tok (this c)) + netInflow (this c) (tokenCalls tok (calls st')))%Z.
Proof.
  intros H.
  destruct o; exec_inv H; cbn [led calls app]; unfold tokenCalls;
    try (cbn; lia).
  all: match goal with
       | Htr : ledger_transfer _ _ _ _ _ = Ok _ |- _ =>
           apply (ledger_transfer_balance _ _ _ _ _ _ tok (this c)) in Htr
       | Htr : ledger_transferFrom _ _ _ _ _ _ = Ok _ |- _ =>
           apply (ledger_transferFrom_balance _ _ _ _ _ _ _ tok (this c)) in Htr
       end; rewrite Htr; cbn [filter list_filter xc_token];
       unfold inflow; cbn [xc_to xc_from xc_amount];
       destruct (decide (tok = _)) as [->|Hne].
  all: repeat case_decide; try congruence;
       cbn [netInflow fold_right]; unfold inflow; cbn [xc_to xc_from xc_amount]; lia.
Qed.

(** Each successful call changes the engine's balance of every token by
    exactly the net inflow of the token calls it made in that token. *)
Lemma step_ledger cl w w' l tok :
  step cl w = Ok (w', l) ->
  Z.of_N (balanceOf (w_led w') tok (w_this w)) =
  (Z.of_N (balanceOf (w_led w) tok (w_this w))
   + netInflow (w_this w) (tokenCalls tok l))%Z.
Proof.
  intros H. apply step_ok in H. destruct H as (st' & H & -> & ->).
  apply (exec_ledger _ _ _ _ _ tok) in H. exact H.
Qed.

(** ** Conservation *)

Lemma loopIndices_succ n : loopIndices (n + 1) = loopIndices n ++ [n].
Proof.
  unfold loopIndices. replace (N.to_nat (n + 1)) with (S (N.to_nat n)) by lia.
  rewrite seq_S, map_app. cbn [map Nat.add]. rewrite N2Nat.id. reflexivity.
Qed.

Lemma loopIndices_lt n i : In i (loopIndices n) -> i < n.
Proof.
  unfold loopIndices. intros H. apply in_map_iff in H. destruct H as (k & <- & Hk).
  apply in_seq in Hk. lia.
Qed.

Lemma loopIndices_NoDup n : NoDup (loopIndices n).
Proof.
  unfold loopIndices. apply NoDup_fmap_2; [intros x y Hxy; lia | apply NoDup_seq].
Qed.

Section Sums.
Variables f g : N -> Z.

Lemma sum_same idx :
  (forall m, In m idx -> f m = g m) ->
  fold_right (fun m acc => (f m + acc)%Z) 0%Z idx
  = fold_right (fun m acc => (g m + acc)%Z) 0%Z idx.
Proof.
  induction idx as [|a rest IH]; intros H; [reflexivity|]. cbn [fold_right].
  rewrite IH by (intros m Hm; apply H; right; exact Hm).
  rewrite (H a) by (left; reflexivity). reflexivity.
Qed.

Lemma sum_delta k X idx :
  NoDup idx -> In k idx ->
  (forall m, (f m - g m = if decide (k = m) then X else 0)%Z) ->
  (fold_right (fun m acc => (f m + acc)%Z) 0%Z idx
   = fold_right (fun m acc => (g m + acc)%Z) 0%Z idx + X)%Z.
Proof.
  intros Hnd Hin Hd. induction Hnd as [|a rest Ha Hnd IH]; [destruct Hin|].
  cbn [fold_right]. pose proof (Hd a) as Hda.
  destruct (decide (k = a)) as [->|Hne].
  - rewrite (sum_same rest); [lia|].
    intros m Hm. pose proof (Hd m) as Hdm.
    destruct (decide (a = m)) as [->|_]; [exfalso; apply Ha, list_elem_of_In, Hm | lia].
  - destruct Hin as [->|Hin]; [congruence|]. rewrite (IH Hin). lia.
Qed.
End Sums.

(** One successful call against the books: it moves the book of the market
    it trades in or creates by the net inflow of its token calls, and no
    other book; the market count grows by a creation only; a call that
    neither trades, creates nor pays out makes no token call. *)
Lemma exec_bookIn c o e l st' t :
  exec c o (mkSt e l []) = Ok (tt, st') ->
  marketsBelowCount e ->
  msg_sender c <> this c ->
  (forall m,
     (bookIn (eng st') t m - bookIn e t m
      = if decide (bookTarget o e = Some m)
        then netInflow (this c) (tokenCalls t (calls st')) else 0)%Z) /\
  (marketCount (eng st') = marketCount e \/
   (bookTarget o e = Some (marketCount e) /\ marketCount (eng st') = marketCount e + 1)) /\
  (forall m, bookTarget o e = Some m -> m < marketCount (eng st')) /\
  (bookTarget o e = None -> paysOut o = false -> calls st' = []).
Proof.
  intros H Hinv Hself. apply N.eqb_neq in Hself.
  destruct o; exec_inv H;
    cbn [eng calls bookTarget paysOut isClaimWinnings isWithdrawAdminLiquidity
         isFeeWithdrawal isEmergencyWithdrawal orb app];
    try (rewrite initOptions_frame); unfold bookIn, marketBook, tokenCalls;
    storage_goal; bool_hyps.
  all: split; [intros m'|split; [|split]].
  all: try (left; reflexivity).
  all: try (intros; reflexivity).
  all: try (intros; discriminate).
  all: try (right; split; reflexivity).
  all: try (intros m' [= <-]; lia).
  all: try match goal with
       | |- context [ <[?k := _]> _ !! ?m ] =>
           destruct (decide (k = m)) as [Heq|Hne];
           [ subst; rewrite ?lookup_insert_eq
           | rewrite ?lookup_insert_ne by assumption ]
       end.
  all: cbn_storage; cbn [filter list_filter xc_token];
       try rewrite (Hinv (marketCount e)) by lia; unfold Market.zero; cbn_storage.
  all: repeat case_decide; try congruence;
       unfold netInflow, inflow; cbn [filter list_filter fold_right xc_to xc_from xc_amount xc_token];
       rewrite ?N.eqb_refl, ?Hself; rinv_all; try lia.
Qed.

(** One successful call against the summed books of a token. *)
Lemma exec_tokenBook c o e l st' t :
  exec c o (mkSt e l []) = Ok (tt, st') ->
  marketsBelowCount e ->
  msg_sender c <> this c ->
  (netInflow (this c) (tokenCalls t (calls st'))
   = tokenBook (eng st') t - tokenBook e t
     - (if paysOut o then tokensOut (this c) t (calls st') else 0))%Z.
Proof.
  intros H Hinv Hself.
  destruct (exec_bookIn c o e l st' t H Hinv Hself) as (Hd & Hc & Hlt & Hnone).
  assert (Hbook : (tokenBook (eng st') t - tokenBook e t
                   = match bookTarget o e with
                     | Some _ => netInflow (this c) (tokenCalls t (calls st'))
                     | None => 0
                     end)%Z).
  { unfold tokenBook. destruct (bookTarget o e) as [k|] eqn:Hk.
    - assert (Hd' : forall m, (bookIn (eng st') t m - bookIn e t m
                               = if decide (k = m)
                                 then netInflow (this c) (tokenCalls t (calls st')) else 0)%Z).
      { intros m. rewrite (Hd m). repeat case_decide; congruence. }
      specialize (Hlt k eq_refl).
      destruct Hc as [Hc|[Hk' Hc]].
      + rewrite Hc in *.
        rewrite (sum_delta (bookIn (eng st') t) (bookIn e t) k _ _
                   (loopIndices_NoDup _) (loopIndices_In _ _ Hlt) Hd'). lia.
      + injection Hk' as ->. rewrite Hc, loopIndices_succ, fold_right_app.
        cbn [fold_right].
        assert (H0 : bookIn e t (marketCount e) = 0%Z).
        { unfold bookIn, marketBook, getMarket. rewrite (Hinv (marketCount e)) by lia.
          cbn. case_decide; reflexivity. }
        pose proof (Hd' (marketCount e)) as Hnew.
        destruct (decide (marketCount e = marketCount e)) as [_|]; [|congruence].
        rewrite Z.add_0_r.
        assert (Hfold : forall (h : N -> Z) idx z,
                  (fold_right (fun m acc => h m + acc) z idx
                   = fold_right (fun m acc => h m + acc) 0 idx + z)%Z).
        { intros h idx z. induction idx as [|a rest IH]; cbn [fold_right]; [lia|].
          rewrite IH. lia. }
        rewrite Hfold.
        rewrite (sum_same (bookIn (eng st') t) (bookIn e t) (loopIndices (marketCount e))).
        * lia.
        * intros m Hm. apply loopIndices_lt in Hm. pose proof (Hd' m) as Hdm.
          destruct (decide (marketCount e = m)); lia.
    - destruct Hc as [Hc|[Hk' _]]; [|discriminate]. rewrite Hc.
      rewrite (sum_same (bookIn (eng st') t) (bookIn e t) (loopIndices (marketCount e)));
        [lia|].
      intros m _. pose proof (Hd m) as Hdm. case_decide; [discriminate | lia]. }
  rewrite Hbook. unfold tokensOut.
  destruct (bookTarget o e) as [k|] eqn:Hk.
  - assert (Hp : paysOut o = false) by (destruct o; try discriminate; reflexivity).
    rewrite Hp. lia.
  - destruct (paysOut o) eqn:Hp; [lia|].
    rewrite (Hnone eq_refl eq_refl). cbn. lia.
Qed.

Lemma paysOut_flows cl w t :
  (outflowOf isClaimWinnings t cl w + outflowOf isWithdrawAdminLiquidity t cl w
   + outflowOf isFeeWithdrawal t cl w + outflowOf isEmergencyWithdrawal t cl w
   = if paysOut (c_op cl) then tokensOut (w_this w) t (stepCalls cl w) else 0)%Z.
Proof. unfold outflowOf, paysOut. destruct (c_op cl); cbn; lia. Qed.

(** One call against the ledger: the engine's balance of a token moves by
    the change of the summed books minus what the call paid out. *)
Lemma apply_custody cl w t :
  marketsBelowCount (w_eng w) ->
  c_sender cl <> w_this w ->
  (custody (apply cl w) t
   = custody w t + (tokenBook (w_eng (apply cl w)) t - tokenBook (w_eng w) t)
     - outflowOf isClaimWinnings t cl w - outflowOf isWithdrawAdminLiquidity t cl w
     - outflowOf isFeeWithdrawal t cl w - outflowOf isEmergencyWithdrawal t cl w)%Z.
Proof.
  intros Hinv Hself. pose proof (paysOut_flows cl w t) as Hf.
  unfold apply, stepCalls in *.
  destruct (step cl w) as [[w' l]|err] eqn:H.
  - pose proof (step_ledger _ _ _ _ t H) as Hl.
    apply step_ok in H. destruct H as (st' & H & -> & ->).
    destruct w as [self e led0]. cbn [w_eng w_this w_led] in *.
    apply (exec_tokenBook _ _ _ _ _ t) in H; [|assumption..].
    cbn [this] in H. unfold custody. cbn [w_eng w_this w_led].
    destruct (paysOut (c_op cl)); lia.
  - unfold tokensOut in Hf. cbn in Hf. destruct (paysOut (c_op cl)); lia.
Qed.

Lemma run_custody t cs w :
  marketsBelowCount (w_eng w) ->
  Forall (fun cl => c_sender cl <> w_this w) cs ->
  (custody (run cs w) t
   = custody w t + (tokenBook (w_eng (run cs w)) t - tokenBook (w_eng w) t)
     - winningsPaidIn t cs w - adminLiquidityWithdrawnIn t cs w
     - feesWithdrawnIn t cs w - emergencyWithdrawnIn t cs w)%Z.
Proof.
  revert w. induction cs as [|cl cs IH]; intros w Hinv Hall.
  - cbn. lia.
  - inversion Hall as [|? ? Hcl Hcs]; subst.
    unfold winningsPaidIn, adminLiquidityWithdrawnIn, feesWithdrawnIn,
      emergencyWithdrawnIn in *.
    cbn [accumulate]. rewrite run_cons.
    pose proof (apply_custody cl w t Hinv Hcl) as Hstep.
    assert (Hinv' : marketsBelowCount (w_eng (apply cl w)))
      by (apply (apply_invariant _ exec_marketsBelowCount), Hinv).
    specialize (IH (apply cl w) Hinv').
    rewrite apply_this in IH. specialize (IH Hcs). lia.
Qed.

(** The summed books of a token used by one market only. *)
Lemma tokenBook_single e t m :
  marketsBelowCount e ->
  m < marketCount e ->
  Market.bettingToken (getMarket e m) = t ->
  (forall m', m' < marketCount e -> m' <> m -> Market.bettingToken (getMarket e m') <> t) ->
  tokenBook e t = marketBook e m.
Proof.
  intros Hinv Hm Ht Hothers. unfold tokenBook.
  rewrite (sum_delta (bookIn e t) (fun _ => 0%Z) m (marketBook e m) _
             (loopIndices_NoDup _) (loopIndices_In _ _ Hm)).
  - assert (H0 : forall idx : list N,
              fold_right (fun (_ : N) acc => (0 + acc)%Z) 0%Z idx = 0%Z)
      by (induction idx; cbn [fold_right]; lia).
    rewrite H0. lia.
  - intros m'. unfold bookIn. destruct (decide (m = m')) as [<-|Hne].
    + case_decide; [lia | congruence].
    + case_decide as Htok; [|lia].
      destruct (N.lt_ge_cases m' (marketCount e)) as [Hlt|Hge].
      * exfalso. apply (Hothers m' Hlt); congruence.
      * unfold marketBook, getMarket. rewrite (Hinv m' Hge). reflexivity.
Qed.

(** C1, as the specification words it, fails.  The engine holds nothing at
    deployment and market 0 is the only market, so the balance held for it
    is the engine's balance of its token: after the creation (1000 tokens
    in) and the buy (cost 52, fee 1) that balance is 1053 while
    adminInitialLiquidity + userLiquidity is 1052 and nothing was withdrawn
    or paid; after the sell of 50 shares (26 tokens out) it is 1027 and the
    specified balance is still 1052. *)
Lemma conservation_as_specified_fails :
  let cs1 := [Scenario.createBinary true; Scenario.buyYes] in
  let cs2 := [Scenario.createBinary true; Scenario.buyYes; Scenario.sellYes] in
  custody Scenario.world0 Scenario.token = 0%Z /\
  marketCount (w_eng (run cs2 Scenario.world0)) = 1 /\
  Market.bettingToken (getMarket (w_eng (run cs2 Scenario.world0)) 0) = Scenario.token /\
  custody (run cs1 Scenario.world0) Scenario.token = 1053%Z /\
  specifiedBalance 0 cs1 Scenario.world0 = 1052%Z /\
  custody (run cs2 Scenario.world0) Scenario.token = 1027%Z /\
  specifiedBalance 0 cs2 Scenario.world0 = 1052%Z.
Proof. vm_compute. repeat split. Qed.

(** C1, as the code has it.  The ledger keeps one balance per token.  From
    deployment on, through every sequence of calls none of which is sent by
    the engine itself, the engine's ledger balance of a token equals its
    balance at deployment, plus, for every market created in that token, the
    market's initial liquidity, the buy costs recorded in userLiquidity and
    the platform fees accrued on its trades, less the gross proceeds of its
    sells (totalVolume minus userLiquidity), minus the winnings paid, the
    admin liquidity withdrawn, the platform fees withdrawn and the emergency
    withdrawals made in that token.  For a market that is the only one in
    its token the sum over markets is that market's term. *)
Theorem token_custody_booked (self deployer token : address) (l : Ledger)
  (w : World) (cs : list Call) (t : address) :
  deploy self deployer token l = Ok w ->
  Forall (fun cl => c_sender cl <> self) cs ->
  let e' := w_eng (run cs w) in
  custody (run cs w) t = bookedCustody t cs w /\
  (forall m,
     m < marketCount e' ->
     Market.bettingToken (getMarket e' m) = t ->
     (forall m', m' < marketCount e' -> m' <> m ->
        Market.bettingToken (getMarket e' m') <> t) ->
     (custody (run cs w) t
      = custody w t + marketBook e' m
        - winningsPaidIn t cs w - adminLiquidityWithdrawnIn t cs w
        - feesWithdrawnIn t cs w - emergencyWithdrawnIn t cs w)%Z).
Proof.
  intros Hd Hall e'.
  assert (Hr : reachable w) by (eapply reachable_deploy; exact Hd).
  pose proof (reachable_marketsBelowCount w Hr) as Hinv.
  assert (Hself : w_this w = self).
  { unfold deploy in Hd. rinv Hd. reflexivity. }
  rewrite <- Hself in Hall.
  pose proof (run_custody t cs w Hinv Hall) as Hb.
  assert (H0 : tokenBook (w_eng w) t = 0%Z).
  { unfold deploy in Hd. rinv Hd. apply constructor_ok in H. subst. reflexivity. }
  assert (Hbooked : custody (run cs w) t = bookedCustody t cs w)
    by (unfold bookedCustody; lia).
  split; [exact Hbooked|].
  intros m Hm Ht Hothers.
  assert (Hinv' : marketsBelowCount e')
    by (apply (run_invariant _ exec_marketsBelowCount), Hinv).
  rewrite Hbooked. unfold bookedCustody. fold e'.
  rewrite (tokenBook_single e' t m Hinv' Hm Ht Hothers). reflexivity.
Qed.

Lemma token_custody_booked_witness :
  custody (run Scenario.lifecycle Scenario.world0) Scenario.token
  = bookedCustody Scenario.token Scenario.lifecycle Scenario.world0 /\
  custody (run Scenario.lifecycle Scenario.world0) Scenario.token = 1024%Z.
Proof.
  assert (Hall : Forall (fun cl => c_sender cl <> Scenario.self) Scenario.lifecycle)
    by (repeat constructor; vm_compute; discriminate).
  destruct (token_custody_booked Scenario.self Scenario.operator Scenario.token
              Scenario.ledger0 Scenario.world0 Scenario.lifecycle Scenario.token
              eq_refl Hall) as [Hb _].
  split; [exact Hb | vm_compute; reflexivity].
Defined.

(** ** Disputes *)

(** disputeMarket succeeds exactly for a caller holding shares of option 0 or
    of option 1 of an existing unresolved market, and only sets the disputed
    flag. *)
Lemma disputeMarket_effects c m r st st' :
  disputeMarket c m r st = Ok (tt, st') ->
  let e := eng st in
  m < marketCount e /\ Market.resolved (getMarket e m) = false /\
  (0 < getShares e (msg_sender c) m 0 \/ 0 < getShares e (msg_sender c) m 1) /\
  st' = mkSt (updMarket m (Market.set_disputed true) e) (led st) (calls st).
Proof.
  intros H. destruct st as [e l cs]. unfold_ops_in H. minv H.
  cbn [eng led calls]. bool_hyps. apply orb_true_iff in Hreq1.
  repeat split; try assumption.
  destruct Hreq1 as [H|H]; apply N.ltb_lt in H; auto.
Qed.

Lemma disputeMarket_participant c m r st :
  let e := eng st in
  m < marketCount e -> Market.resolved (getMarket e m) = false ->
  (0 < getShares e (msg_sender c) m 0 \/ 0 < getShares e (msg_sender c) m 1) ->
  disputeMarket c m r st
  = Ok (tt, mkSt (updMarket m (Market.set_disputed true) e) (led st) (calls st)).
Proof.
  intros e Hm Hr Hs. subst e. apply N.ltb_lt in Hm.
  assert (Hb : (0 <? getShares (eng st) (msg_sender c) m 0)
               || (0 <? getShares (eng st) (msg_sender c) m 1) = true).
  { apply orb_true_iff. destruct Hs as [H|H]; apply N.ltb_lt in H; auto. }
  cbv [disputeMarket marketExists marketNotResolved bind gets guard require ret fail modify].
  rewrite Hm; cbn [negb]. rewrite Hr; cbn [negb]. rewrite Hb. reflexivity.
Qed.

(** C6 (the code departs from it).  In a three-option market a trader whose
    only position is 100 shares of option 2 cannot dispute: the participant
    check reads the caller's shares of options 0 and 1 only. *)
Theorem dispute_third_option_rejected :
  Market.optionCount (getMarket (w_eng Scenario.ternaryBought) 0) = 3 /\
  Market.resolved (getMarket (w_eng Scenario.ternaryBought) 0) = false /\
  getShares (w_eng Scenario.ternaryBought) Scenario.bob 0 2 = 100 /\
  step Scenario.disputeC Scenario.ternaryBought = Err (Revert "Must be participant").
Proof. vm_compute. repeat split. Qed.

(** ** Stored prices *)

(** A trade rewrites the record of the traded option only. *)
Lemma buyShares_other_options c m o q p t st st' o' :
  buyShares c m o q p t st = Ok (tt, st') -> o' <> o ->
  getOption (eng st') m o' = getOption (eng st) m o'.
Proof.
  intros H Hne. destruct st as [e l cs]. unfold_ops_in H. minv H.
  cbn [eng]. storage_goal. rewrite lookup_insert_ne by congruence. reflexivity.
Qed.

Lemma sellShares_other_options c m o q p t st st' o' :
  sellShares c m o q p t st = Ok (tt, st') -> o' <> o ->
  getOption (eng st') m o' = getOption (eng st) m o'.
Proof.
  intros H Hne. destruct st as [e l cs]. unfold_ops_in H. minv H.
  cbn [eng]. storage_goal. rewrite lookup_insert_ne by congruence. reflexivity.
Qed.

(** C3 (the code departs from it).  Scenario A: in the fresh two-option
    market both stored prices are 0.5; after the buy of 100 shares of option
    0 the stored price of option 0 is 0.5454..., the stored price of option 1
    is still exactly 0.5, and the two sum to 1.0454..., because a trade
    recomputes the stored price of the traded option only. *)
Theorem stale_prices_after_buy :
  let price w o := Option.currentPrice (getOption (w_eng w) 0 o) in
  price Scenario.created 0 = 500000000000000000 /\
  price Scenario.created 1 = 500000000000000000 /\
  step Scenario.buyYes Scenario.created = Ok (Scenario.bought, stepCalls Scenario.buyYes Scenario.created) /\
  price Scenario.bought 0 = 545454545454545454 /\
  price Scenario.bought 1 = 500000000000000000 /\
  price Scenario.bought 0 + price Scenario.bought 1 = E18 + 45454545454545454.
Proof. vm_compute. repeat split. Qed.

(** ** The early-resolution flag *)

Lemma eraseM_idemp x :
  Market.set_earlyResolutionAllowed false (Market.set_earlyResolutionAllowed false x)
  = Market.set_earlyResolutionAllowed false x.
Proof. reflexivity. Qed.

Lemma fmap_erase_idemp (ms : gmap N Market.t) :
  Market.set_earlyResolutionAllowed false <$> (Market.set_earlyResolutionAllowed false <$> ms)
  = Market.set_earlyResolutionAllowed false <$> ms.
Proof. rewrite <- map_fmap_compose. apply map_fmap_ext. intros; reflexivity. Qed.

Lemma getMarket_eraseEarly e m :
  getMarket (eraseEarly e) m = Market.set_earlyResolutionAllowed false (getMarket e m).
Proof.
  unfold getMarket, eraseEarly. cbn_storage. rewrite lookup_fmap.
  destruct (markets e !! m); reflexivity.
Qed.

Lemma eraseSt_inv st1 st2 :
  eraseSt st1 = eraseSt st2 ->
  eraseEarly (eng st1) = eraseEarly (eng st2) /\ led st1 = led st2 /\
  map eraseCall (calls st1) = map eraseCall (calls st2).
Proof.
  intros H. repeat split.
  - exact (f_equal eng H).
  - exact (f_equal led H).
  - exact (f_equal calls H).
Qed.

Section Respects.
Context {A B : Type}.

Lemma respects_ret (a : A) : respects (ret a).
Proof. intros st1 st2 H. cbn. auto. Qed.

Lemma respects_fail (e : Error) : respects (@fail A e).
Proof. intros st1 st2 H. reflexivity. Qed.

Lemma respects_lift (r : result A) : respects (lift r).
Proof. intros st1 st2 H. unfold lift. destruct r; auto. Qed.

Lemma respects_bind (p : M A) (f : A -> M B) :
  respects p -> (forall a, respects (f a)) -> respects (bind p f).
Proof.
  intros Hp Hf st1 st2 H. unfold bind. specialize (Hp st1 st2 H).
  destruct (p st1) as [[a1 s1]|e1], (p st2) as [[a2 s2]|e2]; try contradiction; auto.
  destruct Hp as [-> Hs]. apply Hf, Hs.
Qed.

Lemma respects_gets (f : Engine -> A) :
  (forall e, f (eraseEarly e) = f e) -> respects (gets f).
Proof.
  intros Hf st1 st2 H. unfold gets. split; [|exact H].
  apply eraseSt_inv in H. destruct H as (He & _).
  rewrite <- (Hf (eng st1)), <- (Hf (eng st2)), He. reflexivity.
Qed.

Lemma respects_view (f : Engine -> result A) :
  (forall e, f (eraseEarly e) = f e) -> respects (view f).
Proof.
  intros Hf st1 st2 H. unfold view.
  assert (Heq : f (eng st1) = f (eng st2)).
  { apply eraseSt_inv in H. destruct H as (He & _).
    rewrite <- (Hf (eng st1)), <- (Hf (eng st2)), He. reflexivity. }
  rewrite Heq. destruct (f (eng st2)); auto.
Qed.
End Respects.

Lemma respects_modify (g : Engine -> Engine) :
  (forall e, eraseEarly (g (eraseEarly e)) = eraseEarly (g e)) -> respects (modify g).
Proof.
  intros Hg st1 st2 H. unfold modify. split; [reflexivity|].
  apply eraseSt_inv in H. destruct H as (He & Hl & Hc).
  unfold eraseSt. cbn [eng led calls]. rewrite Hl, Hc. f_equal.
  rewrite <- (Hg (eng st1)), <- (Hg (eng st2)), He. reflexivity.
Qed.

Lemma respects_require b msg : respects (require b msg).
Proof. unfold require. destruct b; [apply respects_ret | apply respects_fail]. Qed.

Lemma respects_guard b e : respects (guard b e).
Proof. unfold guard. destruct b; [apply respects_ret | apply respects_fail]. Qed.

Lemma respects_addTo get set v :
  (forall e, get (eraseEarly e) = get e) ->
  (forall x e, eraseEarly (set x (eraseEarly e)) = eraseEarly (set x e)) ->
  respects (addTo get set v).
Proof.
  intros Hg Hs. unfold addTo.
  apply respects_bind; [apply respects_gets, Hg | intros x].
  apply respects_bind; [apply respects_lift | intros x'].
  apply respects_modify, Hs.
Qed.

Lemma respects_subFrom get set v :
  (forall e, get (eraseEarly e) = get e) ->
  (forall x e, eraseEarly (set x (eraseEarly e)) = eraseEarly (set x e)) ->
  respects (subFrom get set v).
Proof.
  intros Hg Hs. unfold subFrom.
  apply respects_bind; [apply respects_gets, Hg | intros x].
  apply respects_bind; [apply respects_lift | intros x'].
  apply respects_modify, Hs.
Qed.

Lemma respects_token_transfer c token to amount :
  respects (token_transfer c token to amount).
Proof.
  intros st1 st2 H. unfold token_transfer.
  apply eraseSt_inv in H. destruct H as (He & Hl & Hc). rewrite Hl.
  destruct ledger_transfer; [|reflexivity]. split; [reflexivity|].
  unfold eraseSt. cbn [eng led calls]. rewrite !map_app, Hc, He. cbn [map].
  unfold eraseCall at 2 4. cbn [xc_token xc_from xc_to xc_amount xc_storage].
  rewrite He. reflexivity.
Qed.

Lemma respects_token_transferFrom c token from to amount :
  respects (token_transferFrom c token from to amount).
Proof.
  intros st1 st2 H. unfold token_transferFrom.
  apply eraseSt_inv in H. destruct H as (He & Hl & Hc). rewrite Hl.
  destruct ledger_transferFrom; [|reflexivity]. split; [reflexivity|].
  unfold eraseSt. cbn [eng led calls]. rewrite !map_app, Hc, He. cbn [map].
  unfold eraseCall at 2 4. cbn [xc_token xc_from xc_to xc_amount xc_storage].
  rewrite He. reflexivity.
Qed.

Lemma updMarket_erase m f e :
  (forall x, Market.set_earlyResolutionAllowed false
               (f (Market.set_earlyResolutionAllowed false x))
             = Market.set_earlyResolutionAllowed false (f x)) ->
  eraseEarly (updMarket m f (eraseEarly e)) = eraseEarly (updMarket m f e).
Proof.
  intros Hf. unfold updMarket. rewrite getMarket_eraseEarly.
  unfold eraseEarly. cbn_storage.
  rewrite !fmap_insert, fmap_erase_idemp, Hf. reflexivity.
Qed.

Lemma set_markets_at_erase m v e :
  eraseEarly (set_markets_at m v (eraseEarly e)) = eraseEarly (set_markets_at m v e).
Proof.
  unfold set_markets_at, eraseEarly. cbn_storage.
  rewrite !fmap_insert, fmap_erase_idemp. reflexivity.
Qed.

Lemma initOptions_options mid i ns ds s p e1 e2 :
  options e1 = options e2 ->
  options (initOptions mid i ns ds s p e1) = options (initOptions mid i ns ds s p e2).
Proof.
  revert i ds e1 e2. induction ns as [|n ns IH]; intros i ds e1 e2 H; [exact H|].
  destruct ds as [|d ds]; [exact H|]. cbn [initOptions]. apply IH.
  cbn_storage. rewrite H. reflexivity.
Qed.

Lemma initOptions_erase mid i ns ds s p e :
  eraseEarly (initOptions mid i ns ds s p (eraseEarly e))
  = eraseEarly (initOptions mid i ns ds s p e).
Proof.
  rewrite (initOptions_frame mid i ns ds s p (eraseEarly e)).
  rewrite (initOptions_frame mid i ns ds s p e).
  rewrite (initOptions_options mid i ns ds s p (eraseEarly e) e) by reflexivity.
  unfold eraseEarly. cbn_storage. rewrite fmap_erase_idemp. reflexivity.
Qed.

Lemma sumWeightedShares_erase e m o s idx acc :
  sumWeightedShares (eraseEarly e) m o s idx acc = sumWeightedShares e m o s idx acc.
Proof.
  revert acc. induction idx as [|i rest IH]; intros acc; [reflexivity|].
  cbn [sumWeightedShares]. change (getOption (eraseEarly e) m i) with (getOption e m i).
  destruct (U256.add _ _); [|reflexivity]. apply IH.
Qed.

Lemma calculatePrice_erase e m o s :
  _calculatePrice (eraseEarly e) m o s = _calculatePrice e m o s.
Proof.
  unfold _calculatePrice. rewrite getMarket_eraseEarly, sumWeightedShares_erase.
  reflexivity.
Qed.

Lemma calculateBuyCost_erase e m o q :
  _calculateBuyCost (eraseEarly e) m o q = _calculateBuyCost e m o q.
Proof.
  unfold _calculateBuyCost. change (getOption (eraseEarly e) m o) with (getOption e m o).
  destruct (U256.add _ _); [|reflexivity]. cbn [rbind].
  destruct (U256.div _ _); [|reflexivity]. cbn [rbind].
  destruct (U256.add _ _); [|reflexivity]. cbn [rbind].
  rewrite calculatePrice_erase. reflexivity.
Qed.

Lemma calculateSellProceeds_erase e m o q :
  _calculateSellProceeds (eraseEarly e) m o q = _calculateSellProceeds e m o q.
Proof.
  unfold _calculateSellProceeds. change (getOption (eraseEarly e) m o) with (getOption e m o).
  destruct (negb _); [reflexivity|].
  destruct (U256.div _ _); [|reflexivity]. cbn [rbind].
  destruct (U256.sub _ _); [|reflexivity]. cbn [rbind].
  rewrite calculatePrice_erase. reflexivity.
Qed.

Ltac solve_get :=
  intros;
  rewrite ?getMarket_eraseEarly, ?calculatePrice_erase, ?calculateBuyCost_erase,
    ?calculateSellProceeds_erase;
  reflexivity.

Ltac solve_mod :=
  intros;
  first
    [ apply updMarket_erase; intros; reflexivity
    | apply set_markets_at_erase
    | apply initOptions_erase
    | unfold eraseEarly, updOption, updFreeConfig, updPortfolio, setShares, setCostBasis,
        pushTrade, pushPricePoint, pushCategoryMarket, pushMarketByType;
      cbn_storage; rewrite ?fmap_erase_idemp; reflexivity ].

Ltac respects_step :=
  first
    [ apply respects_bind; [|intros]
    | apply respects_ret
    | apply respects_fail
    | apply respects_require
    | apply respects_guard
    | apply respects_lift
    | apply respects_token_transfer
    | apply respects_token_transferFrom
    | apply respects_gets; solve_get
    | apply respects_view; solve_get
    | apply respects_modify; solve_mod
    | apply respects_addTo; [solve_get | solve_mod]
    | apply respects_subFrom; [solve_get | solve_mod]
    | match goal with |- respects (if ?b then _ else _) => destruct b end ].

(** No operation reads the flag. *)
Lemma exec_respects c o : respects (exec c o).
Proof.
  destruct o; cbn [exec];
    unfold createMarketWithToken, _createMarket, buyShares, sellShares, resolveMarket,
      invalidateMarket, validateMarket, disputeMarket, claimWinnings, claimFreeTokens,
      withdrawAdminLiquidity, withdrawPlatformFees, withdrawPlatformFeesForToken,
      emergencyWithdraw, emergencyWithdrawToken, setPlatformFeeRate, setFeeCollector,
      setFreeClaimHandler, addWhitelistedToken, removeWhitelistedToken, pause, unpause,
      grantQuestionCreatorRole, grantQuestionResolveRole, grantMarketValidatorRole,
      grantRole, revokeRole, renounceRole, transferOwnership, renounceOwnership,
      whenNotPaused, whenPaused, onlyRole, onlyOwner, marketExists, marketNotResolved,
      marketNotInvalidated, marketActive, marketEnded, _updatePrice;
    repeat respects_step.
Qed.

Lemma step_respects cl w1 w2 :
  eraseWorld w1 = eraseWorld w2 ->
  match step cl w1, step cl w2 with
  | Ok (w1', l1), Ok (w2', l2) =>
      eraseWorld w1' = eraseWorld w2' /\ map eraseCall l1 = map eraseCall l2
  | Err e1, Err e2 => e1 = e2
  | _, _ => False
  end.
Proof.
  intros H. unfold step.
  assert (Ht : w_this w1 = w_this w2) by exact (f_equal w_this H).
  assert (He : eraseEarly (w_eng w1) = eraseEarly (w_eng w2)) by exact (f_equal w_eng H).
  assert (Hl : w_led w1 = w_led w2) by exact (f_equal w_led H).
  rewrite Ht.
  pose proof (exec_respects (mkCtx (c_sender cl) (c_now cl) (w_this w2)) (c_op cl)
                (mkSt (w_eng w1) (w_led w1) []) (mkSt (w_eng w2) (w_led w2) [])) as Hr.
  destruct (exec _ _ (mkSt (w_eng w1) _ _)) as [[[] s1]|e1],
           (exec _ _ (mkSt (w_eng w2) _ _)) as [[[] s2]|e2];
    try (apply Hr; unfold eraseSt; cbn [eng led calls]; rewrite He, Hl; reflexivity).
  destruct Hr as [_ Hs]; [unfold eraseSt; cbn [eng led calls]; rewrite He, Hl; reflexivity|].
  apply eraseSt_inv in Hs. destruct Hs as (He' & Hl' & Hc').
  unfold eraseWorld. cbn [w_this w_eng w_led]. rewrite He', Hl'. auto.
Qed.

Lemma resolveMarket_before_end c m o st :
  block_timestamp c < Market.endTime (getMarket (eng st) m) ->
  exists err, resolveMarket c m o st = Err err /\
    (hasRole (eng st) QUESTION_RESOLVE_ROLE (msg_sender c) = true ->
     m < marketCount (eng st) -> err = Revert "Market not ended").
Proof.
  intros Ht.
  destruct (resolveMarket c m o st) as [[[] st']|err] eqn:H.
  - exfalso. destruct st as [e l cs]. unfold_ops_in H. minv H. bool_hyps.
    cbn [eng] in Ht. unfold getMarket in Ht. lia.
  - exists err. split; [reflexivity|]. intros Hrole Hm.
    apply N.ltb_lt in Hm. apply N.leb_gt in Ht.
    revert H. cbv [resolveMarket onlyRole marketExists marketEnded bind gets guard require
                   ret fail].
    rewrite Hrole; cbn [negb]. rewrite Hm; cbn [negb]. rewrite Ht. congruence.
Qed.

Lemma createMarket_meta c q d ns ds dur cat ty liq early fp tok st st' :
  exec c (CreateMarketWithToken q d ns ds dur cat ty liq early fp tok) st = Ok (tt, st') ->
  getMarketExtendedMeta (eng st') (marketCount (eng st))
  = Ok (0, false, false, msg_sender c, early).
Proof.
  intros H. destruct st as [e l cs]. exec_inv H; cbn [eng];
    unfold getMarketExtendedMeta; rewrite initOptions_frame; storage_goal;
    rewrite lookup_insert_eq; cbn_storage;
    (replace (marketCount e <? marketCount e + 1) with true
       by (symmetry; apply N.ltb_lt; lia)); reflexivity.
Qed.

(** C10. The earlyResolutionAllowed flag is stored at creation and returned
    by the extended-metadata accessor, and nothing else depends on it: any
    call run in two worlds that differ in those flags at most fails with the
    same error in both, or succeeds in both with the same token calls and
    worlds that again differ in the flags at most.  In particular
    resolveMarket before the end time fails whatever the flag is. *)
Theorem early_resolution_flag_inert (cl : Call) (w1 w2 : World) :
  eraseWorld w1 = eraseWorld w2 ->
  match step cl w1, step cl w2 with
  | Ok (w1', l1), Ok (w2', l2) =>
      eraseWorld w1' = eraseWorld w2' /\ map eraseCall l1 = map eraseCall l2
  | Err e1, Err e2 => e1 = e2
  | _, _ => False
  end /\
  (forall m o,
     c_op cl = ResolveMarket m o ->
     c_now cl < Market.endTime (getMarket (w_eng w1) m) ->
     exists err, step cl w1 = Err err /\
       (hasRole (w_eng w1) QUESTION_RESOLVE_ROLE (c_sender cl) = true ->
        m < marketCount (w_eng w1) -> err = Revert "Market not ended")) /\
  (forall q d ns ds dur cat ty liq early fp tok w' l,
     c_op cl = CreateMarketWithToken q d ns ds dur cat ty liq early fp tok ->
     step cl w1 = Ok (w', l) ->
     getMarketExtendedMeta (w_eng w') (marketCount (w_eng w1))
     = Ok (0, false, false, c_sender cl, early)).
Proof.
  intros H. split; [apply step_respects, H|]. split.
  - intros m o Hop Ht. unfold step. rewrite Hop. cbn [exec].
    destruct (resolveMarket_before_end
                (mkCtx (c_sender cl) (c_now cl) (w_this w1)) m o
                (mkSt (w_eng w1) (w_led w1) []) Ht) as (err & -> & Herr).
    exists err. split; [reflexivity | exact Herr].
  - intros q d ns ds dur cat ty liq early fp tok w' l Hop Hs.
    apply step_ok in Hs. destruct Hs as (st' & Hs & -> & _). rewrite Hop in Hs.
    apply createMarket_meta in Hs. exact Hs.
Qed.

Lemma early_resolution_flag_inert_witness :
  eraseWorld Scenario.created = eraseWorld Scenario.createdNoEarly /\
  Market.earlyResolutionAllowed (getMarket (w_eng Scenario.created) 0) = true /\
  Market.earlyResolutionAllowed (getMarket (w_eng Scenario.createdNoEarly) 0) = false /\
  step Scenario.resolveEarly Scenario.created = Err (Revert "Market not ended") /\
  step Scenario.resolveEarly Scenario.createdNoEarly = Err (Revert "Market not ended").
Proof.
  assert (He : eraseWorld Scenario.created = eraseWorld Scenario.createdNoEarly)
    by (vm_compute; reflexivity).
  destruct (early_resolution_flag_inert Scenario.resolveEarly Scenario.created
              Scenario.createdNoEarly He) as (Hsim & Hres & _).
  destruct (Hres 0 0 eq_refl) as (err & Hstep & Herr); [vm_compute; reflexivity|].
  rewrite Herr in Hstep by (vm_compute; reflexivity).
  split; [exact He|]. split; [vm_compute; reflexivity|]. split; [vm_compute; reflexivity|].
  split; [exact Hstep|].
  rewrite Hstep in Hsim.
  destruct (step Scenario.resolveEarly Scenario.createdNoEarly) as [[w l]|e];
    [contradiction | rewrite Hsim; reflexivity].
Defined.

(** * Further properties *)

(** ** Engine-wide settings *)

Lemma ledger_transfer_zero from to amount l l' :
  ledger_transfer 0 from to amount l = Ok l' -> False.
Proof. unfold ledger_transfer. cbn. discriminate. Qed.

Lemma exec_configSound c o st st' :
  exec c o st = Ok (tt, st') -> configSound (eng st) -> configSound (eng st').
Proof.
  intros H (Hr & Hb & Hw & Hz & Hm). destruct st as [e l cs]. unfold configSound.
  cbn [eng] in *.
  destruct o; exec_inv H; cbn [eng]; try (rewrite initOptions_frame); storage_goal;
    bool_hyps.
  all: try solve [repeat split; first [assumption | lia | apply Hm]].
  all: try (rewrite Hb in *; exfalso; eapply ledger_transfer_zero; eassumption).
  all: unfold isWhitelisted, getMarket in *.
  all: repeat split; try assumption; try lia.
  all: try (intros m' Hm'; split_lookup; cbn_storage; try (apply Hm; lia)).
  all: rinv_all; try lia.
  all: repeat match goal with
       | H : bool_decide _ = true |- _ => apply bool_decide_eq_true in H
       | H : bool_decide _ = false |- _ => apply bool_decide_eq_false in H
       | H : (_ =? _) = false |- _ => apply N.eqb_neq in H
       end; rewrite ?bool_decide_eq_false; try congruence; try set_solver.
Qed.

Lemma reachable_configSound w : reachable w -> configSound (w_eng w).
Proof.
  apply reachable_invariant.
  - apply exec_configSound.
  - intros d t e H. unfold constructor in H.
    destruct (N.eqb_spec t 0) as [|Hne]; [discriminate|]. inversion H; subst.
    unfold configSound, isWhitelisted. cbn.
    repeat split; try lia; try (apply bool_decide_eq_false; set_solver).
Qed.

Lemma deprecated_slot_transfers_fail c o st :
  bettingToken (eng st) = 0 ->
  match o with
  | WithdrawPlatformFees | EmergencyWithdraw _ => exists err, exec c o st = Err err
  | _ => True
  end.
Proof.
  intros Hb. destruct o; try exact I.
  - destruct (exec c WithdrawPlatformFees st) as [[[] st']|err] eqn:H; [|eauto].
    exfalso. destruct st as [e l cs]. exec_inv H. cbn [eng] in Hb. rewrite Hb in Htr.
    eapply ledger_transfer_zero; eassumption.
  - destruct (exec c (EmergencyWithdraw _amount) st) as [[[] st']|err] eqn:H; [|eauto].
    exfalso. destruct st as [e l cs]. exec_inv H. cbn [eng] in Hb. rewrite Hb in Htr.
    eapply ledger_transfer_zero; eassumption.
Qed.

(** X1. The [bettingToken] slot of the engine is declared but never written:
    in every reachable world it is the zero address, which is not
    whitelisted and is the betting token of no market.  withdrawPlatformFees
    and emergencyWithdraw address their transfer to that slot, so they
    revert for every sender, time and amount, and the withdrawn-fees counter
    stays 0; fees can leave through withdrawPlatformFeesForToken only. *)
Theorem deprecated_token_withdrawals_revert (w : World) :
  reachable w ->
  bettingToken (w_eng w) = 0 /\
  isWhitelisted (w_eng w) 0 = false /\
  (forall m, m < marketCount (w_eng w) ->
     Market.bettingToken (getMarket (w_eng w) m) <> 0) /\
  totalWithdrawnPlatformFees (w_eng w) = 0 /\
  (forall sender now, exists err,
     step (mkCall sender now WithdrawPlatformFees) w = Err err) /\
  (forall sender now amount, exists err,
     step (mkCall sender now (EmergencyWithdraw amount)) w = Err err).
Proof.
  intros Hr. destruct (reachable_configSound w Hr) as (_ & Hb & Hw & Hz & Hm).
  repeat split; try assumption.
  - intros sender now. unfold step. cbn [c_op c_sender c_now].
    destruct (deprecated_slot_transfers_fail (mkCtx sender now (w_this w))
                WithdrawPlatformFees (mkSt (w_eng w) (w_led w) []) Hb) as [err ->].
    eauto.
  - intros sender now amount. unfold step. cbn [c_op c_sender c_now].
    destruct (deprecated_slot_transfers_fail (mkCtx sender now (w_this w))
                (EmergencyWithdraw amount) (mkSt (w_eng w) (w_led w) []) Hb) as [err ->].
    eauto.
Qed.

Lemma deprecated_token_withdrawals_revert_witness :
  totalUnlockedPlatformFees (w_eng Scenario.resolved) = 1 /\
  owner (w_eng Scenario.resolved) = Scenario.operator /\
  exists err,
    step (mkCall Scenario.operator 90002 WithdrawPlatformFees) Scenario.resolved = Err err.
Proof.
  assert (Hr : reachable Scenario.resolved) by apply run_reachable, reachable_world0.
  destruct (deprecated_token_withdrawals_revert Scenario.resolved Hr)
    as (_ & _ & _ & _ & Hfee & _).
  split; [vm_compute; reflexivity|]. split; [vm_compute; reflexivity|].
  exact (Hfee Scenario.operator 90002).
Defined.

(** ** Buying *)

(** The price formula reads the option count of the market and the stored
    shares of the other options, nothing else. *)
Lemma sumWeightedShares_ext e1 e2 m o s idx acc :
  (forall i, i <> o ->
     Option.totalShares (getOption e1 m i) = Option.totalShares (getOption e2 m i)) ->
  sumWeightedShares e1 m o s idx acc = sumWeightedShares e2 m o s idx acc.
Proof.
  intros Hs. revert acc. induction idx as [|i rest IH]; intros acc; [reflexivity|].
  cbn [sumWeightedShares]. destruct (N.eqb_spec i o) as [->|Hne].
  - destruct (U256.add acc s); cbn [rbind]; [apply IH | reflexivity].
  - rewrite (Hs i Hne). destruct (U256.add acc _); cbn [rbind]; [apply IH | reflexivity].
Qed.

Lemma calculatePrice_ext e1 e2 m o s :
  Market.optionCount (getMarket e1 m) = Market.optionCount (getMarket e2 m) ->
  (forall i, i <> o ->
     Option.totalShares (getOption e1 m i) = Option.totalShares (getOption e2 m i)) ->
  _calculatePrice e1 m o s = _calculatePrice e2 m o s.
Proof.
  intros Hn Hs. unfold _calculatePrice. rewrite Hn.
  rewrite (sumWeightedShares_ext e1 e2 m o s _ 0 Hs). reflexivity.
Qed.

(** What a successful buy checks, charges and writes. *)
Lemma buyShares_effects c m o q maxP maxT st st' :
  buyShares c m o q maxP maxT st = Ok (tt, st') ->
  let e := eng st in
  let e' := eng st' in
  let u := msg_sender c in
  exists cost,
    _calculateBuyCost e m o q = Ok cost /\
    let fee := cost * platformFeeRate e / 1000 in
    paused e = false /\ m < marketCount e /\
    block_timestamp c < Market.endTime (getMarket e m) /\
    Market.resolved (getMarket e m) = false /\
    Market.invalidated (getMarket e m) = false /\
    o < Market.optionCount (getMarket e m) /\ 0 < q /\
    cost * E18 / q <= maxP /\ cost <= maxT /\
    calls st' = calls st ++
      [mkExtCall (Market.bettingToken (getMarket e m)) u (this c) (cost + fee) e] /\
    getShares e' u m o = getShares e u m o + q /\
    getCostBasis e' u m o = getCostBasis e u m o + cost /\
    Option.totalShares (getOption e' m o) = Option.totalShares (getOption e m o) + q /\
    Market.userLiquidity (getMarket e' m) = Market.userLiquidity (getMarket e m) + cost /\
    Market.platformFeesCollected (getMarket e' m)
      = Market.platformFeesCollected (getMarket e m) + fee /\
    _calculatePrice e' m o (Option.totalShares (getOption e' m o))
      = Ok (Option.currentPrice (getOption e' m o)).
Proof.
  intros H. destruct st as [e l cs]. unfold_ops_in H. minv H.
  cbn [eng led calls]. storage_goal.
  rewrite !lookup_insert_eq. cbn_storage.
  bool_hyps. rinv Hl. rinv Hl0. rinv Hl1. rinv Hl2. rinv Hl3.
  eexists. split; [eassumption|].
  cbn zeta. repeat split; try assumption; try reflexivity.
  esimp_in Hv0. etransitivity; [|exact Hv0].
  apply calculatePrice_ext; storage_goal; intros;
    rewrite ?lookup_insert_eq, ?lookup_insert_ne by congruence; reflexivity.
Qed.

Lemma fee_tenth cost rate : rate <= 100 -> 10 * (cost * rate / 1000) <= cost.
Proof.
  intros Hr.
  assert (H1 : cost * rate / 1000 <= cost * 100 / 1000)
    by (apply N.Div0.div_le_mono; nia).
  assert (H2 : cost * 100 / 1000 = cost / 10).
  { change 1000 with (10 * 100). apply N.Div0.div_mul_cancel_r. discriminate. }
  pose proof (N.Div0.mul_div_le cost 10). lia.
Qed.

(** X2. A successful buy of [q] shares in a reachable world charges the
    buyer once, before any storage write: the cost of the price formula plus
    the fee [cost * platformFeeRate / 1000], taken by one transferFrom into
    the engine.  The fee is at most a tenth of the cost, the cost is at most
    [q] and at most the buyer's [_maxTotalCost] (the limit does not include
    the fee), the buyer's shares grow by exactly [q], and the stored price
    of the traded option is the price formula at its new shares. *)
Theorem buy_charges_cost_plus_fee (w w' : World) (buyer now m o q maxP maxT : N)
  (l : list ExtCall) :
  reachable w ->
  step (mkCall buyer now (BuyShares m o q maxP maxT)) w = Ok (w', l) ->
  let e := w_eng w in
  let e' := w_eng w' in
  exists cost fee,
    _calculateBuyCost e m o q = Ok cost /\
    fee = cost * platformFeeRate e / 1000 /\
    l = [mkExtCall (Market.bettingToken (getMarket e m)) buyer (w_this w) (cost + fee) e] /\
    10 * fee <= cost /\ cost <= q /\ cost <= maxT /\
    getShares e' buyer m o = getShares e buyer m o + q /\
    Option.totalShares (getOption e' m o) = Option.totalShares (getOption e m o) + q /\
    _calculatePrice e' m o (Option.totalShares (getOption e' m o))
      = Ok (Option.currentPrice (getOption e' m o)).
Proof.
  intros Hr H e e'.
  destruct (reachable_configSound w Hr) as (Hrate & _).
  apply step_ok in H. destruct H as (st' & H & -> & ->).
  cbn [c_op c_sender c_now exec] in H. apply buyShares_effects in H.
  cbn [eng led calls msg_sender this block_timestamp] in H.
  destruct H as (cost & Hc & _ & _ & _ & _ & _ & Ho & _ & _ & HmaxT & Hcalls & Hsh & _ &
                 Hts & _ & _ & Hp).
  exists cost, (cost * platformFeeRate (w_eng w) / 1000). subst e e'. cbn [w_eng].
  split; [exact Hc|]. split; [reflexivity|]. split; [exact Hcalls|].
  split; [apply fee_tenth, Hrate|].
  split; [eapply calculateBuyCost_le; eassumption|].
  repeat split; assumption.
Qed.

Lemma buy_charges_cost_plus_fee_witness :
  exists w' l,
    step Scenario.buyYes Scenario.created = Ok (w', l) /\
    map xc_amount l = [53] /\
    getShares (w_eng w') Scenario.alice 0 0 = 100.
Proof.
  assert (Hr : reachable Scenario.created) by apply run_reachable, reachable_world0.
  destruct (step Scenario.buyYes Scenario.created) as [[w' l]|err] eqn:H;
    [|vm_compute in H; discriminate].
  exists w', l. split; [reflexivity|].
  destruct (buy_charges_cost_plus_fee Scenario.created w' Scenario.alice 2000 0 0 100 E18
              1000 l Hr H) as (cost & fee & Hc & Hf & Hl & _ & _ & _ & Hs & _).
  assert (Hcost : cost = 52) by (vm_compute in Hc; congruence).
  rewrite Hl, Hs, Hf, Hcost. split; reflexivity.
Defined.

(** ** Who may change what *)

Lemma exec_settings c o st st' :
  exec c o st = Ok (tt, st') ->
  (msg_sender c <> owner (eng st) -> settings (eng st') = settings (eng st)) /\
  (hasRole (eng st) DEFAULT_ADMIN_ROLE (msg_sender c) = false ->
   forall r a, hasRole (eng st') r a = true -> hasRole (eng st) r a = true).
Proof.
  intros H. destruct st as [e l cs]. cbn [eng].
  destruct o; exec_inv H; cbn [eng]; try (rewrite initOptions_frame);
    unfold settings; storage_goal; bool_hyps.
  all: split; [intros Hno; try reflexivity; try congruence | intros Hna r' a' Hh].
  all: try assumption.
  all: unfold hasRole in *; try congruence.
  all: apply bool_decide_eq_true in Hh; apply bool_decide_eq_true; set_solver.
Qed.

(** X3. The fee rate, the fee collector, the free-claim handler, the token
    whitelist, the pause flag and the owner are changed by calls of the
    owner only: a successful call of anybody else leaves them as they were.
    A successful call of an account without the default admin role grants
    no role to anybody (it can only give up a role of its own). *)
Theorem settings_owner_only (cl : Call) (w w' : World) (l : list ExtCall) :
  step cl w = Ok (w', l) ->
  (c_sender cl <> owner (w_eng w) -> settings (w_eng w') = settings (w_eng w)) /\
  (hasRole (w_eng w) DEFAULT_ADMIN_ROLE (c_sender cl) = false ->
   forall r a, hasRole (w_eng w') r a = true -> hasRole (w_eng w) r a = true).
Proof.
  intros H. apply step_ok in H. destruct H as (st' & H & -> & _).
  apply exec_settings in H. exact H.
Qed.

Lemma settings_owner_only_witness :
  exists w' l,
    step Scenario.buyYes Scenario.created = Ok (w', l) /\
    settings (w_eng w') = settings (w_eng Scenario.created).
Proof.
  destruct (step Scenario.buyYes Scenario.created) as [[w' l]|err] eqn:H;
    [|vm_compute in H; discriminate].
  exists w', l. split; [reflexivity|].
  apply (settings_owner_only Scenario.buyYes Scenario.created w' l H).
  vm_compute. discriminate.
Defined.

(** ** Pausing *)

Lemma exec_paused c o e l st' :
  exec c o (mkSt e l []) = Ok (tt, st') -> paused e = true ->
  marketCount (eng st') = marketCount e /\
  globalTradeCount (eng st') = globalTradeCount e /\
  Forall (outgoing (this c)) (calls st').
Proof.
  intros H Hp.
  destruct o; exec_inv H; cbn [eng calls]; storage_goal; bool_hyps; try congruence.
  all: repeat split; try reflexivity; try apply Forall_nil.
  all: cbn [app]; apply Forall_cons; [reflexivity | apply Forall_nil].
Qed.

Lemma paused_rejects c o st :
  paused (eng st) = true ->
  match o with
  | CreateMarketWithToken _ _ _ _ _ _ _ _ _ _ _ | BuyShares _ _ _ _ _
  | SellShares _ _ _ _ _ => exec c o st = Err EnforcedPause
  | _ => True
  end.
Proof.
  intros Hp. destruct o; try exact I; cbn [exec];
    cbv [createMarketWithToken buyShares sellShares whenNotPaused bind gets guard ret fail];
    rewrite Hp; reflexivity.
Qed.

(** X4. While the engine is paused, market creation, buying and selling fail
    with the pause error, whatever their arguments.  Every call that still
    succeeds creates no market, records no trade and takes no tokens in:
    each token call it makes is a transfer out of the engine. *)
Theorem paused_takes_nothing_in (cl : Call) (w : World) :
  paused (w_eng w) = true ->
  match c_op cl with
  | CreateMarketWithToken _ _ _ _ _ _ _ _ _ _ _ | BuyShares _ _ _ _ _
  | SellShares _ _ _ _ _ => step cl w = Err EnforcedPause
  | _ => True
  end /\
  (forall w' l, step cl w = Ok (w', l) ->
     marketCount (w_eng w') = marketCount (w_eng w) /\
     globalTradeCount (w_eng w') = globalTradeCount (w_eng w) /\
     Forall (outgoing (w_this w)) l).
Proof.
  intros Hp. split.
  - pose proof (paused_rejects (mkCtx (c_sender cl) (c_now cl) (w_this w)) (c_op cl)
                  (mkSt (w_eng w) (w_led w) []) Hp) as H.
    unfold step. destruct (c_op cl); try exact I; rewrite H; reflexivity.
  - intros w' l H. apply step_ok in H. destruct H as (st' & H & -> & ->).
    apply exec_paused in H; [|exact Hp]. exact H.
Qed.

Lemma paused_takes_nothing_in_witness :
  paused (w_eng Demo.pausedWorld) = true /\
  step Scenario.sellYes Demo.pausedWorld = Err EnforcedPause /\
  forall w' l, step Scenario.resolveYes Demo.pausedWorld = Ok (w', l) ->
    marketCount (w_eng w') = 1 /\ Forall (outgoing Scenario.self) l.
Proof.
  assert (Hp : paused (w_eng Demo.pausedWorld) = true) by (vm_compute; reflexivity).
  split; [exact Hp|]. split.
  - exact (proj1 (paused_takes_nothing_in Scenario.sellYes Demo.pausedWorld Hp)).
  - intros w' l H.
    destruct (proj2 (paused_takes_nothing_in Scenario.resolveYes Demo.pausedWorld Hp) w' l H)
      as (Hc & _ & Hl).
    split; [rewrite Hc; vm_compute; reflexivity | exact Hl].
Defined.

(** ** Market creation *)

(** X5. [_calculateLMSRB] fails exactly when the option count is zero or one
    of the two scalings by 1e18 overflows; otherwise it returns the
    liquidity per option clamped into [MIN_LMSR_B, MAX_LMSR_B]. *)
Theorem lmsrB_clamped (liq n b : N) :
  _calculateLMSRB liq n = Ok b <->
  0 < n /\ liq * E18 <= MAX_UINT256 /\ n * E18 <= MAX_UINT256 /\
  b = clampB (liq / n) /\ MIN_LMSR_B <= b <= MAX_LMSR_B.
Proof.
  assert (HE : E18 <> 0) by discriminate.
  assert (Hmm : MIN_LMSR_B <= MAX_LMSR_B) by (vm_compute; discriminate).
  assert (Hclamp : forall x,
    (if MAX_LMSR_B <? (if x <? MIN_LMSR_B then MIN_LMSR_B else x) then MAX_LMSR_B
     else (if x <? MIN_LMSR_B then MIN_LMSR_B else x)) = clampB x).
  { intros x. unfold clampB.
    destruct (N.ltb_spec x MIN_LMSR_B);
      match goal with |- context [MAX_LMSR_B <? ?y] => destruct (N.ltb_spec MAX_LMSR_B y) end;
      lia. }
  split.
  - intros H. unfold _calculateLMSRB in H. rinv H.
    assert (Hn : n <> 0) by (intros ->; auto).
    rewrite N.Div0.div_mul_cancel_r, Hclamp by exact HE.
    repeat split; try assumption; try lia; unfold clampB; lia.
  - intros (Hn & Hl & Hd & -> & _). unfold _calculateLMSRB, U256.mul, U256.div.
    apply N.leb_le in Hl, Hd. rewrite Hl, Hd. cbn [rbind].
    destruct (N.eqb_spec (n * E18) 0) as [H0|_]; [nia|]. cbv zeta.
    rewrite N.Div0.div_mul_cancel_r by exact HE. cbn [rbind]. rewrite Hclamp. reflexivity.
Qed.

(** The option-initialisation loop writes the options [i0, i0 + 1, ...] of
    the new market, one per name. *)
Lemma initOptions_other mid i0 ns ds s p e m' o :
  m' <> mid ->
  options (initOptions mid i0 ns ds s p e) !! (m', o) = options e !! (m', o).
Proof.
  intros Hne. revert i0 ds e. induction ns as [|n ns IH]; intros i0 ds e; [reflexivity|].
  destruct ds as [|d ds]; [reflexivity|]. cbn [initOptions]. rewrite IH. cbn_storage.
  apply lookup_insert_ne. congruence.
Qed.

Lemma initOptions_lookup mid i0 ns ds s p e k :
  length ds = length ns ->
  options (initOptions mid i0 ns ds s p e) !! (mid, k) =
  if (i0 <=? k) && (k <? i0 + N.of_nat (length ns))
  then Some (Option.mk (nth (N.to_nat (k - i0)) ns EmptyString)
               (nth (N.to_nat (k - i0)) ds EmptyString) s 0 p true)
  else options e !! (mid, k).
Proof.
  revert i0 ds e. induction ns as [|n ns IH]; intros i0 ds e Hlen.
  - cbn [initOptions length]. destruct (N.leb_spec i0 k); destruct (N.ltb_spec k (i0 + N.of_nat 0));
      cbn [andb]; try reflexivity; lia.
  - destruct ds as [|d ds]; [discriminate|]. cbn [initOptions]. rewrite IH by (cbn [length] in Hlen; congruence).
    cbn_storage. cbn [length].
    destruct (N.leb_spec (i0 + 1) k); destruct (N.ltb_spec k (i0 + 1 + N.of_nat (length ns)));
      destruct (N.leb_spec i0 k); destruct (N.ltb_spec k (i0 + N.of_nat (S (length ns))));
      cbn [andb]; try lia.
    all: try (replace (N.to_nat (k - i0)) with (S (N.to_nat (k - (i0 + 1)))) by lia;
              reflexivity).
    all: try (assert (k = i0) by lia; subst k; rewrite lookup_insert_eq, N.sub_diag;
              reflexivity).
    all: apply lookup_insert_ne; intros [=]; lia.
Qed.

(** What a successful creation checks, charges and writes. *)
Lemma createMarket_effects c q d ns ds dur cat ty liq early fp tok st st' :
  exec c (CreateMarketWithToken q d ns ds dur cat ty liq early fp tok) st = Ok (tt, st') ->
  let e := eng st in
  let e' := eng st' in
  let m := marketCount e in
  let n := N.of_nat (length ns) in
  paused e = false /\ isWhitelisted e tok = true /\ q <> EmptyString /\
  2 <= n /\ length ds = length ns /\
  MIN_MARKET_DURATION <= dur <= MAX_MARKET_DURATION /\ 0 < liq /\
  marketCount e' = m + 1 /\
  getMarket e' m
    = Market.mk q d (block_timestamp c + dur) (block_timestamp c) cat ty (msg_sender c)
        false false false false 0 n 0 (clampB (liq / n)) liq 0 0 false early tok /\
  (forall i, i < n ->
     getOption e' m i
     = Option.mk (nth (N.to_nat i) ns EmptyString) (nth (N.to_nat i) ds EmptyString)
         (liq / n) 0 (E18 / n) true) /\
  calls st' = calls st ++
    [mkExtCall tok (msg_sender c) (this c) liq (set_marketCount (m + 1) e)] /\
  (forall m', m' <> m ->
     getMarket e' m' = getMarket e m' /\
     forall o, getOption e' m' o = getOption e m' o).
Proof.
  intros H. destruct st as [e l cs].
  assert (Hq : forall s, 0 < N.of_nat (String.length s) -> s <> EmptyString)
    by (intros s Hs ->; cbn in Hs; lia).
  exec_inv H; cbn [eng calls]; rewrite initOptions_frame; storage_goal; bool_hyps.
  all: apply lmsrB_clamped in Hl0; destruct Hl0 as (_ & _ & _ & -> & _).
  all: rinv Hl; rinv Hl1; rinv Hl2.
  all: assert (Hlen : length ds = length ns) by lia.
  all: rewrite !lookup_insert_eq; cbn_storage.
  all: repeat match goal with |- _ /\ _ => split end; try assumption; try reflexivity;
       try (apply Hq; assumption).
  all: try (intros i Hi; rewrite initOptions_lookup by exact Hlen; cbn_storage;
            rewrite N.sub_0_r, N.add_0_l;
            destruct (N.leb_spec 0 i); [|lia];
            destruct (N.ltb_spec i (N.of_nat (length ns))); [|lia]; reflexivity).
  all: intros m' Hm'; rewrite lookup_insert_ne by congruence; split; [reflexivity|];
       intros o; rewrite initOptions_other by exact Hm'; reflexivity.
Qed.

(** A read of key [k'] after a write of key [k], for keys of any shape. *)
Ltac split_key :=
  match goal with
  | |- context [ <[?k := _]> _ !! ?k' ] =>
      let Heq := fresh "Heq" in let Hne := fresh "Hne" in
      destruct (decide (k = k')) as [Heq|Hne];
      [ simplify_eq; rewrite ?lookup_insert_eq
      | rewrite ?lookup_insert_ne by assumption ]
  end.

(** No call changes the fixed terms of an existing market or of its
    options. *)
Lemma exec_terms c o st st' m :
  exec c o st = Ok (tt, st') ->
  m < marketCount (eng st) ->
  m < marketCount (eng st') /\
  marketTerms (getMarket (eng st') m) = marketTerms (getMarket (eng st) m) /\
  (forall i, optionTerms (getOption (eng st') m i) = optionTerms (getOption (eng st) m i)).
Proof.
  intros H Hm. destruct st as [e l cs]. cbn [eng] in *.
  destruct o.
  1: { apply createMarket_effects in H; cbn [eng] in H.
       destruct H as (_ & _ & _ & _ & _ & _ & _ & Hc & _ & _ & _ & Hother).
       destruct (Hother m) as [Hmk Hop]; [lia|].
       rewrite Hc, Hmk. split; [lia|]. split; [reflexivity|].
       intros i. rewrite Hop. reflexivity. }
  all: exec_inv H; cbn [eng]; unfold marketTerms, optionTerms; storage_goal; bool_hyps.
  all: split; [assumption|].
  all: split; [|intros i]; try reflexivity.
  all: repeat split_key; cbn_storage; reflexivity.
Qed.

(** Only creation moves the market count. *)
Lemma exec_count c o st st' :
  exec c o st = Ok (tt, st') ->
  match o with
  | CreateMarketWithToken _ _ _ _ _ _ _ _ _ _ _ =>
      marketCount (eng st') = marketCount (eng st) + 1
  | _ => marketCount (eng st') = marketCount (eng st)
  end.
Proof.
  intros H. destruct st as [e l cs]. cbn [eng].
  destruct o.
  1: { apply createMarket_effects in H; cbn [eng] in H.
       destruct H as (_ & _ & _ & _ & _ & _ & _ & Hc & _). exact Hc. }
  all: exec_inv H; cbn [eng]; storage_goal; reflexivity.
Qed.

(** X6. A successful createMarketWithToken was made while the engine is not
    paused, with a whitelisted token, a non-empty question, at least two
    options, as many descriptions as names, a duration within the bounds and
    a positive liquidity.  The new market takes the next identifier, its
    record holds the arguments, the end time [now + duration], the caller as
    creator and the clamped liquidity parameter; option [i] holds the i-th
    name and description, [liquidity / n] shares and the price [1e18 / n],
    and is active.  The liquidity is pulled from the creator in one
    transferFrom issued after the market count was raised, and no other
    market or option is touched. *)
Theorem create_market_effects (w w' : World) (sender now : N) (q d : string)
  (ns ds : list string) (dur : N) (cat : MarketCategory) (ty : MarketType) (liq : N)
  (early : bool) (fp : FreeMarketParams.t) (tok : address) (l : list ExtCall) :
  step (mkCall sender now (CreateMarketWithToken q d ns ds dur cat ty liq early fp tok)) w
  = Ok (w', l) ->
  let e := w_eng w in
  let e' := w_eng w' in
  let m := marketCount e in
  let n := N.of_nat (length ns) in
  paused e = false /\ isWhitelisted e tok = true /\ q <> EmptyString /\
  2 <= n /\ length ds = length ns /\
  MIN_MARKET_DURATION <= dur <= MAX_MARKET_DURATION /\ 0 < liq /\
  marketCount e' = m + 1 /\
  getMarket e' m
    = Market.mk q d (now + dur) now cat ty sender
        false false false false 0 n 0 (clampB (liq / n)) liq 0 0 false early tok /\
  (forall i, i < n ->
     getOption e' m i
     = Option.mk (nth (N.to_nat i) ns EmptyString) (nth (N.to_nat i) ds EmptyString)
         (liq / n) 0 (E18 / n) true) /\
  l = [mkExtCall tok sender (w_this w) liq (set_marketCount (m + 1) e)] /\
  (forall m', m' <> m ->
     getMarket e' m' = getMarket e m' /\
     forall o, getOption e' m' o = getOption e m' o).
Proof.
  intros H. apply step_ok in H. destruct H as (st' & H & -> & ->).
  cbn [c_op c_sender c_now] in H. apply createMarket_effects in H.
  cbn [eng calls msg_sender this block_timestamp app] in H. exact H.
Qed.

Lemma create_market_effects_witness :
  exists w' l,
    step (Scenario.createBinary true) Scenario.world0 = Ok (w', l) /\
    marketCount (w_eng w') = 1 /\
    Market.endTime (getMarket (w_eng w') 0) = 87400 /\
    Option.totalShares (getOption (w_eng w') 0 1) = 500 /\
    map xc_amount l = [1000].
Proof.
  destruct (step (Scenario.createBinary true) Scenario.world0) as [[w' l]|err] eqn:H;
    [|vm_compute in H; discriminate].
  exists w', l. split; [reflexivity|].
  destruct (create_market_effects _ _ _ _ _ _ _ _ _ _ _ _ _ _ _ _ H)
    as (_ & _ & _ & _ & _ & _ & _ & Hc & Hmk & Hop & Hl & _).
  assert (H1 : 1 < N.of_nat (length ["Yes"; "No"])) by (vm_compute; reflexivity).
  specialize (Hop 1 H1).
  change (marketCount (w_eng Scenario.world0)) with 0 in Hc, Hmk, Hop.
  rewrite Hc, Hmk, Hop, Hl. repeat split.
Defined.

Lemma run_terms cs w m :
  m < marketCount (w_eng w) ->
  m < marketCount (w_eng (run cs w)) /\
  marketTerms (getMarket (w_eng (run cs w)) m) = marketTerms (getMarket (w_eng w) m) /\
  (forall i, optionTerms (getOption (w_eng (run cs w)) m i)
             = optionTerms (getOption (w_eng w) m i)).
Proof.
  revert w. induction cs as [|cl cs IH]; intros w Hm; [auto|].
  rewrite run_cons.
  assert (Hstep : m < marketCount (w_eng (apply cl w)) /\
                  marketTerms (getMarket (w_eng (apply cl w)) m)
                  = marketTerms (getMarket (w_eng w) m) /\
                  (forall i, optionTerms (getOption (w_eng (apply cl w)) m i)
                             = optionTerms (getOption (w_eng w) m i))).
  { destruct (apply_cases cl w) as [(e & _ & ->)|(w' & l & H & ->)]; [auto|].
    apply step_ok in H. destruct H as (st' & H & -> & _).
    apply (exec_terms _ _ _ _ m H Hm). }
  destruct Hstep as (Hm' & Ht & Ho). destruct (IH _ Hm') as (Hm'' & Ht' & Ho').
  split; [exact Hm''|]. split; [congruence|]. intros i. rewrite Ho', Ho. reflexivity.
Qed.

(** X7. The terms of a market are fixed at creation: through every sequence
    of calls an existing market stays in existence and keeps its question,
    description, end time, creation time, category, type, creator, option
    count, liquidity parameter, initial liquidity, early-resolution flag and
    betting token, and each of its options keeps its name, description and
    active flag. *)
Theorem market_terms_fixed (w : World) (cs : list Call) (m : N) :
  m < marketCount (w_eng w) ->
  m < marketCount (w_eng (run cs w)) /\
  marketTerms (getMarket (w_eng (run cs w)) m) = marketTerms (getMarket (w_eng w) m) /\
  (forall i, optionTerms (getOption (w_eng (run cs w)) m i)
             = optionTerms (getOption (w_eng w) m i)).
Proof. apply run_terms. Qed.

Lemma market_terms_fixed_witness :
  Market.endTime (getMarket (w_eng Scenario.created) 0) = 87400 /\
  forall cs, Market.endTime (getMarket (w_eng (run cs Scenario.created)) 0) = 87400 /\
             Market.creator (getMarket (w_eng (run cs Scenario.created)) 0)
             = Scenario.operator.
Proof.
  split; [vm_compute; reflexivity|]. intros cs.
  assert (Hm : 0 < marketCount (w_eng Scenario.created)) by (vm_compute; reflexivity).
  destruct (market_terms_fixed Scenario.created cs 0 Hm) as (_ & Ht & _).
  unfold marketTerms in Ht. simplify_eq.
  split; [etransitivity; [eassumption | vm_compute; reflexivity]
         | etransitivity; [eassumption | vm_compute; reflexivity]].
Defined.

Lemma marketTerms_eq a b :
  marketTerms a = marketTerms b ->
  Market.optionCount a = Market.optionCount b /\
  Market.adminInitialLiquidity a = Market.adminInitialLiquidity b /\
  Market.createdAt a = Market.createdAt b /\
  Market.endTime a = Market.endTime b /\
  Market.lmsrB a = Market.lmsrB b /\
  Market.bettingToken a = Market.bettingToken b /\
  Market.creator a = Market.creator b.
Proof. unfold marketTerms. intros H. inversion H. repeat split; congruence. Qed.

Lemma optionTerms_eq a b :
  optionTerms a = optionTerms b -> Option.isActive a = Option.isActive b.
Proof. unfold optionTerms. intros H. inversion H. congruence. Qed.

Lemma exec_wellFormed c o st st' :
  exec c o st = Ok (tt, st') -> marketsWellFormed (eng st) -> marketsWellFormed (eng st').
Proof.
  intros H Hw m Hm'.
  destruct (N.lt_ge_cases m (marketCount (eng st))) as [Hlt|Hge].
  - destruct (exec_terms _ _ _ _ m H Hlt) as (_ & Ht & Ho).
    apply marketTerms_eq in Ht. destruct Ht as (Hn & Hliq & Hcr & Hend & Hb & _).
    destruct (Hw m Hlt) as (W1 & W2 & W3 & W4 & W5 & W6).
    unfold marketWellFormed. rewrite Hn, Hliq, Hcr, Hend, Hb.
    repeat split; try assumption.
    intros i Hi. rewrite (optionTerms_eq _ _ (Ho i)). apply W6, Hi.
  - pose proof (exec_count _ _ _ _ H) as Hc.
    destruct o; try (rewrite Hc in Hm'; lia).
    assert (m = marketCount (eng st)) by lia. subst m.
    apply createMarket_effects in H.
    destruct H as (_ & _ & _ & Hn & Hlen & Hdur & Hliq & _ & Hmk & Hop & _).
    unfold marketWellFormed. rewrite Hmk. cbn [Market.optionCount
      Market.adminInitialLiquidity Market.createdAt Market.endTime Market.lmsrB].
    repeat split; try assumption; try lia.
    intros i Hi. rewrite (Hop i Hi). reflexivity.
Qed.

Lemma reachable_wellFormed w : reachable w -> marketsWellFormed (w_eng w).
Proof.
  apply reachable_invariant.
  - apply exec_wellFormed.
  - intros d t e ->%constructor_ok m Hm. cbn in Hm. lia.
Qed.

(** X8. Every market of a reachable world is as creation requires it: it has
    at least two options, a positive initial liquidity, an end time between
    one hour and one year after its creation time, the liquidity parameter
    [clampB (adminInitialLiquidity / optionCount)], a betting token other
    than the zero address, and every one of its options is active (so a buy
    never fails on an inactive option). *)
Theorem markets_well_formed (w : World) (m : N) :
  reachable w ->
  m < marketCount (w_eng w) ->
  marketWellFormed (w_eng w) m /\
  Market.bettingToken (getMarket (w_eng w) m) <> 0.
Proof.
  intros Hr Hm. split.
  - apply (reachable_wellFormed w Hr m Hm).
  - destruct (reachable_configSound w Hr) as (_ & _ & _ & _ & Htok). apply Htok, Hm.
Qed.

Lemma markets_well_formed_witness :
  marketWellFormed (w_eng Scenario.twoMarkets) 1 /\
  Market.bettingToken (getMarket (w_eng Scenario.twoMarkets) 1) <> 0.
Proof.
  apply markets_well_formed.
  - apply run_reachable, reachable_world0.
  - vm_compute. reflexivity.
Defined.

(** ** One-way flags *)

Lemma exec_latches c o st st' m :
  exec c o st = Ok (tt, st') ->
  m < marketCount (eng st) ->
  let e := eng st in
  let e' := eng st' in
  (Market.disputed (getMarket e m) = true -> Market.disputed (getMarket e' m) = true) /\
  (Market.validated (getMarket e m) = true -> Market.validated (getMarket e' m) = true) /\
  (Market.adminLiquidityClaimed (getMarket e m) = true ->
   Market.adminLiquidityClaimed (getMarket e' m) = true) /\
  (forall u, getClaimedFreeTokens e m u = true -> getClaimedFreeTokens e' m u = true) /\
  (Market.disputed (getMarket e m) = true -> Market.resolved (getMarket e m) = false ->
   Market.resolved (getMarket e' m) = false).
Proof.
  intros H Hm. destruct st as [e l cs]. cbn [eng] in *.
  destruct o; exec_inv H; cbn [eng]; try (rewrite initOptions_frame); storage_goal;
    bool_hyps.
  all: repeat match goal with |- _ /\ _ => split end; try (intros; assumption).
  all: intros; repeat split_key; cbn_storage; try congruence; try lia.
  all: rewrite bool_decide_eq_true in *; set_solver.
Qed.

Lemma apply_latches cl w m :
  m < marketCount (w_eng w) ->
  m < marketCount (w_eng (apply cl w)) /\
  (isDisputed w m = true -> isDisputed (apply cl w) m = true) /\
  (isValidated w m = true -> isValidated (apply cl w) m = true) /\
  (liquidityClaimed w m = true -> liquidityClaimed (apply cl w) m = true) /\
  (forall u, freeClaimed w m u = true -> freeClaimed (apply cl w) m u = true) /\
  (isDisputed w m = true -> isResolved w m = false -> isResolved (apply cl w) m = false).
Proof.
  intros Hm. unfold isDisputed, isValidated, liquidityClaimed, freeClaimed, isResolved.
  destruct (apply_cases cl w) as [(e & _ & ->)|(w' & l & H & ->)]; [auto 10|].
  apply step_ok in H. destruct H as (st' & H & -> & _).
  split; [apply (exec_terms _ _ _ _ m H Hm)|].
  apply (exec_latches _ _ _ _ m H Hm).
Qed.

Lemma run_latches cs w m :
  m < marketCount (w_eng w) ->
  m < marketCount (w_eng (run cs w)) /\
  (isDisputed w m = true -> isDisputed (run cs w) m = true) /\
  (isValidated w m = true -> isValidated (run cs w) m = true) /\
  (liquidityClaimed w m = true -> liquidityClaimed (run cs w) m = true) /\
  (forall u, freeClaimed w m u = true -> freeClaimed (run cs w) m u = true) /\
  (isDisputed w m = true -> isResolved w m = false -> isResolved (run cs w) m = false).
Proof.
  revert w. induction cs as [|cl cs IH]; intros w Hm; [auto 10|].
  rewrite run_cons.
  destruct (apply_latches cl w m Hm) as (Hm' & A1 & A2 & A3 & A4 & A5).
  destruct (IH _ Hm') as (Hm'' & B1 & B2 & B3 & B4 & B5).
  repeat split; auto.
Qed.

(** ** Disputes block resolution *)

Lemma resolveMarket_undisputed c m o st st' :
  resolveMarket c m o st = Ok (tt, st') ->
  Market.disputed (getMarket (eng st) m) = false.
Proof.
  intros H. destruct st as [e l cs]. unfold_ops_in H. minv H. bool_hyps.
  cbn [eng]. unfold getMarket. assumption.
Qed.

(** X9. The disputed flag is never cleared, and resolveMarket refuses a
    disputed market: once an unresolved market is disputed it stays disputed
    and unresolved through every sequence of calls, and every resolveMarket
    call on it fails, whoever sends it, whenever, for whichever option. *)
Theorem dispute_blocks_resolution (w : World) (m : N) (cs : list Call) :
  m < marketCount (w_eng w) ->
  isDisputed w m = true ->
  isResolved w m = false ->
  isDisputed (run cs w) m = true /\
  isResolved (run cs w) m = false /\
  (forall sender now o, exists err,
     step (mkCall sender now (ResolveMarket m o)) (run cs w) = Err err).
Proof.
  intros Hm Hd Hr.
  destruct (run_latches cs w m Hm) as (_ & Hd' & _ & _ & _ & Hr').
  specialize (Hd' Hd). specialize (Hr' Hd Hr).
  split; [exact Hd'|]. split; [exact Hr'|].
  intros sender now o. unfold step. cbn [c_op c_sender c_now exec].
  destruct (resolveMarket _ m o _) as [[[] st']|err] eqn:H; [|eauto].
  apply resolveMarket_undisputed in H. cbn [eng] in H.
  unfold isDisputed in Hd'. congruence.
Qed.

Lemma dispute_blocks_resolution_witness :
  isDisputed Demo.disputedWorld 0 = true /\
  forall cs, exists err,
    step Scenario.resolveYes (run cs Demo.disputedWorld) = Err err.
Proof.
  assert (Hm : 0 < marketCount (w_eng Demo.disputedWorld)) by (vm_compute; reflexivity).
  assert (Hd : isDisputed Demo.disputedWorld 0 = true) by (vm_compute; reflexivity).
  assert (Hr : isResolved Demo.disputedWorld 0 = false) by (vm_compute; reflexivity).
  split; [exact Hd|]. intros cs.
  destruct (dispute_blocks_resolution Demo.disputedWorld 0 cs Hm Hd Hr) as (_ & _ & Hres).
  exact (Hres Scenario.operator 90000 0).
Defined.

(** ** Withdrawing the initial liquidity *)

Lemma withdrawAdminLiquidity_effects c m st st' :
  withdrawAdminLiquidity c m st = Ok (tt, st') ->
  let e := eng st in
  let mk := getMarket e m in
  m < marketCount e /\
  msg_sender c = Market.creator mk /\
  (Market.resolved mk = true \/ Market.invalidated mk = true) /\
  Market.adminLiquidityClaimed mk = false /\
  eng st' = updMarket m (Market.set_adminLiquidityClaimed true) e /\
  calls st' = calls st ++
    [mkExtCall (Market.bettingToken mk) (this c) (msg_sender c)
       (Market.adminInitialLiquidity mk) (eng st')].
Proof.
  intros H. destruct st as [e l cs]. unfold_ops_in H. minv H.
  cbn [eng led calls]. bool_hyps. apply orb_true_iff in Hreq1.
  storage_goal. repeat split; try assumption; try reflexivity.
Qed.

Lemma withdrawAdminLiquidity_claimed c m st :
  Market.adminLiquidityClaimed (getMarket (eng st) m) = true ->
  exists err, withdrawAdminLiquidity c m st = Err err.
Proof.
  intros Hk. destruct (withdrawAdminLiquidity c m st) as [[[] st']|err] eqn:H; [|eauto].
  apply withdrawAdminLiquidity_effects in H. cbn zeta in H.
  destruct H as (_ & _ & _ & Hk' & _). congruence.
Qed.

(** X10. A successful withdrawAdminLiquidity is made by the creator of a
    resolved or invalidated market, pays exactly the market's
    adminInitialLiquidity to the creator in one transfer of the market's
    token, issued with the claimed latch already set, and is final: after
    any further calls every withdrawAdminLiquidity on that market fails. *)
Theorem admin_liquidity_withdrawn_once (w w' : World) (sender now m : N)
  (l : list ExtCall) :
  step (mkCall sender now (WithdrawAdminLiquidity m)) w = Ok (w', l) ->
  let mk := getMarket (w_eng w) m in
  sender = Market.creator mk /\
  (isResolved w m = true \/ isInvalidated w m = true) /\
  liquidityClaimed w m = false /\
  l = [mkExtCall (Market.bettingToken mk) (w_this w) sender
         (Market.adminInitialLiquidity mk) (w_eng w')] /\
  liquidityClaimed w' m = true /\
  (forall cs s n, exists err,
     step (mkCall s n (WithdrawAdminLiquidity m)) (run cs w') = Err err).
Proof.
  intros H mk. apply step_ok in H. destruct H as (st' & H & -> & ->).
  cbn [c_op c_sender c_now exec] in H. apply withdrawAdminLiquidity_effects in H.
  cbn [eng led calls msg_sender this app] in H.
  destruct H as (Hm & Hs & Hf & Hk & He & Hc).
  assert (Hlatch : liquidityClaimed (mkWorld (w_this w) (eng st') (led st')) m = true).
  { unfold liquidityClaimed. cbn [w_eng]. rewrite He. unfold updMarket, getMarket.
    cbn_storage. rewrite lookup_insert_eq. reflexivity. }
  assert (Hm' : m < marketCount (w_eng (mkWorld (w_this w) (eng st') (led st')))).
  { cbn [w_eng]. rewrite He. exact Hm. }
  repeat split; try assumption.
  intros cs s n.
  destruct (run_latches cs _ m Hm') as (_ & _ & _ & Hl & _). specialize (Hl Hlatch).
  unfold step. cbn [c_op c_sender c_now exec].
  destruct (withdrawAdminLiquidity_claimed (mkCtx s n (w_this (run cs (mkWorld (w_this w) (eng st') (led st')))))
              m (mkSt (w_eng (run cs (mkWorld (w_this w) (eng st') (led st'))))
                   (w_led (run cs (mkWorld (w_this w) (eng st') (led st')))) []))
    as [err ->]; [exact Hl | eauto].
Qed.

Lemma admin_liquidity_withdrawn_once_witness :
  exists w' l,
    step Demo.withdrawLiquidity Scenario.resolved = Ok (w', l) /\
    map xc_amount l = [1000] /\ map xc_to l = [Scenario.operator] /\
    forall cs, exists err, step Demo.withdrawLiquidity (run cs w') = Err err.
Proof.
  destruct (step Demo.withdrawLiquidity Scenario.resolved) as [[w' l]|err] eqn:H;
    [|vm_compute in H; discriminate].
  exists w', l. split; [reflexivity|].
  destruct (admin_liquidity_withdrawn_once Scenario.resolved w' Scenario.operator 90002 0 l H)
    as (_ & _ & _ & Hl & _ & Hlater).
  rewrite Hl. split; [vm_compute; reflexivity|]. split; [reflexivity|].
  intros cs. exact (Hlater cs Scenario.operator 90002).
Defined.

(** ** Free markets *)

(** What a successful free-token claim checks and writes. *)
Lemma claimFreeTokens_effects c m o st st' :
  claimFreeTokens c m o st = Ok (tt, st') ->
  let e := eng st in
  let e' := eng st' in
  let u := msg_sender c in
  let f := getFreeConfig e m in
  let grant := FreeMarketConfig.tokensPerParticipant f in
  m < marketCount e /\
  block_timestamp c < Market.endTime (getMarket e m) /\
  Market.resolved (getMarket e m) = false /\
  Market.invalidated (getMarket e m) = false /\
  Market.marketType (getMarket e m) = FREE /\
  getClaimedFreeTokens e m u = false /\
  o < Market.optionCount (getMarket e m) /\
  FreeMarketConfig.currentFreeParticipants f < FreeMarketConfig.maxFreeParticipants f /\
  grant <= FreeMarketConfig.remainingPrizePool f /\
  calls st' = calls st /\ led st' = led st /\
  marketCount e' = marketCount e /\
  getClaimedFreeTokens e' m u = true /\
  getShares e' u m o = getShares e u m o + grant /\
  Option.totalShares (getOption e' m o) = Option.totalShares (getOption e m o) + grant /\
  Option.currentPrice (getOption e' m o) = Option.currentPrice (getOption e m o) /\
  FreeMarketConfig.currentFreeParticipants (getFreeConfig e' m)
    = FreeMarketConfig.currentFreeParticipants f + 1 /\
  FreeMarketConfig.remainingPrizePool (getFreeConfig e' m)
    = FreeMarketConfig.remainingPrizePool f - grant.
Proof.
  intros H. destruct st as [e l cs]. unfold_ops_in H. minv H.
  cbn [eng led calls]. storage_goal. rewrite !lookup_insert_eq. cbn_storage.
  bool_hyps.
  repeat match goal with
  | H : bool_decide _ = true |- _ => apply bool_decide_eq_true in H
  end.
  repeat split; try assumption; try reflexivity.
  apply bool_decide_eq_true. set_solver.
Qed.




Lemma exec_freePool c o st st' :
  exec c o st = Ok (tt, st') -> freePoolSound (eng st) -> freePoolSound (eng st').
Proof.
  intros H Hp. destruct st as [e l cs]. unfold freePoolSound in *. cbn [eng] in *.
  destruct o; exec_inv H; cbn [eng]; try (rewrite initOptions_frame); storage_goal;
    bool_hyps; try exact Hp.
  all: intros m'; specialize (Hp m'); unfold getFreeConfig in Hp; cbn zeta in Hp;
       split_key; cbn_storage; rinv_all; try exact Hp; try lia.
  all: destruct Hp as (P1 & P2 & P3); repeat split; try nia.
Qed.

Lemma reachable_freePool w : reachable w -> freePoolSound (w_eng w).
Proof.
  apply reachable_invariant.
  - apply exec_freePool.
  - intros d t e ->%constructor_ok m. unfold getFreeConfig. cbn.
    rewrite lookup_empty. cbn. lia.
Qed.

(** X12. In every reachable world the prize pool of every market is
    accounted for: the remaining pool plus tokensPerParticipant for each
    admitted participant is the total pool, the total pool is
    maxFreeParticipants * tokensPerParticipant, and no more than
    maxFreeParticipants were admitted. *)
Theorem free_pool_accounted (w : World) (m : N) :
  reachable w ->
  let f := getFreeConfig (w_eng w) m in
  FreeMarketConfig.remainingPrizePool f
    + FreeMarketConfig.currentFreeParticipants f * FreeMarketConfig.tokensPerParticipant f
    = FreeMarketConfig.totalPrizePool f /\
  FreeMarketConfig.totalPrizePool f
    = FreeMarketConfig.maxFreeParticipants f * FreeMarketConfig.tokensPerParticipant f /\
  FreeMarketConfig.currentFreeParticipants f <= FreeMarketConfig.maxFreeParticipants f.
Proof. intros Hr. apply (reachable_freePool w Hr m). Qed.

Lemma free_pool_accounted_witness :
  let f := getFreeConfig (w_eng (run [Demo.claimFreeA] Demo.freeWorld)) 0 in
  FreeMarketConfig.remainingPrizePool f = 10 /\
  FreeMarketConfig.remainingPrizePool f
    + FreeMarketConfig.currentFreeParticipants f * FreeMarketConfig.tokensPerParticipant f
    = FreeMarketConfig.totalPrizePool f.
Proof.
  split; [vm_compute; reflexivity|].
  apply (free_pool_accounted (run [Demo.claimFreeA] Demo.freeWorld) 0).
  apply run_reachable, run_reachable, reachable_world0.
Defined.

(** ** Resolution *)

Lemma resolveMarket_effects c m o st st' :
  resolveMarket c m o st = Ok (tt, st') ->
  let e := eng st in
  let e' := eng st' in
  let mk := getMarket e m in
  let f := Market.platformFeesCollected mk in
  hasRole e QUESTION_RESOLVE_ROLE (msg_sender c) = true /\
  m < marketCount e /\ Market.endTime mk <= block_timestamp c /\
  Market.resolved mk = false /\ Market.invalidated mk = false /\
  o < Market.optionCount mk /\ Market.disputed mk = false /\
  calls st' = calls st /\ led st' = led st /\
  marketCount e' = marketCount e /\
  Market.resolved (getMarket e' m) = true /\
  Market.winningOptionId (getMarket e' m) = o /\
  totalLockedPlatformFees e' + f = totalLockedPlatformFees e /\
  totalUnlockedPlatformFees e' = totalUnlockedPlatformFees e + f /\
  totalPlatformFeesCollected e' = totalPlatformFeesCollected e /\
  userShares e' = userShares e.
Proof.
  intros H. destruct st as [e l cs]. unfold_ops_in H. minv H.
  cbn [eng led calls]. storage_goal. rewrite !lookup_insert_eq. cbn_storage.
  bool_hyps. unfold hasRole, getMarket in *.
  repeat split; try assumption; try reflexivity; lia.
Qed.

Lemma run_resolved_frozen cs w m :
  m < marketCount (w_eng w) ->
  isResolved w m = true ->
  m < marketCount (w_eng (run cs w)) /\
  isResolved (run cs w) m = true /\
  Market.winningOptionId (getMarket (w_eng (run cs w)) m)
  = Market.winningOptionId (getMarket (w_eng w) m) /\
  (forall u i, getShares (w_eng (run cs w)) u m i = getShares (w_eng w) u m i).
Proof.
  revert w. induction cs as [|cl cs IH]; intros w Hm Hr; [auto|].
  rewrite run_cons.
  assert (Hstep : m < marketCount (w_eng (apply cl w)) /\
                  isResolved (apply cl w) m = true /\
                  Market.winningOptionId (getMarket (w_eng (apply cl w)) m)
                  = Market.winningOptionId (getMarket (w_eng w) m) /\
                  (forall u i, getShares (w_eng (apply cl w)) u m i
                               = getShares (w_eng w) u m i)).
  { destruct (apply_cases cl w) as [(e & _ & ->)|(w' & l & H & ->)]; [auto|].
    apply step_ok in H. destruct H as (st' & H & -> & _).
    destruct (exec_settled _ _ _ _ m 0 H) as [_ Hrest].
    destruct (Hrest Hm Hr) as (Hm' & Hr' & Hw & _ & Hs). auto. }
  destruct Hstep as (Hm' & Hr' & Hw & Hs).
  destruct (IH _ Hm' Hr') as (Hm'' & Hr'' & Hw' & Hs').
  split; [exact Hm''|]. split; [exact Hr''|]. split; [congruence|].
  intros u i. rewrite Hs', Hs. reflexivity.
Qed.

(** X13. A successful resolveMarket is made by a holder of the resolve role,
    at or after the end time, on an existing market that is neither
    resolved, invalidated nor disputed, for one of its options.  It makes no
    token call, moves exactly the market's accrued fees from the locked to
    the unlocked total, and is final: through every further sequence of
    calls the market stays resolved with the same winning option, and
    nobody's shares of it change. *)
Theorem resolution_final (w w' : World) (sender now m o : N) (l : list ExtCall) :
  step (mkCall sender now (ResolveMarket m o)) w = Ok (w', l) ->
  let e := w_eng w in
  let e' := w_eng w' in
  let f := Market.platformFeesCollected (getMarket e m) in
  hasRole e QUESTION_RESOLVE_ROLE sender = true /\
  Market.endTime (getMarket e m) <= now /\
  o < Market.optionCount (getMarket e m) /\
  isDisputed w m = false /\ isInvalidated w m = false /\ isResolved w m = false /\
  l = [] /\
  totalLockedPlatformFees e' + f = totalLockedPlatformFees e /\
  totalUnlockedPlatformFees e' = totalUnlockedPlatformFees e + f /\
  totalPlatformFeesCollected e' = totalPlatformFeesCollected e /\
  (forall cs,
     isResolved (run cs w') m = true /\
     Market.winningOptionId (getMarket (w_eng (run cs w')) m) = o /\
     forall u i, getShares (w_eng (run cs w')) u m i = getShares e u m i).
Proof.
  intros H e e' f. apply step_ok in H. destruct H as (st' & H & -> & ->).
  cbn [c_op c_sender c_now exec] in H. apply resolveMarket_effects in H.
  cbn [eng led calls msg_sender this block_timestamp] in H.
  destruct H as (Hrole & Hm & Hend & Hr & Hi & Ho & Hd & Hc & _ & Hcnt & Hr' & Hw & Hl & Hu
                 & Hcol & Hsh).
  subst e e' f. cbn [w_eng].
  repeat split; try assumption.
  all: destruct (run_resolved_frozen cs (mkWorld (w_this w) (eng st') (led st')) m)
         as (_ & Hres & Hwin & Hshares);
       [cbn [w_eng]; rewrite Hcnt; exact Hm | exact Hr' | ]; cbn [w_eng] in *.
  - exact Hres.
  - rewrite Hwin. exact Hw.
  - intros u i. rewrite Hshares. unfold getShares. rewrite Hsh. reflexivity.
Qed.

Lemma resolution_final_witness :
  exists w' l,
    step Scenario.resolveYes Scenario.bought = Ok (w', l) /\
    totalUnlockedPlatformFees (w_eng w') = 1 /\
    forall cs, getShares (w_eng (run cs w')) Scenario.alice 0 0 = 100.
Proof.
  destruct (step Scenario.resolveYes Scenario.bought) as [[w' l]|err] eqn:H;
    [|vm_compute in H; discriminate].
  exists w', l. split; [reflexivity|].
  destruct (resolution_final Scenario.bought w' Scenario.operator 90000 0 0 l H)
    as (_ & _ & _ & _ & _ & _ & _ & _ & Hu & _ & Hlater).
  split; [rewrite Hu; vm_compute; reflexivity|].
  intros cs. destruct (Hlater cs) as (_ & _ & Hs). rewrite Hs. vm_compute. reflexivity.
Defined.

(** ** Withdrawals in a named token *)

Lemma ledger_transfer_succeeds token from to amount l :
  token <> 0 -> amount <= balanceOf l token from ->
  exists l', ledger_transfer token from to amount l = Ok l'.
Proof.
  intros Ht Ha. unfold ledger_transfer.
  apply N.eqb_neq in Ht. apply N.leb_le in Ha. rewrite Ht, Ha. eauto.
Qed.

Lemma ledger_transfer_covered token from to amount l l' :
  ledger_transfer token from to amount l = Ok l' ->
  token <> 0 /\ amount <= balanceOf l token from.
Proof.
  unfold ledger_transfer. destruct (N.eqb_spec token 0); [discriminate|].
  destruct (N.leb_spec amount (balanceOf l token from)); [|discriminate]. auto.
Qed.

(** X14. withdrawPlatformFeesForToken reads and writes no fee counter.  It
    succeeds exactly when the caller is the owner, the token is whitelisted
    (and a token contract exists at it), the amount is positive and the
    engine's balance of the token covers it; it then transfers the amount to
    the fee recipient and leaves the engine's storage unchanged.  The amount
    is bounded by the engine's whole balance of the token only, not by the
    unlocked fees. *)
Theorem fee_token_withdrawal_unaccounted (w : World) (sender now t a : N) :
  (forall w' l,
     step (mkCall sender now (WithdrawPlatformFeesForToken t a)) w = Ok (w', l) ->
     sender = owner (w_eng w) /\ isWhitelisted (w_eng w) t = true /\ 0 < a /\
     t <> 0 /\ a <= balanceOf (w_led w) t (w_this w) /\
     w_eng w' = w_eng w /\
     l = [mkExtCall t (w_this w) (feeRecipient (w_eng w)) a (w_eng w)]) /\
  (sender = owner (w_eng w) -> isWhitelisted (w_eng w) t = true -> 0 < a ->
   t <> 0 -> a <= balanceOf (w_led w) t (w_this w) ->
   exists w',
     step (mkCall sender now (WithdrawPlatformFeesForToken t a)) w
     = Ok (w', [mkExtCall t (w_this w) (feeRecipient (w_eng w)) a (w_eng w)]) /\
     w_eng w' = w_eng w).
Proof.
  split.
  - intros w' l H. apply step_ok in H. destruct H as (st' & H & -> & ->).
    cbn [c_op c_sender c_now] in H. exec_inv H. bool_hyps.
    apply ledger_transfer_covered in Htr. destruct Htr as [Ht Ha].
    cbn [eng calls w_eng app]. unfold isWhitelisted, feeRecipient.
    repeat split; assumption.
  - intros Hs Hw Ha Ht Hb. apply N.eqb_eq in Hs. apply N.ltb_lt in Ha.
    destruct (ledger_transfer_succeeds t (w_this w) (feeRecipient (w_eng w)) a (w_led w)
                Ht Hb) as [l' Hl].
    exists (mkWorld (w_this w) (w_eng w) l').
    unfold step. cbn [c_op c_sender c_now exec].
    cbv [withdrawPlatformFeesForToken onlyOwner bind gets guard require ret fail
         token_transfer].
    cbn [eng led calls msg_sender this].
    rewrite Hs; cbv beta iota; cbn [eng led calls msg_sender this].
    rewrite Hw; cbv beta iota; cbn [eng led calls msg_sender this].
    rewrite Ha; cbv beta iota; cbn [eng led calls msg_sender this].
    rewrite Hl. cbn [app]. split; reflexivity.
Qed.

Lemma fee_token_withdrawal_unaccounted_witness :
  totalUnlockedPlatformFees (w_eng Scenario.bought) = 0 /\
  exists w',
    step Demo.takeAsFees Scenario.bought
    = Ok (w', [mkExtCall Scenario.token Scenario.self Scenario.operator 500
                 (w_eng Scenario.bought)]) /\
    w_eng w' = w_eng Scenario.bought.
Proof.
  split; [vm_compute; reflexivity|].
  apply (proj2 (fee_token_withdrawal_unaccounted Scenario.bought Scenario.operator 2500
                  Scenario.token 500)).
  - vm_compute. reflexivity.
  - vm_compute. reflexivity.
  - vm_compute. reflexivity.
  - vm_compute. discriminate.
  - vm_compute. discriminate.
Defined.

(** ** Invalidated markets *)

Lemma sellShares_open c m o q p t st st' :
  sellShares c m o q p t st = Ok (tt, st') ->
  Market.invalidated (getMarket (eng st) m) = false.
Proof.
  intros H. destruct st as [e l cs]. unfold_ops_in H. minv H. bool_hyps.
  cbn [eng]. unfold getMarket. assumption.
Qed.

(** X15. Nothing is paid to the traders of an invalidated market: in a
    reachable world, once a market is invalidated, every buyShares,
    sellShares, claimWinnings and claimFreeTokens on it fails, after any
    further calls, for every sender, time and argument.  The only call on
    the market that still moves tokens is the creator's
    withdrawAdminLiquidity. *)
Theorem invalidated_market_pays_no_trader (w : World) (m : N) (cs : list Call)
  (sender now : N) :
  reachable w ->
  isInvalidated w m = true ->
  isInvalidated (run cs w) m = true /\
  (forall o q p t, exists err,
     step (mkCall sender now (BuyShares m o q p t)) (run cs w) = Err err) /\
  (forall o q p t, exists err,
     step (mkCall sender now (SellShares m o q p t)) (run cs w) = Err err) /\
  (exists err, step (mkCall sender now (ClaimWinnings m)) (run cs w) = Err err) /\
  (forall o, exists err,
     step (mkCall sender now (ClaimFreeTokens m o)) (run cs w) = Err err).
Proof.
  intros Hr Hi.
  assert (Hres : isResolved w m = false).
  { destruct (isResolved w m) eqn:E; [|reflexivity].
    exfalso. apply (reachable_exclusive w m Hr). auto. }
  destruct (run_invalidated cs w m (reachable_marketsBelowCount w Hr) Hi Hres) as [Hi' _].
  unfold isInvalidated in Hi'.
  split; [exact Hi'|]. unfold step. cbn [c_op c_sender c_now exec].
  repeat split; intros.
  - destruct (buyShares _ m o q p t _) as [[[] st']|err] eqn:H; [|eauto].
    apply buyShares_effects in H. cbn [eng] in H.
    destruct H as (cost & _ & _ & _ & _ & _ & Hopen & _). congruence.
  - destruct (sellShares _ m o q p t _) as [[[] st']|err] eqn:H; [|eauto].
    apply sellShares_open in H. cbn [eng] in H. congruence.
  - destruct (claimWinnings _ m _) as [[[] st']|err] eqn:H; [|eauto].
    apply claimWinnings_effects in H. cbn [eng] in H.
    destruct H as (payout & snap & _ & _ & _ & _ & _ & _ & Hopen & _). congruence.
  - destruct (claimFreeTokens _ m o _) as [[[] st']|err] eqn:H; [|eauto].
    apply claimFreeTokens_effects in H. cbn [eng] in H.
    destruct H as (_ & _ & _ & Hopen & _). congruence.
Qed.

Lemma invalidated_market_pays_no_trader_witness :
  getShares (w_eng Demo.invalidatedWorld) Scenario.alice 0 0 = 100 /\
  forall cs, exists err, step Scenario.sellYes (run cs Demo.invalidatedWorld) = Err err.
Proof.
  split; [vm_compute; reflexivity|]. intros cs.
  assert (Hr : reachable Demo.invalidatedWorld) by apply run_reachable, reachable_world0.
  assert (Hi : isInvalidated Demo.invalidatedWorld 0 = true) by (vm_compute; reflexivity).
  destruct (invalidated_market_pays_no_trader Demo.invalidatedWorld 0 cs Scenario.alice 3000
              Hr Hi) as (_ & _ & Hsell & _).
  exact (Hsell 0 50 0 0).
Defined.

(** ** The token whitelist *)

(** The removal loop takes out the one entry equal to the token and keeps
    every other entry. *)
Lemma swapAndPop_spec t l :
  NoDup l ->
  NoDup (swapAndPop t l) /\ forall x, x ∈ swapAndPop t l <-> x ∈ l /\ x <> t.
Proof.
  induction l as [|a rest IH]; intros Hnd.
  - cbn. split; [constructor|]. intros x. split; [intros H; inversion H | intros [H _]; inversion H].
  - apply list.NoDup_cons in Hnd. destruct Hnd as [Ha Hnd]. cbn [swapAndPop].
    destruct (N.eqb_spec a t) as [->|Hne].
    + destruct rest as [|b rest'].
      * split; [constructor|]. intros x. rewrite list_elem_of_singleton.
        split; [intros H; inversion H | intros [-> H]; congruence].
      * assert (Hperm : List.last (b :: rest') t :: List.removelast (b :: rest')
                        ≡ₚ b :: rest').
        { rewrite (app_removelast_last t (l := b :: rest')) at 3 by discriminate.
          apply Permutation_cons_append. }
        split; [rewrite Hperm; exact Hnd|].
        intros x. rewrite Hperm, (elem_of_cons (b :: rest') x t).
        split.
        -- intros Hx. split; [right; exact Hx|]. intros ->. contradiction.
        -- intros [[->|Hx] Hxt]; [congruence | exact Hx].
    + destruct (IH Hnd) as [IH1 IH2]. split.
      * apply list.NoDup_cons. split; [|exact IH1]. rewrite IH2. intros [H _]. contradiction.
      * intros x. rewrite !elem_of_cons, IH2. split.
        -- intros [->|[Hx Hxt]]; [split; [left; reflexivity | congruence] | split; [right; exact Hx | exact Hxt]].
        -- intros [[->|Hx] Hxt]; [left; reflexivity | right; split; assumption].
Qed.

Lemma exec_whitelistSound c o st st' :
  exec c o st = Ok (tt, st') -> whitelistSound (eng st) -> whitelistSound (eng st').
Proof.
  intros H [Hnd Hiff]. destruct st as [e l cs]. unfold whitelistSound. cbn [eng] in *.
  destruct o; exec_inv H; cbn [eng]; try (rewrite initOptions_frame); storage_goal;
    bool_hyps; try (split; assumption).
  - apply bool_decide_eq_false in Hreq1. split.
    + apply list.NoDup_app. split; [exact Hnd|]. split; [|apply NoDup_singleton].
      intros x Hx ->%list_elem_of_singleton. apply Hreq1, Hiff, Hx.
    + intros t. rewrite elem_of_app, list_elem_of_singleton, Hiff. set_solver.
  - destruct (swapAndPop_spec _token _ Hnd) as [S1 S2]. split; [exact S1|].
    intros t. rewrite S2, Hiff. set_solver.
Qed.

Lemma reachable_whitelistSound w : reachable w -> whitelistSound (w_eng w).
Proof.
  apply reachable_invariant.
  - apply exec_whitelistSound.
  - intros d t e ->%constructor_ok. unfold whitelistSound. cbn. split.
    + apply NoDup_singleton.
    + intros x. rewrite list_elem_of_singleton. set_solver.
Qed.

(** X16. The whitelist array and the whitelist mapping agree in every
    reachable world: getWhitelistedTokens lists exactly the tokens for which
    isTokenWhitelisted answers true, each of them once, whatever tokens were
    added and removed in whatever order; the zero address is never among
    them. *)
Theorem whitelist_views_agree (w : World) :
  reachable w ->
  NoDup (getWhitelistedTokens (w_eng w)) /\
  (forall t, In t (getWhitelistedTokens (w_eng w))
             <-> isTokenWhitelisted (w_eng w) t = true) /\
  ~ In 0 (getWhitelistedTokens (w_eng w)).
Proof.
  intros Hr. destruct (reachable_whitelistSound w Hr) as [Hnd Hiff].
  destruct (reachable_configSound w Hr) as (_ & _ & _ & Hz & _).
  unfold getWhitelistedTokens, isTokenWhitelisted, isWhitelisted in *.
  assert (Hall : forall t, In t (whitelistedTokenList (w_eng w))
                           <-> bool_decide (t ∈ whitelistedTokens (w_eng w)) = true).
  { intros t. rewrite <- list_elem_of_In, Hiff, bool_decide_eq_true. reflexivity. }
  split; [exact Hnd|]. split; [exact Hall|].
  rewrite Hall, Hz. discriminate.
Qed.

Lemma whitelist_views_agree_witness :
  getWhitelistedTokens (w_eng Demo.rewhitelisted) = [9; 8] /\
  isTokenWhitelisted (w_eng Demo.rewhitelisted) Scenario.token = false /\
  forall t, In t [9; 8] <-> isTokenWhitelisted (w_eng Demo.rewhitelisted) t = true.
Proof.
  assert (Hl : getWhitelistedTokens (w_eng Demo.rewhitelisted) = [9; 8])
    by (vm_compute; reflexivity).
  split; [exact Hl|]. split; [vm_compute; reflexivity|].
  destruct (whitelist_views_agree Demo.rewhitelisted) as (_ & Hall & _).
  - apply run_reachable, reachable_world0.
  - rewrite Hl in Hall. exact Hall.
Defined.

(** ** Rounding of the price formula *)

Lemma sumWeightedShares_ge_other e m o s i idx acc t :
  sumWeightedShares e m o s idx acc = Ok t ->
  i <> o ->
  acc <= t /\
  (In o idx -> acc + s <= t) /\
  (In i idx -> acc + Option.totalShares (getOption e m i) <= t) /\
  (In o idx -> In i idx -> acc + s + Option.totalShares (getOption e m i) <= t).
Proof.
  intros H Hne. revert acc H. induction idx as [|j rest IH]; intros acc H; simpl in H.
  - inversion H; subst. repeat split; try lia; intros [].
  - destruct (j =? o) eqn:Hjo;
      [apply N.eqb_eq in Hjo; subst j | apply N.eqb_neq in Hjo];
      rinv H; apply IH in H; destruct H as (H1 & H2 & H3 & H4).
    + repeat split; try lia.
      * intros [->|Hi]; [congruence|]. specialize (H3 Hi). lia.
      * intros _ [->|Hi]; [congruence|]. specialize (H3 Hi). lia.
    + repeat split; try lia.
      * intros [->|Ho]; [congruence|]. specialize (H2 Ho). lia.
      * intros [->|Hi]; [lia|]. specialize (H3 Hi). lia.
      * intros [->|Ho]; [congruence|]. intros [->|Hi].
        -- specialize (H2 Ho). lia.
        -- specialize (H4 Ho Hi). lia.
Qed.

(** With shares outstanding in another option the price stays below one. *)
Lemma calculatePrice_lt e m o s i p :
  o < Market.optionCount (getMarket e m) ->
  i < Market.optionCount (getMarket e m) -> i <> o ->
  0 < Option.totalShares (getOption e m i) ->
  _calculatePrice e m o s = Ok p -> p < E18.
Proof.
  intros Ho Hi Hne Hpos H. unfold _calculatePrice in H. rinv H.
  apply (sumWeightedShares_ge_other _ _ _ _ i) in H0; [|exact Hne].
  destruct H0 as (_ & _ & _ & Hboth).
  specialize (Hboth (loopIndices_In _ _ Ho) (loopIndices_In _ _ Hi)).
  destruct (N.eqb_spec x 0) as [->|Hx]; [lia|].
  rinv H. apply N.Div0.div_lt_upper_bound. pose proof E18_pos. nia.
Qed.

(** X17. The cost of a buy is rounded down, so a single share is free: in a
    market where another option has shares outstanding, a successful
    buyShares of quantity 1 pulls exactly 0 tokens from the buyer (cost 0,
    fee 0) and still credits one share. *)
Theorem single_share_costs_nothing (w w' : World) (buyer now m o i maxP maxT : N)
  (l : list ExtCall) :
  step (mkCall buyer now (BuyShares m o 1 maxP maxT)) w = Ok (w', l) ->
  i < Market.optionCount (getMarket (w_eng w) m) -> i <> o ->
  0 < Option.totalShares (getOption (w_eng w) m i) ->
  _calculateBuyCost (w_eng w) m o 1 = Ok 0 /\
  l = [mkExtCall (Market.bettingToken (getMarket (w_eng w) m)) buyer (w_this w) 0
         (w_eng w)] /\
  getShares (w_eng w') buyer m o = getShares (w_eng w) buyer m o + 1.
Proof.
  intros H Hi Hne Hpos. apply step_ok in H. destruct H as (st' & H & -> & ->).
  cbn [c_op c_sender c_now exec] in H. apply buyShares_effects in H.
  cbn [eng led calls msg_sender this block_timestamp app] in H.
  destruct H as (cost & Hc & _ & _ & _ & _ & _ & Ho & _ & _ & _ & Hcalls & Hsh & _).
  assert (Hcost : cost = 0).
  { pose proof Hc as Hc'. unfold _calculateBuyCost in Hc'. rinv Hc'.
    match goal with
    | Hp : _calculatePrice _ _ _ _ = Ok _ |- _ =>
        apply (calculatePrice_lt _ _ _ _ i) in Hp; try assumption;
        rewrite N.mul_1_l; apply N.div_small; exact Hp
    end. }
  subst cost. cbn [w_eng]. split; [exact Hc|]. split; [|exact Hsh].
  rewrite Hcalls. reflexivity.
Qed.

Lemma single_share_costs_nothing_witness :
  exists w' l,
    step Demo.buyOne Scenario.created = Ok (w', l) /\
    map xc_amount l = [0] /\
    getShares (w_eng w') Scenario.alice 0 0 = 1.
Proof.
  destruct (step Demo.buyOne Scenario.created) as [[w' l]|err] eqn:H;
    [|vm_compute in H; discriminate].
  exists w', l. split; [reflexivity|].
  destruct (single_share_costs_nothing Scenario.created w' Scenario.alice 2000 0 0 1 E18
              1000 l H) as (_ & Hl & Hs).
  - vm_compute. reflexivity.
  - discriminate.
  - vm_compute. reflexivity.
  - rewrite Hl, Hs. split; reflexivity.
Defined.

(** X18. Buying and at once selling back the same even quantity returns the
    gross amount paid: after a successful buyShares of an even quantity [q]
    at cost [cost], the sell proceeds of [q] shares of the same option are
    exactly [cost], so the round trip loses the two fees and nothing else. *)
Theorem buy_then_sell_even (w w' : World) (buyer now m o q maxP maxT : N)
  (l : list ExtCall) :
  step (mkCall buyer now (BuyShares m o q maxP maxT)) w = Ok (w', l) ->
  q mod 2 = 0 ->
  exists cost,
    _calculateBuyCost (w_eng w) m o q = Ok cost /\
    _calculateSellProceeds (w_eng w') m o q = Ok cost.
Proof.
  intros H Heven. apply step_ok in H. destruct H as (st' & H & -> & ->).
  cbn [c_op c_sender c_now] in H.
  assert (Hm : m < marketCount (w_eng w)).
  { pose proof H as H'. cbn [exec] in H'. apply buyShares_effects in H'. cbn [eng] in H'.
    destruct H' as (? & _ & _ & Hm & _). exact Hm. }
  destruct (exec_terms _ _ _ _ m H Hm) as (_ & Ht & _). cbn [eng] in Ht.
  apply marketTerms_eq in Ht. destruct Ht as (Hn & _).
  cbn [exec] in H.
  pose proof (fun o' => buyShares_other_options _ _ _ _ _ _ _ _ o' H) as Hothers.
  cbn [eng] in Hothers.
  apply buyShares_effects in H. cbn [eng] in H.
  destruct H as (cost & Hc & _ & _ & _ & _ & _ & _ & _ & _ & _ & _ & _ & _ & Hts & _).
  exists cost. split; [exact Hc|]. cbn [w_eng].
  unfold _calculateSellProceeds. rewrite Hts.
  unfold _calculateBuyCost in Hc.
  set (s := Option.totalShares (getOption (w_eng w) m o)) in *.
  replace (q <=? s + q) with true by (symmetry; apply N.leb_le; lia).
  cbn [negb].
  assert (Hhalf : q = 2 * (q / 2)).
  { rewrite (N.div_mod q 2) at 1 by discriminate. lia. }
  rinv Hc.
  unfold U256.div at 1. cbn [N.eqb]. cbn [rbind].
  unfold U256.sub. replace (q / 2 <=? s + q) with true by (symmetry; apply N.leb_le; lia).
  cbn [rbind].
  replace (s + q - q / 2) with (s + q / 2) by lia.
  rewrite (calculatePrice_ext (eng st') (w_eng w) m o (s + q / 2)).
  - match goal with
    | Hp : _calculatePrice _ _ _ _ = Ok ?p, Hmul : q * ?p <= MAX_UINT256 |- _ =>
        rewrite Hp; cbn [rbind]; unfold U256.mul;
        replace (q * p <=? MAX_UINT256) with true by (symmetry; apply N.leb_le; exact Hmul)
    end.
    cbn [rbind]. unfold U256.div. cbn [N.eqb]. reflexivity.
  - exact Hn.
  - intros i Hi. rewrite (Hothers i Hi). reflexivity.
Qed.

Lemma buy_then_sell_even_witness :
  exists w' l,
    step Demo.buyEven Scenario.bought = Ok (w', l) /\
    _calculateSellProceeds (w_eng w') 0 1 40 = _calculateBuyCost (w_eng Scenario.bought) 0 1 40.
Proof.
  destruct (step Demo.buyEven Scenario.bought) as [[w' l]|err] eqn:H;
    [|vm_compute in H; discriminate].
  exists w', l. split; [reflexivity|].
  destruct (buy_then_sell_even Scenario.bought w' Scenario.bob 2100 0 1 40 E18 1000 l H)
    as (cost & Hb & Hs); [reflexivity|].
  rewrite Hb, Hs. reflexivity.
Defined.
